(** * CRM real-time synchronisation engine: a shallow embedding

  The development follows the JavaScript sources of the repository.

  Part one, the programs:
  - [Js]               : values, plain objects, errors and promises;
  - [ConflictResolver] : class [ConflictResolver] of the NocoDB API wrapper;
  - [RegExp]           : the regular expressions the sources test strings with;
  - [Hocuspocus]       : [validateDocumentName] of the Hocuspocus server;
  - [Realtime]         : class [CRMRealtimeManager] (joining a deal,
                         reconnection, last-write-wins resolution);
  - [API]              : class [APIManager] (requests with retries and cache,
                         create, read, update and delete of deals and
                         contacts, the offline queue and its replay);
  - [Requests]         : what one attempt of a request sends and leaves;
  - [Contacts]         : the shapes of addresses and phone numbers;
  - [Sessions]         : rounds of reconnection of the real-time manager;
  - [Notes]            : class [NotesManager] (local notes, undo and redo);
  - [Hooks]            : the hook [onAuthenticate] of the Hocuspocus server;
  - [Sync]             : [mergeData] of the API manager.

  Part two, their properties, in the modules [...Facts].

  JavaScript objects used as records are finite maps from property names to
  values.  Methods that change the state of their object are functions on an
  explicit state; the methods of [APIManager] run in a monad of computations
  that return, throw, or leave the embedding.  What the program cannot
  decide - the answers of the network, the clock, random draws - is read from
  the state. *)

From Stdlib Require Import ZArith Lia Ascii String.
From stdpp Require Import gmap strings list fin_maps pretty.

Local Open Scope string_scope.
Local Open Scope list_scope.
Local Open Scope Z_scope.

(** ** JavaScript values, objects and errors *)

Module Js.

(** The values that occur as properties of the records handled by the
    engine.  Numbers are the integers the sources use (identifiers, amounts,
    millisecond timestamps, HTTP status codes). *)
Inductive JsVal :=
| VUndefined
| VNull
| VBool (b : bool)
| VNum (n : Z)
| VStr (s : string).

#[global] Instance JsVal_eq_dec : EqDecision JsVal.
Proof. solve_decision. Defined.

(** A plain object: its own enumerable string-keyed properties. *)
Abbreviation Obj := (gmap string JsVal).

(** [o.k] *)
Definition get (o : Obj) (k : string) : JsVal := default VUndefined (o !! k).

(** Truthiness, [!!v]. *)
Definition truthy (v : JsVal) : bool :=
  match v with
  | VUndefined | VNull => false
  | VBool b => b
  | VNum n => negb (n =? 0)
  | VStr s => negb (String.eqb s "")
  end.

(** The property names every plain object inherits from [Object.prototype];
    the [in] operator sees them. *)
Definition ObjectPrototypeKeys : list string :=
  [ "constructor"; "__defineGetter__"; "__defineSetter__"; "hasOwnProperty";
    "__lookupGetter__"; "__lookupSetter__"; "isPrototypeOf";
    "propertyIsEnumerable"; "toString"; "valueOf"; "__proto__";
    "toLocaleString" ].

(** [k in o] for a plain object [o]. *)
Definition has_in (k : string) (o : Obj) : bool :=
  bool_decide (is_Some (o !! k)) || bool_decide (k ∈ ObjectPrototypeKeys).

(** [s.startsWith(p)] and [s.includes(p)]. *)
Definition startsWith (p s : string) : bool := String.prefix p s.

Fixpoint includes (p s : string) : bool :=
  String.prefix p s ||
  match s with
  | EmptyString => false
  | String _ s' => includes p s'
  end.

(** Errors: [name], [message] and the [status] that [HTTPError] and
    [APIError] carry. *)
Record JsError := mkError {
  name : string;
  message : string;
  status : option Z
}.

#[global] Instance JsError_eq_dec : EqDecision JsError.
Proof. solve_decision. Defined.

Definition Error (msg : string) : JsError := mkError "Error" msg None.
Definition TypeError (msg : string) : JsError := mkError "TypeError" msg None.
Definition HTTPError (msg : string) (st : Z) : JsError :=
  mkError "HTTPError" msg (Some st).
Definition APIError (msg : string) (st : Z) : JsError :=
  mkError "APIError" msg (Some st).

(** The state of the promise an [async] function hands back once its body
    has run. *)
Inductive Promise (A : Type) :=
| Fulfilled (a : A)
| Rejected (e : JsError).
Arguments Fulfilled {A} a.
Arguments Rejected {A} e.

End Js.

Import Js.

(** ** Conflict resolution between a local and a remote record *)

Module ConflictResolver.

Record Resolution := mkResolution {
  resolved : Obj;
  source : string
}.

Definition clientWins (local remote : Obj) : Resolution :=
  {| resolved := local; source := "client" |}.

Definition serverWins (local remote : Obj) : Resolution :=
  {| resolved := remote; source := "server" |}.

(** One iteration of the loop of [merge] over [Object.entries(local)]. *)
Definition merge_entry (remote : Obj) (key : string) (value : JsVal)
    (resolved : Obj) : Obj :=
  if negb (has_in key remote) && negb (startsWith "_" key)
  then <[key := value]> resolved
  else resolved.

Definition merge (local remote : Obj) : Resolution :=
  {| resolved := map_fold (merge_entry remote) remote local;
     source := "merged" |}.

(** [prompt] is declared [async]: its caller receives a promise. *)
Definition prompt (local remote : Obj) : Promise Resolution :=
  Fulfilled (merge local remote).

(** What a call of [resolve] produces. *)
Inductive Resolved :=
| Plain (r : Resolution)
| Promised (p : Promise Resolution).

Inductive ResolveOutcome :=
| Returns (r : Resolved)
| Throws (e : JsError)
| CallsInherited (member : string).

(** [this.strategies], bound in the constructor. *)
Definition strategies : list (string * (Obj -> Obj -> Resolved)) :=
  [ ("client-wins", fun l r => Plain (clientWins l r));
    ("server-wins", fun l r => Plain (serverWins l r));
    ("merge", fun l r => Plain (merge l r));
    ("prompt", fun l r => Promised (prompt l r)) ].

Fixpoint lookup_strategy (tbl : list (string * (Obj -> Obj -> Resolved)))
    (strategy : string) : option (Obj -> Obj -> Resolved) :=
  match tbl with
  | [] => None
  | (k, f) :: tbl' =>
      if String.eqb k strategy then Some f else lookup_strategy tbl' strategy
  end.

(** [resolve(local, remote, strategy)].  A strategy name that is no own
    property of the table but names a member of [Object.prototype] is truthy
    and gets called; that call is outside this model. *)
Definition resolve (local remote : Obj) (strategy : string) : ResolveOutcome :=
  match lookup_strategy strategies strategy with
  | Some resolverFn => Returns (resolverFn local remote)
  | None =>
      if bool_decide (strategy ∈ ObjectPrototypeKeys)
      then CallsInherited strategy
      else Throws (Error ("Unknown conflict resolution strategy: " +:+ strategy))
  end.

(** [await x]: the value a caller obtains from the result of [resolve]. *)
Definition await (r : Resolved) : Resolution + JsError :=
  match r with
  | Plain v => inl v
  | Promised (Fulfilled v) => inl v
  | Promised (Rejected e) => inr e
  end.

(** The fields of [local] that [merge] copies into the result. *)
Definition client_addition (remote : Obj) (kv : string * JsVal) : Prop :=
  has_in kv.1 remote = false ∧ startsWith "_" kv.1 = false.

#[global] Instance client_addition_dec remote kv :
  Decision (client_addition remote kv).
Proof. unfold client_addition. apply _. Defined.

End ConflictResolver.

(** ** Regular expressions *)

Module RegExp.

(** Regular expressions over characters, as far as the patterns of the
    sources need them, matched by derivatives.  A pattern written [/^r$/] is
    tested against the whole string. *)
Inductive Regex :=
| Void
| Eps
| Class (p : ascii -> bool)
| Seq (r1 r2 : Regex)
| Alt (r1 r2 : Regex)
| Star (r : Regex).

(** [r+], [r?] and [r{n,}] *)
Definition Plus (r : Regex) : Regex := Seq r (Star r).

Definition Opt (r : Regex) : Regex := Alt Eps r.

Fixpoint AtLeast (n : nat) (r : Regex) : Regex :=
  match n with
  | O => Star r
  | S n' => Seq r (AtLeast n' r)
  end.

Fixpoint nullable (r : Regex) : bool :=
  match r with
  | Void => false
  | Eps => true
  | Class _ => false
  | Seq r1 r2 => nullable r1 && nullable r2
  | Alt r1 r2 => nullable r1 || nullable r2
  | Star _ => true
  end.

Fixpoint deriv (c : ascii) (r : Regex) : Regex :=
  match r with
  | Void => Void
  | Eps => Void
  | Class p => if p c then Eps else Void
  | Seq r1 r2 =>
      if nullable r1
      then Alt (Seq (deriv c r1) r2) (deriv c r2)
      else Seq (deriv c r1) r2
  | Alt r1 r2 => Alt (deriv c r1) (deriv c r2)
  | Star r1 => Seq (deriv c r1) (Star r1)
  end.

(** [/^r$/.test(s)] *)
Fixpoint test (r : Regex) (s : string) : bool :=
  match s with
  | EmptyString => nullable r
  | String c s' => test (deriv c r) s'
  end.

(** The language of a regular expression. *)
Inductive Lang : Regex -> string -> Prop :=
| LangEps : Lang Eps ""
| LangClass (p : ascii -> bool) (c : ascii) :
    p c = true -> Lang (Class p) (String c "")
| LangSeq (r1 r2 : Regex) (s1 s2 : string) :
    Lang r1 s1 -> Lang r2 s2 -> Lang (Seq r1 r2) (s1 +:+ s2)
| LangAltL (r1 r2 : Regex) (s : string) : Lang r1 s -> Lang (Alt r1 r2) s
| LangAltR (r1 r2 : Regex) (s : string) : Lang r2 s -> Lang (Alt r1 r2) s
| LangStarNil (r : Regex) : Lang (Star r) ""
| LangStarApp (r : Regex) (s1 s2 : string) :
    Lang r s1 -> Lang (Star r) s2 -> Lang (Star r) (s1 +:+ s2).

(** Every character of [s] satisfies [p]. *)
Fixpoint allChars (p : ascii -> bool) (s : string) : bool :=
  match s with
  | EmptyString => true
  | String c s' => p c && allChars p s'
  end.

(** The number of occurrences of [c] in [s]. *)
Fixpoint countChar (c : ascii) (s : string) : nat :=
  match s with
  | EmptyString => 0
  | String c' s' => (if Ascii.eqb c' c then 1 else 0) + countChar c s'
  end.

Definition code (c : ascii) : N := N_of_ascii c.

Definition in_range (lo hi : ascii) (c : ascii) : bool :=
  ((code lo <=? code c) && (code c <=? code hi))%N.

(** [\d] and [\s]; a string is a sequence of 8-bit code units. *)
Definition is_digit (c : ascii) : bool := in_range "0" "9" c.

Definition is_space (c : ascii) : bool :=
  bool_decide (code c ∈ [9; 10; 11; 12; 13; 32; 160]%N).

End RegExp.

(** ** The Hocuspocus server: document names *)

Module Hocuspocus.

Import RegExp.

(** [[a-zA-Z_]], [[a-zA-Z0-9_]] and [[a-zA-Z0-9_-]] *)
Definition is_letter_ (c : ascii) : bool :=
  in_range "a" "z" c || in_range "A" "Z" c || Ascii.eqb c "_".

Definition is_word (c : ascii) : bool :=
  in_range "a" "z" c || in_range "A" "Z" c || in_range "0" "9" c
  || Ascii.eqb c "_".

Definition is_idchar (c : ascii) : bool :=
  in_range "a" "z" c || in_range "A" "Z" c || in_range "0" "9" c
  || Ascii.eqb c "_" || Ascii.eqb c "-".

Definition is_colon (c : ascii) : bool := Ascii.eqb c ":".

(** [/^[a-zA-Z_][a-zA-Z0-9_]*:[a-zA-Z0-9_-]+$/] *)
Definition pattern : Regex :=
  Seq (Class is_letter_)
      (Seq (Star (Class is_word))
           (Seq (Class is_colon) (Plus (Class is_idchar)))).

(** [s.split(sep)] for a one-character separator. *)
Fixpoint split (sep : ascii) (s : string) : list string :=
  match s with
  | EmptyString => [ EmptyString ]
  | String c s' =>
      if Ascii.eqb c sep then EmptyString :: split sep s'
      else match split sep s' with
           | [] => [ String c EmptyString ]
           | w :: ws => String c w :: ws
           end
  end.

Definition allowedEntityTypes : list string :=
  [ "deal"; "contact"; "company"; "note"; "task"; "email" ].

(** [xs.join(', ')] *)
Fixpoint join (sep : string) (xs : list string) : string :=
  match xs with
  | [] => ""
  | [x] => x
  | x :: xs' => x +:+ sep +:+ join sep xs'
  end.

(** A destructured array element that may be missing, in a template
    literal. *)
Definition show (x : option string) : string := default "undefined" x.

(** [xs.includes(x)] for a destructured element [x]. *)
Definition includesType (xs : list string) (x : option string) : bool :=
  match x with
  | Some t => bool_decide (t ∈ xs)
  | None => false
  end.

Record DocumentName := mkDocumentName {
  entityType : option string;
  entityId : option string;
  documentName : string
}.

Definition validateDocumentName (documentName : string)
    : DocumentName + JsError :=
  if negb (test pattern documentName) then
    inr (Error ("Invalid document name format: " +:+ documentName
                +:+ ". Expected format: entity_type:entity_id"))
  else
    let parts := split ":" documentName in
    let entityType := parts !! 0%nat in
    let entityId := parts !! 1%nat in
    if negb (includesType allowedEntityTypes entityType) then
      inr (Error ("Invalid entity type: " +:+ show entityType
                  +:+ ". Allowed types: " +:+ join ", " allowedEntityTypes))
    else
      inl (mkDocumentName entityType entityId documentName).

(** The hooks [onAuthenticate], [onConnect] and [onLoadDocument] rethrow
    the error of the validation, which refuses the connection. *)
Definition accepted (documentName : string) : bool :=
  match validateDocumentName documentName with
  | inl _ => true
  | inr _ => false
  end.

(** The names of the form [entity_type:entity_id] with an allowed type and
    a non-empty identifier over [[a-zA-Z0-9_-]]. *)
Definition wellFormed (documentName : string) : Prop :=
  ∃ t id, documentName = t +:+ ":" +:+ id
          ∧ t ∈ allowedEntityTypes
          ∧ id ≠ "" ∧ allChars is_idchar id = true.

(** The two messages of [validateDocumentName]. *)
Definition formatMessage (documentName : string) : string :=
  "Invalid document name format: " +:+ documentName
  +:+ ". Expected format: entity_type:entity_id".

Definition typeMessage (t : string) : string :=
  "Invalid entity type: " +:+ t
  +:+ ". Allowed types: deal, contact, company, note, task, email".

End Hocuspocus.

(** ** The real-time manager of the browser client *)

Module Realtime.

(** Deal identifiers are the keys of the manager's [Map]s. *)
Abbreviation DealId := string.

Record Config := mkConfig {
  websocketUrl : string;
  namespace : string;
  reconnectDelay : Z;
  maxReconnectAttempts : Z;
  awarenessUpdateInterval : Z;
  performanceMonitoring : bool
}.

Record User := mkUser {
  userId : string;
  userName : string;
  userEmail : string;
  userColor : string;
  userAvatar : option string
}.

(** The shared types of a [Y.Doc]: [getMap('deal')], [getText('notes')],
    [getArray('activity')], [getMap('metadata')], and whether the manager
    attached its observers. *)
Record YDoc := mkYDoc {
  dealMap : Obj;
  notesText : string;
  activityArray : list Obj;
  metadataMap : Obj;
  observed : bool
}.

(** The local awareness state of a provider. *)
Record Awareness := mkAwareness {
  awUser : option User;
  awDeal : option DealId;
  awJoinedAt : option Z;
  awObserved : bool
}.

Record Provider := mkProvider {
  pUrl : string;
  pName : string;
  pDocument : nat;
  pToken : string;
  pDealId : DealId;
  pUserId : string;
  pAwareness : Awareness
}.

Record Persistence := mkPersistence {
  dbName : string;
  dbDocument : nat
}.

(** What arithmetic on the numbers of the configuration can give: the
    numbers of [Config] are integers that a double holds exactly, and their
    products with a power of two are such integers again, or, beyond the
    range of the doubles, [Infinity], [-Infinity] or [NaN]. *)
Inductive Number :=
| Finite (z : Z)
| PosInfinity
| NegInfinity
| NaN.

#[global] Instance Number_eq_dec : EqDecision Number.
Proof. solve_decision. Defined.

(** A timer set by [scheduleReconnection]: the deal its callback reconnects,
    the delay handed to [setTimeout], and whether it is still pending. *)
Record Timer := mkTimer {
  tDeal : DealId;
  tDelay : Number;
  tPending : bool
}.

Record Metrics := mkMetrics {
  syncCount : Z;
  syncTotalTime : Z;
  lastSyncTime : option Z;
  errorCount : Z;
  connectionCount : Z
}.

(** A property value together with the stamp [syncDealPosition] gives it. *)
Record Write := mkWrite {
  payload : Obj;
  updatedAt : Z;
  updatedBy : string
}.

#[global] Instance Write_eq_dec : EqDecision Write.
Proof. solve_decision. Defined.

Inductive Event :=
| performanceUpdate (type : string) (dealId : DealId) (duration : Z)
    (metrics : Metrics)
| dealJoined (dealId : DealId) (doc provider awareness : nat)
| connected (dealId : DealId)
| disconnected (dealId : DealId)
| reconnectionFailed (dealId : DealId)
| conflictResolution (dealId field : string) (localValue remoteValue : Write).

Record Manager := mkManager {
  config : Config;
  docs : list YDoc;
    (* the [Y.Doc] objects created so far; a reference is an index *)
  provs : list Provider;   (* the [HocuspocusProvider] objects created so far *)
  persists : list Persistence;
    (* the [IndexeddbPersistence] objects created so far *)
  timers : list Timer;   (* the timers obtained from [setTimeout] *)
  documents : gmap DealId nat;   (* dealId -> Y.Doc *)
  providers : gmap DealId nat;   (* dealId -> HocuspocusProvider *)
  persistence : gmap DealId nat;   (* dealId -> IndexeddbPersistence *)
  awareness : gmap DealId nat;   (* dealId -> awareness of that provider *)
  isOnline : bool;
  reconnectAttempts : nat;
  reconnectTimeouts : gmap DealId nat;   (* dealId -> timer *)
  currentUser : User;
  authToken : string;
  performanceMetrics : Metrics;
  emitted : list Event;   (* the calls of [emit], oldest first *)
  connectCalls : list DealId;
    (* the calls of [provider.connect()] made by timers *)
  time : nat -> Z;   (* the successive readings of the clock *)
  ticks : nat   (* how many readings were taken *)
}.

Definition set_timers (v : list Timer) (m : Manager) : Manager :=
  {| config := config m; docs := docs m; provs := provs m;
     persists := persists m; timers := v; documents := documents m;
     providers := providers m; persistence := persistence m;
     awareness := awareness m; isOnline := isOnline m;
     reconnectAttempts := reconnectAttempts m;
     reconnectTimeouts := reconnectTimeouts m; currentUser := currentUser m;
     authToken := authToken m; performanceMetrics := performanceMetrics m;
     emitted := emitted m; connectCalls := connectCalls m; time := time m;
     ticks := ticks m |}.

Definition set_reconnectAttempts (v : nat) (m : Manager) : Manager :=
  {| config := config m; docs := docs m; provs := provs m;
     persists := persists m; timers := timers m; documents := documents m;
     providers := providers m; persistence := persistence m;
     awareness := awareness m; isOnline := isOnline m;
     reconnectAttempts := v; reconnectTimeouts := reconnectTimeouts m;
     currentUser := currentUser m; authToken := authToken m;
     performanceMetrics := performanceMetrics m; emitted := emitted m;
     connectCalls := connectCalls m; time := time m; ticks := ticks m |}.

Definition set_reconnectTimeouts (v : gmap DealId nat) (m : Manager) : Manager :=
  {| config := config m; docs := docs m; provs := provs m;
     persists := persists m; timers := timers m; documents := documents m;
     providers := providers m; persistence := persistence m;
     awareness := awareness m; isOnline := isOnline m;
     reconnectAttempts := reconnectAttempts m; reconnectTimeouts := v;
     currentUser := currentUser m; authToken := authToken m;
     performanceMetrics := performanceMetrics m; emitted := emitted m;
     connectCalls := connectCalls m; time := time m; ticks := ticks m |}.

Definition set_performanceMetrics (v : Metrics) (m : Manager) : Manager :=
  {| config := config m; docs := docs m; provs := provs m;
     persists := persists m; timers := timers m; documents := documents m;
     providers := providers m; persistence := persistence m;
     awareness := awareness m; isOnline := isOnline m;
     reconnectAttempts := reconnectAttempts m;
     reconnectTimeouts := reconnectTimeouts m; currentUser := currentUser m;
     authToken := authToken m; performanceMetrics := v;
     emitted := emitted m; connectCalls := connectCalls m; time := time m;
     ticks := ticks m |}.

Definition set_emitted (v : list Event) (m : Manager) : Manager :=
  {| config := config m; docs := docs m; provs := provs m;
     persists := persists m; timers := timers m; documents := documents m;
     providers := providers m; persistence := persistence m;
     awareness := awareness m; isOnline := isOnline m;
     reconnectAttempts := reconnectAttempts m;
     reconnectTimeouts := reconnectTimeouts m; currentUser := currentUser m;
     authToken := authToken m; performanceMetrics := performanceMetrics m;
     emitted := v; connectCalls := connectCalls m; time := time m;
     ticks := ticks m |}.

Definition set_connectCalls (v : list DealId) (m : Manager) : Manager :=
  {| config := config m; docs := docs m; provs := provs m;
     persists := persists m; timers := timers m; documents := documents m;
     providers := providers m; persistence := persistence m;
     awareness := awareness m; isOnline := isOnline m;
     reconnectAttempts := reconnectAttempts m;
     reconnectTimeouts := reconnectTimeouts m; currentUser := currentUser m;
     authToken := authToken m; performanceMetrics := performanceMetrics m;
     emitted := emitted m; connectCalls := v; time := time m;
     ticks := ticks m |}.

Definition set_ticks (v : nat) (m : Manager) : Manager :=
  {| config := config m; docs := docs m; provs := provs m;
     persists := persists m; timers := timers m; documents := documents m;
     providers := providers m; persistence := persistence m;
     awareness := awareness m; isOnline := isOnline m;
     reconnectAttempts := reconnectAttempts m;
     reconnectTimeouts := reconnectTimeouts m; currentUser := currentUser m;
     authToken := authToken m; performanceMetrics := performanceMetrics m;
     emitted := emitted m; connectCalls := connectCalls m; time := time m;
     ticks := v |}.

(** [emit(event, data)]: the registered listeners are run; the model keeps
    the sequence of emitted events. *)
Definition emit (e : Event) (m : Manager) : Manager :=
  set_emitted (emitted m ++ [e]) m.

(** [Date.now()] and [performance.now()] *)
Definition now (m : Manager) : Z * Manager :=
  (time m (ticks m), set_ticks (S (ticks m)) m).

Record JoinOptions := mkJoinOptions {
  initialData : option Obj;
  initialNotes : option string
}.

(** The document name the client hands to its provider. *)
Definition docName (cfg : Config) (dealId : DealId) : string :=
  namespace cfg +:+ ":deal:" +:+ dealId.

(** [joinDeal(dealId, options)].  The constructors of the libraries are taken
    not to throw, so the promise of this [async] method is fulfilled. *)
Definition joinDeal (dealId : DealId) (options : JoinOptions) (m : Manager)
    : Promise nat * Manager :=
  let '(startTime, m) := now m in
  match documents m !! dealId with
  | Some doc => (Fulfilled doc, m)
  | None =>
      let name := docName (config m) dealId in
      (* doc.transact(..., 'initial-data') *)
      let '(dealMap0, metadata0, m) :=
        match initialData options with
        | Some data =>
            let '(createdAt, m) := now m in
            (map_fold (fun k v acc => <[k := v]> acc) (∅ : Obj) data,
             <["createdBy" := VStr (userId (currentUser m))]>
               (<["createdAt" := VNum createdAt]> (∅ : Obj)),
             m)
        | None => (∅, ∅, m)
        end in
      (* doc.transact(..., 'initial-notes') *)
      let notes0 :=
        match initialNotes options with
        | Some notes => if String.eqb notes "" then "" else notes
        | None => ""
        end in
      let '(joinedAt, m) := now m in
      let doc := length (docs m) in
      let provider := length (provs m) in
      let persist := length (persists m) in
      let aw := {| awUser := Some (currentUser m); awDeal := Some dealId;
                   awJoinedAt := Some joinedAt; awObserved := true |} in
      let m :=
        {| config := config m;
           docs := docs m ++ [ mkYDoc dealMap0 notes0 [] metadata0 true ];
           provs := provs m ++
             [ mkProvider (websocketUrl (config m)) name doc (authToken m)
                 dealId (userId (currentUser m)) aw ];
           persists := persists m ++ [ mkPersistence name doc ];
           timers := timers m;
           documents := <[dealId := doc]> (documents m);
           providers := <[dealId := provider]> (providers m);
           persistence := <[dealId := persist]> (persistence m);
           awareness := <[dealId := provider]> (awareness m);
           isOnline := isOnline m;
           reconnectAttempts := reconnectAttempts m;
           reconnectTimeouts := reconnectTimeouts m;
           currentUser := currentUser m;
           authToken := authToken m;
           performanceMetrics := performanceMetrics m;
           emitted := emitted m;
           connectCalls := connectCalls m;
           time := time m;
           ticks := ticks m |} in
      let m :=
        if performanceMonitoring (config m) then
          let '(endTime, m) := now m in
          let joinTime := endTime - startTime in
          let pm := performanceMetrics m in
          let pm' := {| syncCount := syncCount pm;
                        syncTotalTime := syncTotalTime pm + joinTime;
                        lastSyncTime := lastSyncTime pm;
                        errorCount := errorCount pm;
                        connectionCount := connectionCount pm + 1 |} in
          emit (performanceUpdate "join" dealId joinTime pm')
               (set_performanceMetrics pm' m)
        else m in
      (Fulfilled doc, emit (dealJoined dealId doc provider provider) m)
  end.

(** [cancelReconnection(dealId)] *)
Definition cancelReconnection (dealId : DealId) (m : Manager) : Manager :=
  match reconnectTimeouts m !! dealId with
  | Some t =>
      (* clearTimeout(timeout) *)
      let m := set_timers
                 (alter (fun tm => mkTimer (tDeal tm) (tDelay tm) false) t
                        (timers m)) m in
      set_reconnectTimeouts (delete dealId (reconnectTimeouts m)) m
  | None => m
  end.

(** The doubles end below [2 ** 1024]. *)
Definition overflow : Z := 2 ^ 1024.

(** [Math.pow(2, n)] for a count [n]: the largest power of two among the
    doubles is [2 ** 1023]. *)
Definition pow2 (n : nat) : Number :=
  if (n <? 1024)%nat then Finite (2 ^ Z.of_nat n) else PosInfinity.

(** [x * p] for an integer [x] and a power of two or an infinity [p].  The
    product of a double with a power of two is exact unless it leaves the
    range, where it is an infinity; zero times an infinity is [NaN]. *)
Definition times (x : Z) (p : Number) : Number :=
  match p with
  | Finite q =>
      if Z.abs (x * q) <? overflow then Finite (x * q)
      else if 0 <? x then PosInfinity else NegInfinity
  | PosInfinity =>
      if x =? 0 then NaN else if 0 <? x then PosInfinity else NegInfinity
  | NegInfinity =>
      if x =? 0 then NaN else if 0 <? x then NegInfinity else PosInfinity
  | NaN => NaN
  end.

(** [Math.min(a, b)] for an integer [b] *)
Definition mathMin (a : Number) (b : Z) : Number :=
  match a with
  | Finite z => Finite (Z.min z b)
  | PosInfinity => Finite b
  | NegInfinity => NegInfinity
  | NaN => NaN
  end.

(** The delay computed by [scheduleReconnection]:
    [Math.min(reconnectDelay * Math.pow(2, reconnectAttempts), 30000)]. *)
Definition reconnectionDelay (cfg : Config) (attempts : nat) : Number :=
  mathMin (times (reconnectDelay cfg) (pow2 attempts)) 30000.

(** [scheduleReconnection(dealId)] *)
Definition scheduleReconnection (dealId : DealId) (m : Manager) : Manager :=
  if Z.of_nat (reconnectAttempts m) >=? maxReconnectAttempts (config m) then
    emit (reconnectionFailed dealId) m
  else
    let delay := reconnectionDelay (config m) (reconnectAttempts m) in
    let timeout := length (timers m) in
    let m := set_timers (timers m ++ [ mkTimer dealId delay true ]) m in
    set_reconnectTimeouts (<[dealId := timeout]> (reconnectTimeouts m)) m.

(** The callback given to [setTimeout] by [scheduleReconnection], run when
    timer [t] expires. *)
Definition timerFires (t : nat) (m : Manager) : Manager :=
  match timers m !! t with
  | Some tm =>
      if tPending tm then
        let m := set_timers
                   (<[t := mkTimer (tDeal tm) (tDelay tm) false]> (timers m))
                   m in
        if isOnline m && bool_decide (is_Some (providers m !! tDeal tm)) then
          let m := set_reconnectAttempts (S (reconnectAttempts m)) m in
          (* provider.connect() *)
          set_connectCalls (connectCalls m ++ [ tDeal tm ]) m
        else m
      else m
  | None => m
  end.

(** [handleProviderConnect(dealId)] *)
Definition handleProviderConnect (dealId : DealId) (m : Manager) : Manager :=
  let m := set_reconnectAttempts 0%nat m in
  let m := cancelReconnection dealId m in
  emit (connected dealId) m.

(** [handleProviderDisconnect(dealId)] *)
Definition handleProviderDisconnect (dealId : DealId) (m : Manager)
    : Manager :=
  let m := emit (disconnected dealId) m in
  if isOnline m then scheduleReconnection dealId m else m.

(** [resolveConflict(dealId, field, localValue, remoteValue, strategy)].
    With ['custom'] the method returns what [emit] returns, [undefined]. *)
Definition resolveConflict (dealId field : string) (localValue remoteValue : Write)
    (strategy : string) (m : Manager) : option Write * Manager :=
  if String.eqb strategy "last-write-wins" then
    (Some (if updatedAt remoteValue >? updatedAt localValue
           then remoteValue else localValue), m)
  else if String.eqb strategy "merge-objects" then
    (Some (mkWrite (payload remoteValue ∪ payload localValue)
                   (updatedAt remoteValue) (updatedBy remoteValue)), m)
  else if String.eqb strategy "custom" then
    (None, emit (conflictResolution dealId field localValue remoteValue) m)
  else
    (Some remoteValue, m).

(** The configuration the constructor builds from no options, and the
    state it leaves. *)
Definition defaultConfig : Config :=
  {| websocketUrl := "ws://localhost:3001"; namespace := "crm";
     reconnectDelay := 1000; maxReconnectAttempts := 10;
     awarenessUpdateInterval := 5000; performanceMonitoring := true |}.

Definition newManager (cfg : Config) (user : User) (token : string)
    (online : bool) (clock : nat -> Z) : Manager :=
  {| config := cfg; docs := []; provs := []; persists := []; timers := [];
     documents := ∅; providers := ∅; persistence := ∅; awareness := ∅;
     isOnline := online; reconnectAttempts := 0;
     reconnectTimeouts := ∅; currentUser := user; authToken := token;
     performanceMetrics := mkMetrics 0 0 None 0 0;
     emitted := []; connectCalls := []; time := clock; ticks := 0 |}.

(** A manager as the constructor leaves it for an anonymous user, for the
    examples. *)
Definition anonymous : User :=
  mkUser "user_k3x9a0b1c" "Anonymous" "" "#FF6B6B" None.

Definition freshManager : Manager :=
  newManager defaultConfig anonymous "" true
             (fun n => 1700000000000 + Z.of_nat n).

(** The value returned under the default strategy. *)
Definition lww (localValue remoteValue : Write) (m : Manager) : option Write :=
  (resolveConflict "42" "stage" localValue remoteValue "last-write-wins" m).1.

End Realtime.

(** ** The API manager: requests, deals and contacts, the offline queue *)

Module API.

Import RegExp.

Record RetryConfig := mkRetryConfig {
  attempts : nat;
  baseDelay : Z;
  maxDelay : Z;
  backoffFactor : Z;
  jitter : bool
}.

(** An entry of [offlineQueue].  [queueOfflineOperation] fills [operation]
    and [entityType], [handleOfflineRequest] fills [method] and [endpoint];
    the other pair is [undefined].  [data] is [None] for [null]. *)
Record QueueItem := mkQueueItem {
  qid : string;
  operation : option string;
  entityType : option string;
  method : option string;
  endpoint : option string;
  data : option Obj;
  timestamp : Z;
  retries : nat
}.

#[global] Instance QueueItem_eq_dec : EqDecision QueueItem.
Proof. solve_decision. Defined.

(** The key and the entries of the response cache.  The key is the string
    [`${method}:${endpoint}:${JSON.stringify(data || {})}`], kept as the
    text before the data and the properties that [JSON.stringify] writes. *)
Abbreviation CacheKey := (string * Obj)%type.
Abbreviation CacheEntry := (Obj * Z)%type.

(** What [fetch] was called with. *)
Record Request := mkRequest {
  reqMethod : string;
  reqEndpoint : string;
  reqBody : option Obj
}.

(** How a call of [fetch] ends: the promise rejects (network failure, abort
    by the 30 s timeout signal), or a response arrives whose parsed body is
    an object.  The responses that [parseResponse] turns into [null] or into
    a text are not part of this development. *)
Inductive FetchOutcome :=
| Rejects (e : JsError)
| Responds (status : Z) (statusText : string) (body : Obj).

(** The detail of an emitted event: a list of named fields. *)
Inductive EvVal :=
| EJs (v : JsVal)
| EObj (o : Obj)
| EData (o : option Obj).

Abbreviation Event := (string * list (string * EvVal))%type.

Record World := mkWorld {
  orgId : string;
  projectId : string;
  isConnected : bool;
  retryConfig : RetryConfig;
  offlineQueue : list QueueItem;
  storedQueue : option (list QueueItem);
    (* localStorage: nocodb_offline_queue *)
  offlineData : gmap string Obj;
    (* localStorage: the other nocodb_offline_ keys *)
  cacheEnabled : bool;
  cacheTtl : Z;
  cacheStorage : list (CacheKey * CacheEntry);
  yjsMaps : option (gmap string (gmap string Obj));
    (* None: Yjs is not loaded *)
  emitted : list Event;   (* the calls of [emit], oldest first *)
  consoleErrors : list string;   (* the calls of [logError] *)
  requests : list Request;   (* the calls of [fetch] *)
  replays : list (QueueItem * bool);
    (* history: the calls of [processOfflineItem] made by the drain, and
       whether each returned *)
  network : nat -> FetchOutcome;   (* how the n-th call of [fetch] ends *)
  time : nat -> Z;   (* the successive readings of the clock *)
  ticks : nat;
  random : nat -> nat;   (* the successive draws of [Math.random] *)
  draws : nat
}.

Definition set_offlineQueue (v : list QueueItem) (w : World) : World :=
  {| orgId := orgId w; projectId := projectId w;
     isConnected := isConnected w; retryConfig := retryConfig w;
     offlineQueue := v; storedQueue := storedQueue w;
     offlineData := offlineData w; cacheEnabled := cacheEnabled w;
     cacheTtl := cacheTtl w; cacheStorage := cacheStorage w;
     yjsMaps := yjsMaps w; emitted := emitted w;
     consoleErrors := consoleErrors w; requests := requests w;
     replays := replays w; network := network w; time := time w;
     ticks := ticks w; random := random w; draws := draws w |}.

Definition set_storedQueue (v : option (list QueueItem)) (w : World) : World :=
  {| orgId := orgId w; projectId := projectId w;
     isConnected := isConnected w; retryConfig := retryConfig w;
     offlineQueue := offlineQueue w; storedQueue := v;
     offlineData := offlineData w; cacheEnabled := cacheEnabled w;
     cacheTtl := cacheTtl w; cacheStorage := cacheStorage w;
     yjsMaps := yjsMaps w; emitted := emitted w;
     consoleErrors := consoleErrors w; requests := requests w;
     replays := replays w; network := network w; time := time w;
     ticks := ticks w; random := random w; draws := draws w |}.

Definition set_cacheStorage (v : list (CacheKey * CacheEntry)) (w : World) : World :=
  {| orgId := orgId w; projectId := projectId w;
     isConnected := isConnected w; retryConfig := retryConfig w;
     offlineQueue := offlineQueue w; storedQueue := storedQueue w;
     offlineData := offlineData w; cacheEnabled := cacheEnabled w;
     cacheTtl := cacheTtl w; cacheStorage := v; yjsMaps := yjsMaps w;
     emitted := emitted w; consoleErrors := consoleErrors w;
     requests := requests w; replays := replays w; network := network w;
     time := time w; ticks := ticks w; random := random w; draws := draws w |}.

Definition set_yjsMaps (v : option (gmap string (gmap string Obj))) (w : World) : World :=
  {| orgId := orgId w; projectId := projectId w;
     isConnected := isConnected w; retryConfig := retryConfig w;
     offlineQueue := offlineQueue w; storedQueue := storedQueue w;
     offlineData := offlineData w; cacheEnabled := cacheEnabled w;
     cacheTtl := cacheTtl w; cacheStorage := cacheStorage w; yjsMaps := v;
     emitted := emitted w; consoleErrors := consoleErrors w;
     requests := requests w; replays := replays w; network := network w;
     time := time w; ticks := ticks w; random := random w; draws := draws w |}.

Definition set_emitted (v : list Event) (w : World) : World :=
  {| orgId := orgId w; projectId := projectId w;
     isConnected := isConnected w; retryConfig := retryConfig w;
     offlineQueue := offlineQueue w; storedQueue := storedQueue w;
     offlineData := offlineData w; cacheEnabled := cacheEnabled w;
     cacheTtl := cacheTtl w; cacheStorage := cacheStorage w;
     yjsMaps := yjsMaps w; emitted := v; consoleErrors := consoleErrors w;
     requests := requests w; replays := replays w; network := network w;
     time := time w; ticks := ticks w; random := random w; draws := draws w |}.

Definition set_consoleErrors (v : list string) (w : World) : World :=
  {| orgId := orgId w; projectId := projectId w;
     isConnected := isConnected w; retryConfig := retryConfig w;
     offlineQueue := offlineQueue w; storedQueue := storedQueue w;
     offlineData := offlineData w; cacheEnabled := cacheEnabled w;
     cacheTtl := cacheTtl w; cacheStorage := cacheStorage w;
     yjsMaps := yjsMaps w; emitted := emitted w; consoleErrors := v;
     requests := requests w; replays := replays w; network := network w;
     time := time w; ticks := ticks w; random := random w; draws := draws w |}.

Definition set_requests (v : list Request) (w : World) : World :=
  {| orgId := orgId w; projectId := projectId w;
     isConnected := isConnected w; retryConfig := retryConfig w;
     offlineQueue := offlineQueue w; storedQueue := storedQueue w;
     offlineData := offlineData w; cacheEnabled := cacheEnabled w;
     cacheTtl := cacheTtl w; cacheStorage := cacheStorage w;
     yjsMaps := yjsMaps w; emitted := emitted w;
     consoleErrors := consoleErrors w; requests := v; replays := replays w;
     network := network w; time := time w; ticks := ticks w;
     random := random w; draws := draws w |}.

Definition set_replays (v : list (QueueItem * bool)) (w : World) : World :=
  {| orgId := orgId w; projectId := projectId w;
     isConnected := isConnected w; retryConfig := retryConfig w;
     offlineQueue := offlineQueue w; storedQueue := storedQueue w;
     offlineData := offlineData w; cacheEnabled := cacheEnabled w;
     cacheTtl := cacheTtl w; cacheStorage := cacheStorage w;
     yjsMaps := yjsMaps w; emitted := emitted w;
     consoleErrors := consoleErrors w; requests := requests w; replays := v;
     network := network w; time := time w; ticks := ticks w;
     random := random w; draws := draws w |}.

Definition set_ticks (v : nat) (w : World) : World :=
  {| orgId := orgId w; projectId := projectId w;
     isConnected := isConnected w; retryConfig := retryConfig w;
     offlineQueue := offlineQueue w; storedQueue := storedQueue w;
     offlineData := offlineData w; cacheEnabled := cacheEnabled w;
     cacheTtl := cacheTtl w; cacheStorage := cacheStorage w;
     yjsMaps := yjsMaps w; emitted := emitted w;
     consoleErrors := consoleErrors w; requests := requests w;
     replays := replays w; network := network w; time := time w; ticks := v;
     random := random w; draws := draws w |}.

Definition set_draws (v : nat) (w : World) : World :=
  {| orgId := orgId w; projectId := projectId w;
     isConnected := isConnected w; retryConfig := retryConfig w;
     offlineQueue := offlineQueue w; storedQueue := storedQueue w;
     offlineData := offlineData w; cacheEnabled := cacheEnabled w;
     cacheTtl := cacheTtl w; cacheStorage := cacheStorage w;
     yjsMaps := yjsMaps w; emitted := emitted w;
     consoleErrors := consoleErrors w; requests := requests w;
     replays := replays w; network := network w; time := time w;
     ticks := ticks w; random := random w; draws := v |}.

(** *** Computations on the world that return, throw, or leave the model *)

Inductive Res (A : Type) :=
| Ok (a : A)
| Throw (e : JsError)
| Stuck.
Arguments Ok {A} a.
Arguments Throw {A} e.
Arguments Stuck {A}.

Definition M (A : Type) : Type := World -> Res A * World.

Definition ret {A} (a : A) : M A := fun w => (Ok a, w).

Definition throw {A} (e : JsError) : M A := fun w => (Throw e, w).

Definition stuck {A} : M A := fun w => (Stuck, w).

Definition bind {A B} (m : M A) (k : A -> M B) : M B :=
  fun w =>
    match m w with
    | (Ok a, w') => k a w'
    | (Throw e, w') => (Throw e, w')
    | (Stuck, w') => (Stuck, w')
    end.

(** [try { m } catch (error) { h error }] *)
Definition tryCatch {A} (m : M A) (h : JsError -> M A) : M A :=
  fun w =>
    match m w with
    | (Throw e, w') => h e w'
    | r => r
    end.

Definition gets {A} (f : World -> A) : M A := fun w => (Ok (f w), w).

Definition modify (f : World -> World) : M unit := fun w => (Ok tt, f w).

Definition when (b : bool) (m : M unit) : M unit := if b then m else ret tt.

Notation "'let!' x ':=' m 'in' k" := (bind m (fun x => k))
  (at level 10, x pattern, m at level 100, k at level 200).
Notation "m ;; k" := (bind m (fun _ => k))
  (at level 100, k at level 200, right associativity).

(** *** Primitives *)

Definition emit (eventName : string) (detail : list (string * EvVal))
    : M unit :=
  modify (fun w => set_emitted (emitted w ++ [ (eventName, detail) ]) w).

Definition logError (what : string) (error : JsError) : M unit :=
  modify (fun w =>
    set_consoleErrors (consoleErrors w ++ [ what +:+ " " +:+ message error ]) w).

(** [Date.now()] *)
Definition dateNow : M Z :=
  fun w => (Ok (time w (ticks w)), set_ticks (S (ticks w)) w).

(** [Math.random()] *)
Definition mathRandom : M nat :=
  fun w => (Ok (random w (draws w)), set_draws (S (draws w)) w).

(** [`${v}`] *)
Definition toString (v : JsVal) : string :=
  match v with
  | VUndefined => "undefined"
  | VNull => "null"
  | VBool true => "true"
  | VBool false => "false"
  | VNum n => pretty n
  | VStr s => s
  end.

(** [{ ...o }] for an [o] that may be [undefined] *)
Definition spread (o : option Obj) : Obj := default ∅ o.

(** [generateId(prefix)]; the base-36 fragment is shown as the draw. *)
Definition generateId (prefix : string) : M string :=
  let! t := dateNow in
  let! r := mathRandom in
  ret (prefix +:+ "_" +:+ pretty t +:+ "_" +:+ pretty r).

(** [fetch(url, options)]: the request leaves, the network decides. *)
Definition fetch (method endpoint : string) (data : option Obj)
    : M (Z * string * Obj) :=
  fun w =>
    let body :=
      if bool_decide (method ∈ [ "POST"; "PUT"; "PATCH" ]) then data else None in
    let w' := set_requests (requests w ++ [ mkRequest method endpoint body ]) w in
    match network w (length (requests w)) with
    | Rejects e => (Throw e, w')
    | Responds st tx d => (Ok (st, tx, d), w')
    end.

(** [getOfflineData(key)] and [setOfflineData('queue', queue)] *)
Definition getOfflineData (key : string) : M (option Obj) :=
  gets (fun w => offlineData w !! key).

Definition setOfflineQueue : M unit :=
  modify (fun w => set_storedQueue (Some (offlineQueue w)) w).

(** [isNetworkError(error)] *)
Definition isNetworkError (error : JsError) : bool :=
  String.eqb (name error) "TypeError"
  || String.eqb (name error) "NetworkError"
  || includes "fetch" (message error)
  || includes "network" (message error).

(** [shouldRetry(error)]; [instanceof HTTPError] is read off the name. *)
Definition shouldRetry (error : JsError) : bool :=
  if String.eqb (name error) "HTTPError" then
    match status error with
    | Some st => (st >=? 500) || (st =? 429) || (st =? 408) || (st =? 409)
    | None => false
    end
  else isNetworkError error.

(** [calculateRetryDelay(retryCount)]; the wait itself only lets time pass. *)
Definition calculateRetryDelay (retryCount : nat) : M Z :=
  let! cfg := gets retryConfig in
  let delay := baseDelay cfg * backoffFactor cfg ^ Z.of_nat retryCount in
  let! delay :=
    if jitter cfg
    then let! r := mathRandom in ret (delay + Z.of_nat r `mod` 1000)
    else ret delay in
  ret (Z.min delay (maxDelay cfg)).

(** [queueOfflineOperation(operation, entityType, data)] *)
Definition queueOfflineOperation (operation entityType : string)
    (data : option Obj) : M unit :=
  let! id := generateId "queue" in
  let! ts := dateNow in
  let queueItem :=
    {| qid := id; operation := Some operation; entityType := Some entityType;
       method := None; endpoint := None; data := data; timestamp := ts;
       retries := 0 |} in
  modify (fun w => set_offlineQueue (offlineQueue w ++ [ queueItem ]) w);;
  setOfflineQueue.

(** [handleOfflineRequest(method, endpoint, data)] *)
Definition handleOfflineRequest (method endpoint : string)
    (data : option Obj) : M unit :=
  let! id := generateId "offline_request" in
  let! ts := dateNow in
  let queueItem :=
    {| qid := id; operation := None; entityType := None;
       method := Some method; endpoint := Some endpoint; data := data;
       timestamp := ts; retries := 0 |} in
  modify (fun w => set_offlineQueue (offlineQueue w ++ [ queueItem ]) w);;
  let! queueSize := gets (fun w => length (offlineQueue w)) in
  emit "requestQueued"
    [ ("method", EJs (VStr method)); ("endpoint", EJs (VStr endpoint));
      ("queueSize", EJs (VNum (Z.of_nat queueSize))) ].

(** *** The response cache *)

Fixpoint cache_get (key : CacheKey) (st : list (CacheKey * CacheEntry))
    : option CacheEntry :=
  match st with
  | [] => None
  | (k, e) :: st' => if decide (k = key) then Some e else cache_get key st'
  end.

Fixpoint cache_set (key : CacheKey) (e : CacheEntry)
    (st : list (CacheKey * CacheEntry)) : list (CacheKey * CacheEntry) :=
  match st with
  | [] => [ (key, e) ]
  | (k, e') :: st' =>
      if decide (k = key) then (k, e) :: st' else (k, e') :: cache_set key e st'
  end.

Definition cache_delete (key : CacheKey) (st : list (CacheKey * CacheEntry))
    : list (CacheKey * CacheEntry) :=
  filter (fun ke => ke.1 ≠ key) st.

(** [getCachedResponse(cacheKey)] *)
Definition getCachedResponse (cacheKey : CacheKey) : M (option Obj) :=
  let! enabled := gets cacheEnabled in
  if negb enabled then ret None else
  let! storage := gets cacheStorage in
  match cache_get cacheKey storage with
  | None => ret None
  | Some (cachedData, cachedAt) =>
      let! now := dateNow in
      let! ttl := gets cacheTtl in
      if now - cachedAt >? ttl then
        modify (fun w =>
          set_cacheStorage (cache_delete cacheKey (cacheStorage w)) w);;
        ret None
      else ret (Some cachedData)
  end.

(** [cleanupCache()] *)
Definition cleanupCache : M unit :=
  let! now := dateNow in
  modify (fun w =>
    set_cacheStorage
      (filter (fun ke => ¬ (now - ke.2.2 > cacheTtl w)) (cacheStorage w)) w).

(** [setCachedResponse(cacheKey, data)] *)
Definition setCachedResponse (cacheKey : CacheKey) (data : Obj) : M unit :=
  let! enabled := gets cacheEnabled in
  if negb enabled then ret tt else
  let! now := dateNow in
  modify (fun w =>
    set_cacheStorage (cache_set cacheKey (data, now) (cacheStorage w)) w);;
  cleanupCache.

(** *** Requests *)

(** The cache key of a request: [data || {}] makes [null] and [{}] one, and
    [JSON.stringify] leaves out the properties that are [undefined]. *)
Definition cacheKeyOf (method endpoint : string) (data : option Obj)
    : CacheKey :=
  (method +:+ ":" +:+ endpoint +:+ ":",
   filter (fun kv : string * JsVal => kv.2 ≠ VUndefined) (spread data)).

(** The object [makeRequest] returns: [{ ok: true, data, status, fromCache }]
    or [{ ok: false, error, status }]. *)
Inductive Response :=
| RespOk (data : Obj) (status : option Z) (fromCache : bool)
| RespFail (error : string) (status : Z).

(** [response.ok] *)
Definition statusOk (st : Z) : bool := (200 <=? st) && (st <=? 299).

(** [makeRequest(method, endpoint, data, retryCount, useCache)], with no
    interceptor registered.  [budget] bounds the retries still possible; it is
    [attempts - retryCount] in [makeRequest]. *)
Fixpoint makeRequestFrom (budget : nat) (method endpoint : string)
    (data : option Obj) (retryCount : nat) (useCache : bool) : M Response :=
  let cacheKey := cacheKeyOf method endpoint data in
  let isGet := String.eqb method "GET" in
  let! cached :=
    (let! enabled := gets cacheEnabled in
     if isGet && useCache && enabled then getCachedResponse cacheKey
     else ret None) in
  match cached with
  | Some cachedData => ret (RespOk cachedData None true)
  | None =>
      tryCatch
        (let! (st, statusText, responseData) := fetch method endpoint data in
         if negb (statusOk st) then
           throw (HTTPError ("HTTP " +:+ pretty st +:+ ": " +:+ statusText) st)
         else
           let! enabled := gets cacheEnabled in
           when (isGet && enabled) (setCachedResponse cacheKey responseData);;
           ret (RespOk responseData (Some st) false))
        (fun error =>
           logError ("API request failed (" +:+ method +:+ " " +:+ endpoint
                     +:+ "):") error;;
           when (isNetworkError error)
                (handleOfflineRequest method endpoint data);;
           let! cfg := gets retryConfig in
           if (retryCount <? attempts cfg)%nat && shouldRetry error then
             let! delay := calculateRetryDelay retryCount in
             match budget with
             | S budget' =>
                 makeRequestFrom budget' method endpoint data (S retryCount)
                                 useCache
             | O => stuck
             end
           else
             ret (RespFail (message error) (default 0 (status error))))
  end.

Definition makeRequest (method endpoint : string) (data : option Obj)
    (retryCount : nat) (useCache : bool) : M Response :=
  fun w =>
    makeRequestFrom (attempts (retryConfig w) - retryCount) method endpoint
                    data retryCount useCache w.

(** [buildDataEndpoint(tableType)] *)
Definition buildDataEndpoint (tableType : string) : M string :=
  if bool_decide (tableType ∈ [ "deals"; "contacts"; "companies" ]) then
    gets (fun w => "/api/v1/db/data/" +:+ orgId w +:+ "/" +:+ projectId w
                   +:+ "/" +:+ tableType)
  else throw (Error ("Unknown table type: " +:+ tableType)).

(** *** Transformations and validation *)

(** Reading a property of [dealData]; of [undefined] it throws. *)
Definition readUndefined {A} (key : string) : M A :=
  throw (TypeError ("Cannot read properties of undefined (reading '" +:+ key
                    +:+ "')")).

(** The entries [(local name, API name)] copied by the [transform...ToAPI]
    methods, in source order. *)
Definition dealFieldsToAPI : list (string * string) :=
  [ ("title", "Title"); ("amount", "Amount"); ("status", "Status");
    ("company", "Company"); ("contact", "Contact"); ("notes", "Notes");
    ("priority", "Priority"); ("stage", "Stage");
    ("probability", "Probability");
    ("expected_close_date", "ExpectedCloseDate") ].

Definition contactFieldsToAPI : list (string * string) :=
  [ ("name", "Name"); ("email", "Email"); ("phone", "Phone");
    ("company", "Company"); ("position", "Position");
    ("department", "Department"); ("linkedin", "LinkedIn");
    ("twitter", "Twitter"); ("notes", "Notes") ].

(** The entries read back by the [transform...FromAPI] methods. *)
Definition dealFieldsFromAPI : list (string * string) :=
  ("id", "Id") :: dealFieldsToAPI
  ++ [ ("created_at", "CreatedAt"); ("updated_at", "UpdatedAt") ].

Definition contactFieldsFromAPI : list (string * string) :=
  ("id", "Id") :: contactFieldsToAPI
  ++ [ ("created_at", "CreatedAt"); ("updated_at", "UpdatedAt") ].

(** [if (d.f !== undefined) apiData[F] = d.f], for each entry; then the
    update timestamp, [new Date().toISOString()], kept as the instant read. *)
Definition transformToAPI (fields : list (string * string))
    (entityData : option Obj) : M Obj :=
  match entityData with
  | None => readUndefined (default "" (fst <$> head fields))
  | Some d =>
      let apiData :=
        foldl (fun acc '(f, F) =>
                 match get d f with
                 | VUndefined => acc
                 | v => <[F := v]> acc
                 end) (∅ : Obj) fields in
      let! t := dateNow in
      ret (<["UpdatedAt" := VNum t]> apiData)
  end.

Definition transformFromAPI (fields : list (string * string))
    (apiData : Obj) : Obj :=
  foldl (fun acc '(f, F) => <[f := get apiData F]> acc) (∅ : Obj) fields.

Definition transformDealToAPI := transformToAPI dealFieldsToAPI.
Definition transformContactToAPI := transformToAPI contactFieldsToAPI.
Definition transformDealFromAPI := transformFromAPI dealFieldsFromAPI.
Definition transformContactFromAPI := transformFromAPI contactFieldsFromAPI.

(** [s.trim() === ''] *)
Fixpoint isBlank (s : string) : bool :=
  match s with
  | EmptyString => true
  | String c s' => is_space c && isBlank s'
  end.

(** [!v || v.trim() === ''], which throws when [v] is truthy and no
    string. *)
Definition missingText (owner key : string) (v : JsVal) : M bool :=
  if negb (truthy v) then ret true else
  match v with
  | VStr s => ret (isBlank s)
  | _ => throw (TypeError (owner +:+ "." +:+ key +:+ ".trim is not a function"))
  end.

(** [v !== undefined && (typeof v !== 'number' || v < lo)] and the
    variant with an upper bound. *)
Definition badNumber (v : JsVal) (lo : Z) (hi : option Z) : bool :=
  match v with
  | VUndefined => false
  | VNum n => (n <? lo) || match hi with Some h => h <? n | None => false end
  | _ => true
  end.

Definition dealStatuses : list string :=
  [ "new"; "qualifying"; "proposal"; "negotiation"; "won"; "lost" ].

(** [validateDealData(dealData)] *)
Definition validateDealData (dealData : option Obj) : M unit :=
  match dealData with
  | None => readUndefined "title"
  | Some d =>
      let! noTitle := missingText "dealData" "title" (get d "title") in
      if noTitle then throw (Error "Deal title is required") else
      if badNumber (get d "amount") 0 None then
        throw (Error "Deal amount must be a positive number") else
      if truthy (get d "status")
         && negb (bool_decide (get d "status" ∈ (VStr <$> dealStatuses))) then
        throw (Error "Invalid deal status") else
      if badNumber (get d "probability") 0 (Some 100) then
        throw (Error "Deal probability must be between 0 and 100")
      else ret tt
  end.

(** [/^[^\s@]+@[^\s@]+\.[^\s@]+$/] *)
Definition emailPart (c : ascii) : bool :=
  negb (is_space c) && negb (Ascii.eqb c "@").

Definition emailRegex : Regex :=
  Seq (Plus (Class emailPart))
      (Seq (Class (Ascii.eqb "@"))
           (Seq (Plus (Class emailPart))
                (Seq (Class (Ascii.eqb ".")) (Plus (Class emailPart))))).

(** [/^[\+]?[1-9][\d\s\-\(\)]{7,}$/] *)
Definition phoneTail (c : ascii) : bool :=
  is_digit c || is_space c || Ascii.eqb c "-" || Ascii.eqb c "("
  || Ascii.eqb c ")".

Definition phoneRegex : Regex :=
  Seq (Opt (Class (Ascii.eqb "+")))
      (Seq (Class (in_range "1" "9")) (AtLeast 7 (Class phoneTail))).

(** [s.replace(/\s/g, '')] *)
Fixpoint stripSpaces (s : string) : string :=
  match s with
  | EmptyString => EmptyString
  | String c s' => if is_space c then stripSpaces s' else String c (stripSpaces s')
  end.

Definition isValidEmail (email : JsVal) : bool := test emailRegex (toString email).

Definition isValidPhone (phone : JsVal) : M bool :=
  match phone with
  | VStr s => ret (test phoneRegex (stripSpaces s))
  | _ => throw (TypeError "phone.replace is not a function")
  end.

(** [validateContactData(contactData)] *)
Definition validateContactData (contactData : option Obj) : M unit :=
  match contactData with
  | None => readUndefined "name"
  | Some d =>
      let! noName := missingText "contactData" "name" (get d "name") in
      if noName then throw (Error "Contact name is required") else
      if truthy (get d "email") && negb (isValidEmail (get d "email")) then
        throw (Error "Invalid email format") else
      if truthy (get d "phone") then
        let! okPhone := isValidPhone (get d "phone") in
        if negb okPhone then throw (Error "Invalid phone format") else ret tt
      else ret tt
  end.

(** *** The Yjs maps of the API manager *)

(** [updateYjsDocument(entityType, operation, data)].  The observer set up
    by [initializeYjs] runs [handleYjsUpdate] on every change of a map, which
    emits the event of the change. *)
Definition updateYjsDocument (entityType operation : string) (data : Obj)
    : M unit :=
  let! maps := gets yjsMaps in
  match maps with
  | None => ret tt
  | Some ms =>
      match ms !! entityType with
      | None => ret tt
      | Some map =>
          let key := toString (get data "id") in
          if bool_decide (operation ∈ [ "create"; "update" ]) then
            modify (set_yjsMaps (Some (<[entityType := <[key := data]> map]> ms)));;
            emit (entityType +:+ "UpdatedRemotely")
                 [ ("data", EObj data); ("key", EJs (VStr key)) ]
          else if String.eqb operation "delete" then
            match map !! key with
            | Some _ =>
                modify (set_yjsMaps (Some (<[entityType := delete key map]> ms)));;
                emit (entityType +:+ "DeletedRemotely")
                     [ ("key", EJs (VStr key)) ]
            | None => ret tt
            end
          else ret tt
      end
  end.

(** *** Deals *)

Record Options := mkOptions {
  optimistic : bool;
  validate : bool;
  conflictResolution : string;
  cascade : bool
}.

(** [{}] and [{ optimistic: false }], completed by the defaults of the
    destructuring. *)
Definition defaultOptions : Options := mkOptions true true "merge" false.
Definition notOptimistic : Options := mkOptions false true "merge" false.

(** [getDeal(id)] *)
Definition getDeal (id : JsVal) : M Obj :=
  tryCatch
    (let! base := buildDataEndpoint "deals" in
     let endpoint := base +:+ "/" +:+ toString id in
     let fullEndpoint := endpoint +:+ "?include=company%2Ccontact" in
     let! response := makeRequest "GET" fullEndpoint None 0 true in
     match response with
     | RespOk responseData _ _ =>
         let deal := transformDealFromAPI responseData in
         emit "dealLoaded" [ ("deal", EObj deal) ];;
         ret deal
     | RespFail error st =>
         throw (APIError ("Failed to fetch deal: " +:+ error) st)
     end)
    (fun error =>
       logError ("getDeal(" +:+ toString id +:+ ") failed:") error;;
       let! cached := getOfflineData ("deal_" +:+ toString id) in
       match cached with
       | Some deal => ret deal
       | None => throw error
       end).

(** [createDeal(dealData, options)] *)
Definition createDeal (dealData : option Obj) (options : Options) : M Obj :=
  tryCatch
    (when (validate options) (validateDealData dealData);;
     let! endpoint := buildDataEndpoint "deals" in
     let! apiData := transformDealToAPI dealData in
     when (optimistic options)
       (let! t := dateNow in
        let optimisticDeal :=
          <["id" := VStr ("temp_" +:+ pretty t)]> (spread dealData) in
        emit "dealCreatedOptimistic" [ ("deal", EObj optimisticDeal) ]);;
     let! response := makeRequest "POST" endpoint (Some apiData) 0 true in
     match response with
     | RespOk responseData _ _ =>
         let createdDeal := transformDealFromAPI responseData in
         updateYjsDocument "deals" "create" createdDeal;;
         emit "dealCreated" [ ("deal", EObj createdDeal) ];;
         ret createdDeal
     | RespFail error st =>
         when (optimistic options)
              (emit "dealCreateFailed" [ ("error", EJs (VStr error)) ]);;
         throw (APIError ("Failed to create deal: " +:+ error) st)
     end)
    (fun error =>
       logError "createDeal failed:" error;;
       if isNetworkError error then
         queueOfflineOperation "create" "deals" dealData;;
         let! t := dateNow in
         ret (<["_offline" := VBool true]>
                (<["id" := VStr ("offline_" +:+ pretty t)]> (spread dealData)))
       else throw error).

(** [this.conflictResolver.resolve(localData, serverData, strategy).resolved]
    as [handleUpdateConflict] reads it: of the promise that ['prompt'] returns
    the property is [undefined].  A [localData] that is [undefined] makes
    [merge] throw in [Object.entries]. *)
Definition resolvedField (localData : option Obj) (serverData : Obj)
    (strategy : string) : M (option Obj) :=
  match localData with
  | Some l =>
      match ConflictResolver.resolve l serverData strategy with
      | ConflictResolver.Returns (ConflictResolver.Plain r) =>
          ret (Some (ConflictResolver.resolved r))
      | ConflictResolver.Returns (ConflictResolver.Promised _) => ret None
      | ConflictResolver.Throws e => throw e
      | ConflictResolver.CallsInherited _ => stuck
      end
  | None =>
      if String.eqb strategy "client-wins" then ret None
      else if String.eqb strategy "server-wins" then ret (Some serverData)
      else if String.eqb strategy "merge" then
        throw (TypeError "Cannot convert undefined or null to object")
      else if String.eqb strategy "prompt" then ret None
      else if bool_decide (strategy ∈ ObjectPrototypeKeys) then stuck
      else throw (Error ("Unknown conflict resolution strategy: " +:+ strategy))
  end.

(** [handleUpdateConflict(id, localData, strategy)], given the method
    [updateDeal] it calls back. *)
Definition handleUpdateConflictWith
    (updateDeal : JsVal -> option Obj -> Options -> M Obj)
    (id : JsVal) (localData : option Obj) (strategy : string) : M Obj :=
  tryCatch
    (let! serverData := getDeal id in
     let! resolved := resolvedField localData serverData strategy in
     emit "conflictResolved"
       [ ("id", EJs id); ("strategy", EJs (VStr strategy));
         ("local", EData localData); ("server", EObj serverData);
         ("resolved", EData resolved) ];;
     updateDeal id resolved notOptimistic)
    (fun error =>
       logError ("Conflict resolution failed for deal " +:+ toString id +:+ ":")
                error;;
       throw error).

(** [updateDeal(id, dealData, options)], given the method
    [handleUpdateConflict] it calls on a conflict answer (409). *)
Definition updateDealWith
    (handleUpdateConflict : JsVal -> option Obj -> string -> M Obj)
    (id : JsVal) (dealData : option Obj) (options : Options) : M Obj :=
  tryCatch
    (when (validate options) (validateDealData dealData);;
     let! currentDeal := getDeal id in
     let! base := buildDataEndpoint "deals" in
     let endpoint := base +:+ "/" +:+ toString id in
     let! apiData := transformDealToAPI dealData in
     let apiData :=
       if truthy (get currentDeal "updated_at")
       then <["_version" := get currentDeal "updated_at"]> apiData
       else apiData in
     when (optimistic options)
       (let optimisticDeal := spread dealData ∪ currentDeal in
        emit "dealUpdatedOptimistic" [ ("deal", EObj optimisticDeal) ]);;
     let! response := makeRequest "PATCH" endpoint (Some apiData) 0 true in
     match response with
     | RespOk responseData _ _ =>
         let updatedDeal := transformDealFromAPI responseData in
         updateYjsDocument "deals" "update" updatedDeal;;
         emit "dealUpdated"
              [ ("deal", EObj updatedDeal); ("previous", EObj currentDeal) ];;
         ret updatedDeal
     | RespFail error st =>
         if st =? 409 then
           handleUpdateConflict id dealData (conflictResolution options)
         else
           when (optimistic options)
                (emit "dealUpdateFailed"
                      [ ("id", EJs id); ("error", EJs (VStr error)) ]);;
           throw (APIError ("Failed to update deal: " +:+ error) st)
     end)
    (fun error =>
       logError ("updateDeal(" +:+ toString id +:+ ") failed:") error;;
       if isNetworkError error then
         queueOfflineOperation "update" "deals"
           (Some (spread dealData ∪ {[ "id" := id ]}));;
         ret (<["_offline" := VBool true]> (<["id" := id]> (spread dealData)))
       else throw error).

(** The two methods call each other for as long as the store keeps
    answering 409; [fuel] bounds the calls of [handleUpdateConflict]. *)
Fixpoint updateDeal (fuel : nat) : JsVal -> option Obj -> Options -> M Obj :=
  updateDealWith
    (match fuel with
     | S fuel' => handleUpdateConflictWith (updateDeal fuel')
     | O => fun _ _ _ => stuck
     end).

Definition handleUpdateConflict (fuel : nat) :=
  handleUpdateConflictWith (updateDeal fuel).

(** The value of a method that answers an object or [true]. *)
Inductive Returned :=
| RetObj (o : Obj)
| RetTrue.

(** [deleteDeal(id, options)]; [cascadeDeleteRelations] only logs. *)
Definition deleteDeal (id : JsVal) (options : Options) : M Returned :=
  tryCatch
    (let! deal := getDeal id in
     let! base := buildDataEndpoint "deals" in
     let endpoint := base +:+ "/" +:+ toString id in
     when (optimistic options)
          (emit "dealDeletedOptimistic" [ ("id", EJs id); ("deal", EObj deal) ]);;
     let! response := makeRequest "DELETE" endpoint None 0 true in
     match response with
     | RespOk _ _ _ =>
         updateYjsDocument "deals" "delete" {[ "id" := id ]};;
         emit "dealDeleted" [ ("id", EJs id); ("deal", EObj deal) ];;
         ret RetTrue
     | RespFail error st =>
         when (optimistic options)
              (emit "dealDeleteFailed"
                    [ ("id", EJs id); ("error", EJs (VStr error)) ]);;
         throw (APIError ("Failed to delete deal: " +:+ error) st)
     end)
    (fun error =>
       logError ("deleteDeal(" +:+ toString id +:+ ") failed:") error;;
       if isNetworkError error then
         queueOfflineOperation "delete" "deals" (Some {[ "id" := id ]});;
         ret RetTrue
       else throw error).

(** *** Contacts *)

(** [getContact(id)] *)
Definition getContact (id : JsVal) : M Obj :=
  tryCatch
    (let! base := buildDataEndpoint "contacts" in
     let endpoint := base +:+ "/" +:+ toString id in
     let! response := makeRequest "GET" endpoint None 0 true in
     match response with
     | RespOk responseData _ _ =>
         let contact := transformContactFromAPI responseData in
         emit "contactLoaded" [ ("contact", EObj contact) ];;
         ret contact
     | RespFail error st =>
         throw (APIError ("Failed to fetch contact: " +:+ error) st)
     end)
    (fun error =>
       logError ("getContact(" +:+ toString id +:+ ") failed:") error;;
       let! cached := getOfflineData ("contact_" +:+ toString id) in
       match cached with
       | Some contact => ret contact
       | None => throw error
       end).

(** [createContact(contactData, options)] *)
Definition createContact (contactData : option Obj) (options : Options)
    : M Obj :=
  tryCatch
    (when (validate options) (validateContactData contactData);;
     let! endpoint := buildDataEndpoint "contacts" in
     let! apiData := transformContactToAPI contactData in
     when (optimistic options)
       (let! t := dateNow in
        let tempContact :=
          <["id" := VStr ("temp_" +:+ pretty t)]> (spread contactData) in
        emit "contactCreatedOptimistic" [ ("contact", EObj tempContact) ]);;
     let! response := makeRequest "POST" endpoint (Some apiData) 0 true in
     match response with
     | RespOk responseData _ _ =>
         let createdContact := transformContactFromAPI responseData in
         updateYjsDocument "contacts" "create" createdContact;;
         emit "contactCreated" [ ("contact", EObj createdContact) ];;
         ret createdContact
     | RespFail error st =>
         when (optimistic options)
              (emit "contactCreateFailed" [ ("error", EJs (VStr error)) ]);;
         throw (APIError ("Failed to create contact: " +:+ error) st)
     end)
    (fun error =>
       logError "createContact failed:" error;;
       if isNetworkError error then
         queueOfflineOperation "create" "contacts" contactData;;
         let! t := dateNow in
         ret (<["_offline" := VBool true]>
                (<["id" := VStr ("offline_" +:+ pretty t)]> (spread contactData)))
       else throw error).

(** [updateContact(id, contactData, options)] *)
Definition updateContact (id : JsVal) (contactData : option Obj)
    (options : Options) : M Obj :=
  tryCatch
    (when (validate options) (validateContactData contactData);;
     let! base := buildDataEndpoint "contacts" in
     let endpoint := base +:+ "/" +:+ toString id in
     let! apiData := transformContactToAPI contactData in
     when (optimistic options)
       (let! current := getContact id in
        let optimisticContact := spread contactData ∪ current in
        emit "contactUpdatedOptimistic" [ ("contact", EObj optimisticContact) ]);;
     let! response := makeRequest "PATCH" endpoint (Some apiData) 0 true in
     match response with
     | RespOk responseData _ _ =>
         let updatedContact := transformContactFromAPI responseData in
         updateYjsDocument "contacts" "update" updatedContact;;
         emit "contactUpdated" [ ("contact", EObj updatedContact) ];;
         ret updatedContact
     | RespFail error st =>
         throw (APIError ("Failed to update contact: " +:+ error) st)
     end)
    (fun error =>
       logError ("updateContact(" +:+ toString id +:+ ") failed:") error;;
       if isNetworkError error then
         queueOfflineOperation "update" "contacts"
           (Some (spread contactData ∪ {[ "id" := id ]}));;
         ret (<["_offline" := VBool true]> (<["id" := id]> (spread contactData)))
       else throw error).

(** [deleteContact(id, options)] *)
Definition deleteContact (id : JsVal) (options : Options) : M Returned :=
  tryCatch
    (let! contact := getContact id in
     let! base := buildDataEndpoint "contacts" in
     let endpoint := base +:+ "/" +:+ toString id in
     when (optimistic options)
          (emit "contactDeletedOptimistic"
                [ ("id", EJs id); ("contact", EObj contact) ]);;
     let! response := makeRequest "DELETE" endpoint None 0 true in
     match response with
     | RespOk _ _ _ =>
         updateYjsDocument "contacts" "delete" {[ "id" := id ]};;
         emit "contactDeleted" [ ("id", EJs id); ("contact", EObj contact) ];;
         ret RetTrue
     | RespFail error st =>
         throw (APIError ("Failed to delete contact: " +:+ error) st)
     end)
    (fun error =>
       logError ("deleteContact(" +:+ toString id +:+ ") failed:") error;;
       if isNetworkError error then
         queueOfflineOperation "delete" "contacts" (Some {[ "id" := id ]});;
         ret RetTrue
       else throw error).

(** *** Replaying the offline queue *)

(** [str.slice(0, -1)] and [capitalize(str)] *)
Fixpoint dropLast (s : string) : string :=
  match s with
  | EmptyString => EmptyString
  | String c EmptyString => EmptyString
  | String c s' => String c (dropLast s')
  end.

Definition toUpper (c : ascii) : ascii :=
  if in_range "a" "z" c then ascii_of_N (code c - 32) else c.

Definition capitalize (s : string) : string :=
  match s with
  | EmptyString => EmptyString
  | String c s' => String (toUpper c) s'
  end.

(** The call [this[`${verb}${capitalize(entityType.slice(0, -1))}`](...)] of
    [processOfflineItem].  The members found under these names are the
    methods on deals and contacts; those on companies are not part of this
    development; any other name finds no function.  The arguments are
    evaluated before the call: [data.id] for an update or a delete. *)
Definition callMember (fuel : nat) (verb : string) (entityType : option string)
    (data : option Obj) : M Returned :=
  match entityType with
  | None => readUndefined "slice"
  | Some entityType =>
      let member := verb +:+ capitalize (dropLast entityType) in
      let! id :=
        if String.eqb verb "create" then ret VUndefined else
        match data with
        | Some d => ret (get d "id")
        | None => readUndefined "id"
        end in
      if String.eqb member "createDeal" then
        let! deal := createDeal data notOptimistic in ret (RetObj deal)
      else if String.eqb member "updateDeal" then
        let! deal := updateDeal fuel id data notOptimistic in ret (RetObj deal)
      else if String.eqb member "deleteDeal" then
        deleteDeal id notOptimistic
      else if String.eqb member "createContact" then
        let! contact := createContact data notOptimistic in ret (RetObj contact)
      else if String.eqb member "updateContact" then
        let! contact := updateContact id data notOptimistic in
        ret (RetObj contact)
      else if String.eqb member "deleteContact" then
        deleteContact id notOptimistic
      else if bool_decide (member ∈ [ "createCompany"; "updateCompany";
                                       "deleteCompany" ]) then
        stuck
      else
        throw (TypeError ("this." +:+ member +:+ " is not a function"))
  end.

(** [processOfflineItem(item)] *)
Definition processOfflineItem (fuel : nat) (item : QueueItem) : M Returned :=
  let operation := default "undefined" (operation item) in
  if bool_decide (operation ∈ [ "create"; "update"; "delete" ]) then
    callMember fuel operation (entityType item) (data item)
  else
    throw (Error ("Unknown operation: " +:+ operation)).

(** [item.retries++] on the entry at position [i] of the queue. *)
Definition bumpRetries (item : QueueItem) : QueueItem :=
  {| qid := qid item; operation := operation item;
     entityType := entityType item; method := method item;
     endpoint := endpoint item; data := data item;
     timestamp := timestamp item; retries := S (retries item) |}.

(** The history of replays, which no code reads. *)
Definition recordReplay (item : QueueItem) (returned : bool) : M unit :=
  modify (fun w => set_replays (replays w ++ [ (item, returned) ]) w).

(** The body of the loop of [processOfflineQueue] for the entry [item] at
    position [i], with the identifiers collected so far.  No replay writes to
    an entry that is already in the queue, so when a replay has thrown the
    entry at position [i] still is [item]. *)
Definition drainEntry (fuel : nat) (i : nat) (item : QueueItem)
    (processedItems : list string) : M (list string) :=
  tryCatch
    (processOfflineItem fuel item;;
     recordReplay item true;;
     ret (processedItems ++ [ qid item ]))
    (fun error =>
       recordReplay item false;;
       modify (fun w =>
         set_offlineQueue (alter bumpRetries i (offlineQueue w)) w);;
       let! cfg := gets retryConfig in
       if (attempts cfg <=? S (retries item))%nat then
         logError ("Failed to process offline operation after "
                   +:+ pretty (S (retries item)) +:+ " retries:")
                  error;;
         ret (processedItems ++ [ qid item ])
       else
         logError ("Offline operation failed (retry "
                   +:+ pretty (S (retries item)) +:+ "):") error;;
         ret processedItems).

(** The loop [for (const item of this.offlineQueue)] from position [i] on.
    The array iterator reads the length at every step, so entries pushed by a
    replay are visited too; [fuel] bounds the number of iterations. *)
Fixpoint drainFrom (fuel : nat) (i : nat) (processedItems : list string)
    : M (list string) :=
  match fuel with
  | O => stuck
  | S fuel' =>
      let! queue := gets offlineQueue in
      match queue !! i with
      | None => ret processedItems
      | Some item =>
          let! processedItems := drainEntry fuel' i item processedItems in
          drainFrom fuel' (S i) processedItems
      end
  end.

(** [processOfflineQueue()] *)
Definition processOfflineQueue (fuel : nat) : M unit :=
  let! connected := gets isConnected in
  let! queue := gets offlineQueue in
  if negb connected || (length queue =? 0)%nat then ret tt else
  let! processedItems := drainFrom fuel 0 [] in
  modify (fun w =>
    set_offlineQueue
      (filter (fun item => qid item ∉ processedItems) (offlineQueue w)) w);;
  setOfflineQueue;;
  let! remaining := gets (fun w => length (offlineQueue w)) in
  emit "offlineQueueProcessed"
    [ ("processed", EJs (VNum (Z.of_nat (length processedItems))));
      ("remaining", EJs (VNum (Z.of_nat remaining))) ].

(** *** What a computation leaves untouched *)

(** Between two worlds: the queue and the error log have only grown at
    their ends, and neither the retry configuration, the connection flag, the
    history of replays nor the network has changed. *)
Definition frame (w w' : World) : Prop :=
  (∃ pushed, offlineQueue w' = offlineQueue w ++ pushed)
  ∧ retryConfig w' = retryConfig w
  ∧ isConnected w' = isConnected w
  ∧ replays w' = replays w
  ∧ network w' = network w
  ∧ (∃ logged, consoleErrors w' = consoleErrors w ++ logged).

Definition framed {A} (m : M A) : Prop := ∀ w, frame w (m w).2.

(** [m'] does whatever [m] does in every world where [m] stays inside the
    model. *)
Definition extends {A} (m m' : M A) : Prop :=
  ∀ w, (m w).1 ≠ Stuck -> m' w = m w.

(** The entries of the history after which the drain removes the entry
    from the queue: the replay returned, or the retries reached [ceiling]. *)
Definition removed (ceiling : nat) (entry : QueueItem * bool) : bool :=
  entry.2 || (ceiling <=? S (retries entry.1))%nat.

(** The identifiers a drain collects in [processedItems], read off the
    history it wrote. *)
Definition collected (ceiling : nat) (rest : list (QueueItem * bool))
    : list string :=
  (fun e : QueueItem * bool => qid e.1)
    <$> filter (fun e => removed ceiling e = true) rest.

(** The line the drain writes to the error log when it drops an entry whose
    replay failed with the message [msg]. *)
Definition dropLine (item : QueueItem) (msg : string) : string :=
  ("Failed to process offline operation after "
   +:+ pretty (S (retries item)) +:+ " retries:") +:+ " " +:+ msg.

(** The event that ends a drain. *)
Definition queueProcessed (processed remaining : nat) : Event :=
  ("offlineQueueProcessed",
   [ ("processed", EJs (VNum (Z.of_nat processed)));
     ("remaining", EJs (VNum (Z.of_nat remaining))) ]).

(** *** Example worlds *)

(** The retry configuration of the constructor. *)
Definition defaultRetryConfig : RetryConfig :=
  mkRetryConfig 3 1000 10000 2 true.

(** A manager that has found the store reachable, on a given network and
    with a given queue; nothing cached, Yjs not loaded. *)
Definition connectedWorld (net : nat -> FetchOutcome)
    (queue : list QueueItem) : World :=
  {| orgId := "noco"; projectId := "crm"; isConnected := true;
     retryConfig := defaultRetryConfig;
     offlineQueue := queue; storedQueue := Some queue; offlineData := ∅;
     cacheEnabled := true; cacheTtl := 300000; cacheStorage := [];
     yjsMaps := None; emitted := []; consoleErrors := []; requests := [];
     replays := [];
     network := net; time := fun n => 1700000000000 + Z.of_nat n; ticks := 0;
     random := fun n => n; draws := 0 |}.

(** The request is aborted by [AbortSignal.timeout(30000)]. *)
Definition timeoutError : JsError :=
  mkError "TimeoutError" "signal timed out" None.

(** The scripted answers of the store, then silence. *)
Definition answers (script : list FetchOutcome) : nat -> FetchOutcome :=
  fun n => nth n script (Rejects timeoutError).

Definition bigDeal : Obj :=
  {[ "title" := VStr "Big deal"; "amount" := VNum 100 ]}.

(** A queued creation of [bigDeal], and a queued update of the deal that the
    offline creation returned under a placeholder identifier. *)
Definition queuedCreate (retries : nat) : QueueItem :=
  {| qid := "queue_1700000000000_0"; operation := Some "create";
     entityType := Some "deals"; method := None; endpoint := None;
     data := Some bigDeal; timestamp := 1700000000001; retries := retries |}.

Definition queuedUpdate : QueueItem :=
  {| qid := "queue_1700000000005_1"; operation := Some "update";
     entityType := Some "deals"; method := None; endpoint := None;
     data := Some {[ "id" := VStr "offline_1700000000002";
                     "title" := VStr "Big deal"; "amount" := VNum 150 ]};
     timestamp := 1700000000006; retries := 0 |}.

(** Answers of the store: a refusal, and a record returned as stored. *)
Definition badRequest : FetchOutcome := Responds 400 "Bad Request" ∅.

Definition storedDeal : Obj :=
  {[ "Id" := VStr "offline_1700000000002"; "Title" := VStr "Big deal";
     "Amount" := VNum 150 ]}.

(** The method and endpoint of each request sent so far. *)
Definition sent (w : World) : list (string * string) :=
  (fun r => (reqMethod r, reqEndpoint r)) <$> requests w.

End API.

(** ** Requests: what one attempt sends and how it fails *)

Module Requests.

Import API.

(** The request that one attempt of [makeRequest] hands to [fetch]. *)
Definition sentRequest (method endpoint : string) (data : option Obj)
    : Request :=
  mkRequest method endpoint
    (if bool_decide (method ∈ [ "POST"; "PUT"; "PATCH" ]) then data else None).

(** The error an attempt ends with, if any: the rejection of [fetch], or the
    [HTTPError] thrown for a response that is not [ok]. *)
Definition attemptError (outcome : FetchOutcome) : option JsError :=
  match outcome with
  | Rejects e => Some e
  | Responds st statusText _ =>
      if statusOk st then None
      else Some (HTTPError ("HTTP " +:+ pretty st +:+ ": " +:+ statusText) st)
  end.

(** Between two worlds: no request was sent, nothing was queued, and the
    retry configuration and the network are the same. *)
Definition calm (w w' : World) : Prop :=
  retryConfig w' = retryConfig w
  ∧ network w' = network w
  ∧ requests w' = requests w
  ∧ offlineQueue w' = offlineQueue w.

(** A computation that returns in every world and sends nothing. *)
Definition calmly {A} (m : M A) : Prop :=
  ∀ w, ∃ a w', m w = (Ok a, w') ∧ calm w w'.

(** An entry as [handleOfflineRequest] pushes it. *)
Definition requestEntry (method endpoint : string) (data : option Obj)
    (item : QueueItem) : Prop :=
  operation item = None ∧ entityType item = None
  ∧ API.method item = Some method ∧ API.endpoint item = Some endpoint
  ∧ API.data item = data ∧ retries item = 0%nat.

(** Between the worlds before and after a failed attempt: one request was
    sent, and the request was queued if the failure counts as a network
    error. *)
Definition attempted (method endpoint : string) (data : option Obj)
    (error : JsError) (w w' : World) : Prop :=
  retryConfig w' = retryConfig w
  ∧ network w' = network w
  ∧ requests w' = requests w ++ [ sentRequest method endpoint data ]
  ∧ if isNetworkError error
    then ∃ item, offlineQueue w' = offlineQueue w ++ [ item ]
                 ∧ requestEntry method endpoint data item
    else offlineQueue w' = offlineQueue w.

(** The cache has no answer for a request: it is not consulted, or it
    holds no entry under the key of the request. *)
Definition missed (method endpoint : string) (data : option Obj)
    (useCache : bool) (w : World) : Prop :=
  (method =? "GET")%string && useCache && cacheEnabled w = false
  ∨ cache_get (cacheKeyOf method endpoint data) (cacheStorage w) = None.

(** What [makeRequest] does once the attempt numbered [retryCount] has
    failed with [error] and the failure has been logged, in world [w]:
    another attempt, or the failure is returned. *)
Definition afterFailure (budget : nat) (method endpoint : string)
    (data : option Obj) (retryCount : nat) (useCache : bool)
    (error : JsError) (w : World) : Res Response * World :=
  if (retryCount <? attempts (retryConfig w))%nat && shouldRetry error then
    match budget with
    | S budget' =>
        makeRequestFrom budget' method endpoint data (S retryCount) useCache w
    | O => (Stuck, w)
    end
  else (Ok (RespFail (message error) (default 0 (status error))), w).

(** A computation that leaves a component [f] of the world as it is. *)
Definition keeps {A B} (f : World -> B) (m : M A) : Prop :=
  ∀ w, f (m w).2 = f w.

(** The endpoint of the deals, and that of [getDeal(id)]. *)
Definition dealsEndpoint (w : World) : string :=
  "/api/v1/db/data/" +:+ orgId w +:+ "/" +:+ projectId w +:+ "/" +:+ "deals".

Definition dealEndpoint (w : World) (id : JsVal) : string :=
  (dealsEndpoint w +:+ "/" +:+ toString id) +:+ "?include=company%2Ccontact".

(** The browser reports a request that could not be sent. *)
Definition failedToFetch : JsError := TypeError "Failed to fetch".

(** A network that refuses every request. *)
Definition unreachable : nat -> FetchOutcome := fun _ => Rejects failedToFetch.

(** A creation of a company, queued while the store was unreachable. *)
Definition queuedCompany : QueueItem :=
  {| qid := "queue_1700000000000_0"; operation := Some "create";
     entityType := Some "companies"; method := None; endpoint := None;
     data := Some {[ "name" := VStr "Acme" ]}; timestamp := 1700000000001;
     retries := 0 |}.

(** The cache key of a listing of the deals. *)
Definition dealsKey : CacheKey :=
  cacheKeyOf "GET" "/api/v1/db/data/noco/crm/deals" None.

(** A store that does not know the deal asked for. *)
Definition notFound : nat -> FetchOutcome :=
  answers [ Responds 404 "Not Found" ∅ ].

(** A store that answers the first request with the stored deal. *)
Definition answering : nat -> FetchOutcome :=
  answers [ Responds 200 "OK" storedDeal ].

(** The four refusals of [validateDealData]. *)
Definition dealRefusals : list JsError :=
  [ Error "Deal title is required";
    Error "Deal amount must be a positive number";
    Error "Invalid deal status";
    Error "Deal probability must be between 0 and 100" ].

(** An entry as [queueOfflineOperation] pushes it. *)
Definition operationEntry (operation entityType : string)
    (data : option Obj) (item : QueueItem) : Prop :=
  API.operation item = Some operation
  ∧ API.entityType item = Some entityType
  ∧ method item = None ∧ endpoint item = None
  ∧ API.data item = data ∧ retries item = 0%nat.

(** An entry that queues the creation of the deal [d]. *)
Definition createEntry (d : Obj) (item : QueueItem) : Prop :=
  API.operation item = Some "create"
  ∧ API.entityType item = Some "deals"
  ∧ API.data item = Some d.

(** The entries a drain meets while the store refuses the creation of [d]:
    creations of [d], and the requests that failed attempts have queued. *)
Definition pendingEntry (d : Obj) (item : QueueItem) : Prop :=
  createEntry d item ∨ API.operation item = None.

(** A manager that believes the store reachable while the network refuses
    every request, with the creation of a deal in its queue. *)
Definition cutOff : World := connectedWorld unreachable [ queuedCreate 0 ].

(** A store that accepts the creation of a deal, gives it the identifier
    17, and knows no deal under any other identifier. *)
Definition createdDeal : Obj :=
  {[ "Id" := VNum 17; "Title" := VStr "Big deal"; "Amount" := VNum 100 ]}.

Definition assigning : nat -> FetchOutcome :=
  fun n =>
    match n with
    | O => Responds 200 "OK" createdDeal
    | S _ => Responds 404 "Not Found" ∅
    end.

(** A deal without a title, and one whose title is a number. *)
Definition untitledDeal : Obj := {[ "amount" := VNum 100 ]}.

Definition numberedDeal : Obj := {[ "title" := VNum 2024 ]}.

End Requests.

(** ** Contacts: the shape of an address and of a phone number *)

Module Contacts.

Import RegExp API.

(** [local@domain.tld]: three non-empty parts without white space or [@];
    the domain and the last part may contain further dots. *)
Definition emailShape (s : string) : Prop :=
  ∃ l d t,
    s = l +:+ "@" +:+ d +:+ "." +:+ t
    ∧ l ≠ "" ∧ d ≠ "" ∧ t ≠ ""
    ∧ allChars emailPart l = true
    ∧ allChars emailPart d = true
    ∧ allChars emailPart t = true.

(** An optional [+], a digit from 1 to 9, then at least seven digits,
    hyphens, parentheses or white space. *)
Definition phoneShape (s : string) : Prop :=
  ∃ plus c rest,
    s = plus +:+ String c rest
    ∧ (plus = "" ∨ plus = "+")
    ∧ in_range "1" "9" c = true
    ∧ (7 <= String.length rest)%nat
    ∧ allChars phoneTail rest = true.

Definition notSpace (c : ascii) : bool := negb (is_space c).

End Contacts.

(** ** A manager that has joined a deal *)

Module Sessions.

Import Realtime.

(** The state after [joinDeal('42')] on a fresh manager. *)
Definition joined42 : Manager :=
  (joinDeal "42" (mkJoinOptions None None) freshManager).2.

(** [leaveDeal(dealId)]: the state it leaves, and the [dealLeft] events it
    emits, returned beside the state because [Event] has no constructor for
    them.  The [destroy] methods of the libraries are taken not to throw,
    as their constructors are in [joinDeal]. *)
Definition leaveDeal (dealId : DealId) (m : Manager)
    : Manager * list DealId :=
  let m :=
    {| config := config m; docs := docs m; provs := provs m;
       persists := persists m; timers := timers m;
       documents := delete dealId (documents m);
       providers := delete dealId (providers m);
       persistence := delete dealId (persistence m);
       awareness := delete dealId (awareness m);
       isOnline := isOnline m; reconnectAttempts := reconnectAttempts m;
       reconnectTimeouts := reconnectTimeouts m;
       currentUser := currentUser m; authToken := authToken m;
       performanceMetrics := performanceMetrics m; emitted := emitted m;
       connectCalls := connectCalls m; time := time m; ticks := ticks m |} in
  (cancelReconnection dealId m, [ dealId ]).

(** The providers of the deals [deals] disconnect, one after the other. *)
Definition disconnections (deals : list DealId) (m : Manager) : Manager :=
  foldl (fun m dealId => handleProviderDisconnect dealId m) m deals.

(** What a disconnection emits once the retry budget is used up. *)
Definition refusal (online : bool) (dealId : DealId) : list Event :=
  disconnected dealId :: (if online then [ reconnectionFailed dealId ] else []).

(** A manager that has joined the deals 42 and 43. *)
Definition joined43 : Manager :=
  (joinDeal "43" (mkJoinOptions None None) joined42).2.

(** A round of reconnection: the provider of the deal disconnects, and the
    timer set for it expires. *)
Definition retryRound (dealId : DealId) (m : Manager) : Manager :=
  timerFires (length (timers m)) (handleProviderDisconnect dealId m).

(** The timers that [rounds] rounds leave behind, from attempt [first] on:
    expired, with the delays of the backoff. *)
Definition expiredTimers (cfg : Config) (dealId : DealId) (first rounds : nat)
    : list Timer :=
  (fun attempt => mkTimer dealId (reconnectionDelay cfg attempt) false)
    <$> seq first rounds.

End Sessions.

(** ** The notes manager of the browser client *)

Module Notes.

(** An entry of the object kept under [crm-notes] in [localStorage]. *)
Record Note := mkNote {
  content : string;
  lastModified : Z;
  version : Z
}.

(** A state on the undo or redo stack; [dealId] is [None] for [null]. *)
Record Snapshot := mkSnapshot {
  sDealId : option string;
  sContent : string;
  sTimestamp : Z
}.

Record NotesManager := mkNotesManager {
  currentDealId : option string;   (* [None]: null *)
  textarea : option string;
    (* the value of the element [deal-notes]; [None]: no such element *)
  undoStack : list Snapshot;   (* the top is the last element *)
  redoStack : list Snapshot;
  stored : option (gmap string Note);
    (* localStorage: crm-notes, as written by this class; [None]: no item *)
  time : nat -> Z;   (* the successive readings of the clock *)
  ticks : nat
}.

Definition maxUndoSteps : nat := 50.

(** The manager as the constructor leaves it. *)
Definition newNotesManager (element : option string)
    (storage : option (gmap string Note)) (clock : nat -> Z) : NotesManager :=
  {| currentDealId := None; textarea := element; undoStack := [];
     redoStack := []; stored := storage; time := clock; ticks := 0 |}.

(** [Date.now()] *)
Definition now (s : NotesManager) : Z * NotesManager :=
  (time s (ticks s),
   {| currentDealId := currentDealId s; textarea := textarea s;
      undoStack := undoStack s; redoStack := redoStack s; stored := stored s;
      time := time s; ticks := S (ticks s) |}).

(** The property key that a deal identifier, or [null], is used as. *)
Definition keyOf (dealId : option string) : string := default "null" dealId.

(** [getLocalNotesData()] *)
Definition getLocalNotesData (s : NotesManager) : gmap string Note :=
  default ∅ (stored s).

(** [saveLocalNotes(dealId, content)].  The assignment [notes[dealId] = ...]
    to the key [__proto__] of an object that has no such property of its own
    replaces the prototype and adds nothing. *)
Definition saveLocalNotes (dealId : string) (content : string)
    (s : NotesManager) : NotesManager :=
  let notes := getLocalNotesData s in
  let '(lastModified, s) := now s in
  let note :=
    {| content := content; lastModified := lastModified;
       version := default 0 (version <$> notes !! dealId) + 1 |} in
  let notes :=
    if String.eqb dealId "__proto__" && bool_decide (notes !! dealId = None)
    then notes
    else <[dealId := note]> notes in
  {| currentDealId := currentDealId s; textarea := textarea s;
     undoStack := undoStack s; redoStack := redoStack s;
     stored := Some notes; time := time s; ticks := ticks s |}.

(** [getLocalNotes(dealId)] *)
Definition getLocalNotes (dealId : string) (s : NotesManager) : string :=
  default "" (content <$> getLocalNotesData s !! dealId).

(** [clearNotesForDeal(dealId)] *)
Definition clearNotesForDeal (dealId : string) (s : NotesManager)
    : NotesManager :=
  {| currentDealId := currentDealId s; textarea := textarea s;
     undoStack := undoStack s; redoStack := redoStack s;
     stored := Some (delete dealId (getLocalNotesData s));
     time := time s; ticks := ticks s |}.

(** [setNotesForDeal(dealId, content)] *)
Definition setNotesForDeal (dealId : string) (content : string)
    (s : NotesManager) : NotesManager :=
  let s := saveLocalNotes dealId content s in
  if bool_decide (Some dealId = currentDealId s) then
    match textarea s with
    | Some _ =>
        {| currentDealId := currentDealId s; textarea := Some content;
           undoStack := undoStack s; redoStack := redoStack s;
           stored := stored s; time := time s; ticks := ticks s |}
    | None => s
    end
  else s.

(** [saveToUndoStack(dealId, content)] *)
Definition saveToUndoStack (dealId : option string) (content : string)
    (s : NotesManager) : NotesManager :=
  let '(timestamp, s) := now s in
  let state := mkSnapshot dealId content timestamp in
  let stack := undoStack s ++ [ state ] in
  let stack :=
    if (maxUndoSteps <? length stack)%nat then tail stack else stack in
  {| currentDealId := currentDealId s; textarea := textarea s;
     undoStack := stack; redoStack := []; stored := stored s;
     time := time s; ticks := ticks s |}.

(** Reading [document.getElementById('deal-notes').value] where there is no
    such element. *)
Definition noElement : JsError :=
  TypeError "Cannot read properties of null (reading 'value')".

(** The last step of [undo] and of [redo]: the state popped from the stack
    is applied if it belongs to the current deal. *)
Definition applyState (state : Snapshot) (s : NotesManager) : NotesManager :=
  if bool_decide (sDealId state = currentDealId s) then
    saveLocalNotes (keyOf (currentDealId s)) (sContent state)
      {| currentDealId := currentDealId s; textarea := Some (sContent state);
         undoStack := undoStack s; redoStack := redoStack s;
         stored := stored s; time := time s; ticks := ticks s |}
  else s.

(** [undo()] *)
Definition undo (s : NotesManager) : NotesManager + JsError :=
  match undoStack s with
  | [] => inl s
  | _ :: _ =>
      match textarea s with
      | None => inr noElement
      | Some value =>
          let '(timestamp, s) := now s in
          let currentState := mkSnapshot (currentDealId s) value timestamp in
          let previousState :=
            List.last (undoStack s) currentState in
          let s :=
            {| currentDealId := currentDealId s; textarea := textarea s;
               undoStack := removelast (undoStack s);
               redoStack := redoStack s ++ [ currentState ];
               stored := stored s; time := time s; ticks := ticks s |} in
          inl (applyState previousState s)
      end
  end.

(** [redo()] *)
Definition redo (s : NotesManager) : NotesManager + JsError :=
  match redoStack s with
  | [] => inl s
  | _ :: _ =>
      match textarea s with
      | None => inr noElement
      | Some value =>
          let '(timestamp, s) := now s in
          let currentState := mkSnapshot (currentDealId s) value timestamp in
          let nextState := List.last (redoStack s) currentState in
          let s :=
            {| currentDealId := currentDealId s; textarea := textarea s;
               undoStack := undoStack s ++ [ currentState ];
               redoStack := removelast (redoStack s);
               stored := stored s; time := time s; ticks := ticks s |} in
          inl (applyState nextState s)
      end
  end.

(** The operations on the stacks, and a session of them; an operation that
    throws leaves the manager as it was. *)
Inductive Op :=
| Edit (dealId : option string) (content : string)
| Undo
| Redo.

Definition step (s : NotesManager) (op : Op) : NotesManager :=
  match op with
  | Edit dealId content => saveToUndoStack dealId content s
  | Undo => match undo s with inl s' => s' | inr _ => s end
  | Redo => match redo s with inl s' => s' | inr _ => s end
  end.

Definition run (ops : list Op) (s : NotesManager) : NotesManager :=
  foldl step s ops.

(** A manager with an open deal, for the examples. *)
Definition editing : NotesManager :=
  {| currentDealId := Some "42"; textarea := Some "Call back on Monday";
     undoStack := [ mkSnapshot (Some "42") "Call back" 1700000000000 ];
     redoStack := []; stored := None;
     time := fun n => 1700000000001 + Z.of_nat n; ticks := 0 |}.

End Notes.

(** ** The hooks of the Hocuspocus server *)

Module Hooks.

Import Hocuspocus.

Record AuthUser := mkAuthUser {
  authId : string;
  authName : string;
  permissions : list string
}.

(** The context a successful [onAuthenticate] returns. *)
Record AuthContext := mkAuthContext {
  ctxUser : AuthUser;
  ctxEntityType : option string;
  ctxEntityId : option string
}.

(** A line of the structured logger: its level and message, the error it
    was given and its data.  The time stamp and the service name that every
    line carries are left out. *)
Record LogEntry := mkLogEntry {
  level : string;
  logMessage : string;
  logError : option JsError;
  logData : list (string * JsVal)
}.

(** A destructured array element as a value. *)
Definition ofOption (x : option string) : JsVal :=
  match x with
  | Some s => VStr s
  | None => VUndefined
  end.

(** [logger.debug], silent in production, and [logger.error];
    [nodeEnv] is [process.env.NODE_ENV]. *)
Definition debug (nodeEnv : option string) (message : string)
    (data : list (string * JsVal)) : list LogEntry :=
  if bool_decide (nodeEnv = Some "production") then []
  else [ mkLogEntry "debug" message None data ].

Definition error (message : string) (err : JsError)
    (data : list (string * JsVal)) : list LogEntry :=
  [ mkLogEntry "error" message (Some err) data ].

Definition devUser : AuthUser :=
  mkAuthUser "dev-user" "Development User" [ "read"; "write" ].

Definition authenticatedUser : AuthUser :=
  mkAuthUser "authenticated-user" "Authenticated User" [ "read"; "write" ].

Definition tokenRequired : JsError := Error "Authentication token is required".

(** [onAuthenticate({ token, documentName, requestHeaders, ... })]: the lines
    logged, and the context returned or the error thrown. *)
Definition onAuthenticate (nodeEnv : option string) (token : JsVal)
    (documentName : string) (requestHeaders : Obj)
    : list LogEntry * (AuthContext + JsError) :=
  let failed (log : list LogEntry) (e : JsError) :=
    (log ++ error "Authentication failed" e
              [ ("documentName", VStr documentName);
                ("hasToken", VBool (truthy token)) ],
     inr e) in
  match validateDocumentName documentName with
  | inr e => failed [] e
  | inl name =>
      let log :=
        debug nodeEnv "Authentication request"
          [ ("documentName", VStr documentName);
            ("entityType", ofOption (entityType name));
            ("entityId", ofOption (entityId name));
            ("hasToken", VBool (truthy token));
            ("userAgent", get requestHeaders "user-agent");
            ("origin", get requestHeaders "origin") ] in
      if bool_decide (nodeEnv = Some "development") then
        (log, inl (mkAuthContext devUser (entityType name) (entityId name)))
      else if negb (truthy token) then failed log tokenRequired
      else
        (log,
         inl (mkAuthContext authenticatedUser (entityType name)
                            (entityId name)))
  end.

End Hooks.

(** ** Merging downloaded records into the local ones *)

Module Sync.

Import API.

(** [new Map(items.map(item => [item.id, item])).get(id)]: of several items
    with the same identifier the last one is found. *)
Definition lookupById (items : list Obj) (id : JsVal) : option Obj :=
  foldl (fun found item => if decide (get item "id" = id) then Some item
                           else found)
        None items.

(** [new Map(items.map(item => [item.id, item])).has(id)] *)
Definition hasId (items : list Obj) (id : JsVal) : bool :=
  bool_decide (Exists (fun item => get item "id" = id) items).

(** What the loop over [remoteData] pushes for one item: the element of
    [merged], and whether it counts as downloaded or as a conflict.  Of the
    promise that the strategy ['prompt'] returns, [resolved] is
    [undefined]. *)
Definition mergeItem (localData : list Obj) (strategy : string)
    (remoteItem : Obj) : Res (option Obj * bool * bool) :=
  match lookupById localData (get remoteItem "id") with
  | None => Ok (Some remoteItem, true, false)
  | Some localItem =>
      if bool_decide (get localItem "_version" ≠ get remoteItem "_version")
      then
        match ConflictResolver.resolve localItem remoteItem strategy with
        | ConflictResolver.Returns (ConflictResolver.Plain r) =>
            Ok (Some (ConflictResolver.resolved r), false, true)
        | ConflictResolver.Returns (ConflictResolver.Promised _) =>
            Ok (None, false, true)
        | ConflictResolver.Throws e => Throw e
        | ConflictResolver.CallsInherited _ => Stuck
        end
      else Ok (Some remoteItem, false, false)
  end.

Record MergeResult := mkMergeResult {
  merged : list (option Obj);   (* [None]: undefined *)
  downloaded : nat;
  conflicts : nat
}.

(** The loop over [remoteData]; it ends at the first item whose resolution
    throws. *)
Fixpoint mergeRemote (localData : list Obj) (strategy : string)
    (remoteData : list Obj) : Res MergeResult :=
  match remoteData with
  | [] => Ok (mkMergeResult [] 0 0)
  | remoteItem :: rest =>
      match mergeItem localData strategy remoteItem with
      | Ok (item, isNew, isConflict) =>
          match mergeRemote localData strategy rest with
          | Ok r =>
              Ok (mkMergeResult (item :: merged r)
                    ((if isNew then 1 else 0) + downloaded r)
                    ((if isConflict then 1 else 0) + conflicts r))
          | Throw e => Throw e
          | Stuck => Stuck
          end
      | Throw e => Throw e
      | Stuck => Stuck
      end
  end.

(** The local items that no remote item shares its identifier with. *)
Definition localOnly (localData remoteData : list Obj) : list Obj :=
  filter (fun localItem => hasId remoteData (get localItem "id") = false)
         localData.

(** [mergeData(localData, remoteData, strategy)] *)
Definition mergeData (localData remoteData : list Obj) (strategy : string)
    : Res MergeResult :=
  match mergeRemote localData strategy remoteData with
  | Ok r =>
      Ok (mkMergeResult
            (merged r ++ (Some <$> localOnly localData remoteData))
            (downloaded r) (conflicts r))
  | Throw e => Throw e
  | Stuck => Stuck
  end.

(** The strategies of [ConflictResolver]. *)
Definition knownStrategies : list string :=
  [ "client-wins"; "server-wins"; "merge"; "prompt" ].

(** A local store with an edited and an unsent deal, and what the server
    has. *)
Definition localDeals : list Obj :=
  [ {[ "id" := VNum 1; "_version" := VNum 1; "title" := VStr "Old" ]};
    {[ "id" := VStr "offline_1"; "title" := VStr "Unsent" ]} ].

Definition remoteDeals : list Obj :=
  [ {[ "id" := VNum 1; "_version" := VNum 2; "title" := VStr "New" ]};
    {[ "id" := VNum 2; "_version" := VNum 1; "title" := VStr "Other" ]} ].

End Sync.

(** * Part two: properties *)

#[local] Arguments String.append !_ _ / : simpl nomatch.

(** ** Conflict resolution *)

Module ConflictResolverFacts.

Import ConflictResolver.

Lemma has_in_false_lookup (k : string) (o : Obj) :
  has_in k o = false -> o !! k = None.
Proof.
  unfold has_in. intros H. apply orb_false_iff in H as [H _].
  apply bool_decide_eq_false in H.
  destruct (o !! k) eqn:E; [ | reflexivity ].
  exfalso. apply H. eauto.
Qed.

Lemma merge_entry_copies (remote : Obj) key value resolved :
  client_addition remote (key, value) ->
  merge_entry remote key value resolved = <[key := value]> resolved.
Proof.
  unfold client_addition, merge_entry. simpl. intros [-> ->]. reflexivity.
Qed.

Lemma merge_entry_skips (remote : Obj) key value resolved :
  ¬ client_addition remote (key, value) ->
  merge_entry remote key value resolved = resolved.
Proof.
  unfold client_addition, merge_entry. simpl. intros H.
  destruct (has_in key remote), (startsWith "_" key); simpl; try reflexivity.
  exfalso. apply H. split; reflexivity.
Qed.

(** The loop of [merge] computes the union of [remote] with the client
    additions of [local]. *)
Lemma merge_loop (local remote : Obj) :
  map_fold (merge_entry remote) remote local
  = remote ∪ filter (client_addition remote) local.
Proof.
  apply (map_fold_weak_ind
           (fun acc m => acc = remote ∪ filter (client_addition remote) m)).
  - rewrite map_filter_empty. rewrite (right_id_L ∅ (∪)). reflexivity.
  - intros i x m acc Hi ->.
    destruct (decide (client_addition remote (i, x))) as [Hadd | Hadd].
    + rewrite merge_entry_copies by assumption.
      rewrite map_filter_insert_True by assumption.
      rewrite insert_union_r; [ reflexivity | ].
      apply has_in_false_lookup. apply Hadd.
    + rewrite merge_entry_skips by assumption.
      rewrite map_filter_insert_False by assumption.
      rewrite delete_id by assumption. reflexivity.
Qed.

(** A field of [local] whose name starts with an underscore is not copied
    although [remote] lacks it: the result differs from [remote] completed by
    the fields of [local]. *)
Lemma merge_drops_underscore_field :
  let local : Obj := {[ "_draft" := VBool true ]} in
  let remote : Obj := ∅ in
  resolve local remote "merge"
    = Returns (Plain {| resolved := remote; source := "merged" |})
  ∧ resolve local remote "merge"
    ≠ Returns (Plain {| resolved := remote ∪ local; source := "merged" |}).
Proof.
  split; [ vm_compute; reflexivity | ].
  vm_compute. intros H. discriminate H.
Qed.

(** C1, amended: for all objects [local] and [remote], the strategy ['merge']
    returns [remote] completed by every field of [local] that is not [in]
    [remote] and whose name does not start with an underscore, with source
    ['merged']; local [{status: "won", notes: "x"}] and remote
    [{status: "lost"}] resolve to [{status: "lost", notes: "x"}]. *)
Theorem merge_keeps_remote_adds_client_fields :
  (∀ local remote : Obj,
     resolve local remote "merge"
     = Returns (Plain {| resolved :=
                           remote ∪ filter (client_addition remote) local;
                         source := "merged" |}))
  ∧ resolve {[ "status" := VStr "won"; "notes" := VStr "x" ]}
            {[ "status" := VStr "lost" ]} "merge"
    = Returns (Plain {| resolved :=
                          {[ "status" := VStr "lost"; "notes" := VStr "x" ]};
                        source := "merged" |}).
Proof.
  split.
  - intros local remote. unfold resolve. simpl. unfold merge.
    rewrite merge_loop. reflexivity.
  - vm_compute. reflexivity.
Qed.

(** Read field by field: the result holds the value of [remote] where
    [remote] has the field, the value of [local] where the field is a client
    addition, and nothing else. *)
Lemma merge_lookup (local remote : Obj) (k : string) :
  resolved (merge local remote) !! k
  = match remote !! k with
    | Some v => Some v
    | None =>
        if has_in k remote || startsWith "_" k then None else local !! k
    end.
Proof.
  unfold merge. simpl. rewrite merge_loop.
  rewrite lookup_union.
  destruct (remote !! k) as [v|] eqn:Hr.
  - destruct (filter _ local !! k); reflexivity.
  - rewrite (left_id_L None union).
    destruct (has_in k remote || startsWith "_" k) eqn:Hc.
    + apply map_lookup_filter_None. right. intros x _ [H1 H2]. simpl in *.
      rewrite H1, H2 in Hc. discriminate.
    + apply orb_false_iff in Hc as [H1 H2].
      destruct (local !! k) as [x|] eqn:Hl.
      * apply map_lookup_filter_Some. split; [ assumption | ].
        split; assumption.
      * apply map_lookup_filter_None. left. assumption.
Qed.

(** What [resolve] returns under ['prompt'] is not what it returns under
    ['merge']: it is a promise, and the object is what the promise is
    fulfilled with. *)
Lemma prompt_result_differs :
  let local : Obj := {[ "status" := VStr "won"; "notes" := VStr "x" ]} in
  let remote : Obj := {[ "status" := VStr "lost" ]} in
  resolve local remote "prompt" ≠ resolve local remote "merge"
  ∧ resolve local remote "merge" = Returns (Plain (merge local remote))
  ∧ resolve local remote "prompt"
    = Returns (Promised (Fulfilled (merge local remote)))
  ∧ resolved (merge local remote)
    = {[ "status" := VStr "lost"; "notes" := VStr "x" ]}.
Proof.
  cbv zeta. split; [ intros H; discriminate H | ].
  split; [ reflexivity | ]. split; [ reflexivity | ].
  vm_compute. reflexivity.
Qed.

(** C9, amended: with the strategy ['prompt'], [resolve] returns at once a
    promise that is already fulfilled with the result of the strategy
    ['merge']: awaiting it gives what [resolve(local, remote, 'merge')]
    returns, and nothing is waited for. *)
Theorem prompt_falls_back_to_merge (local remote : Obj) :
  resolve local remote "prompt"
    = Returns (Promised (Fulfilled (merge local remote)))
  ∧ resolve local remote "merge" = Returns (Plain (merge local remote))
  ∧ (∃ p m, resolve local remote "prompt" = Returns p
            ∧ resolve local remote "merge" = Returns m
            ∧ await p = await m).
Proof.
  split; [ reflexivity | ]. split; [ reflexivity | ].
  eexists _, _. split; [ reflexivity | ]. split; reflexivity.
Qed.

End ConflictResolverFacts.

(** ** Matching by derivatives is matching *)

Module RegExpFacts.

Import RegExp.

Lemma append_nil_r (s : string) : s +:+ "" = s.
Proof. induction s as [|c s IH]; simpl; [ reflexivity | f_equal; exact IH ]. Qed.

Lemma append_assoc (s1 s2 s3 : string) :
  (s1 +:+ s2) +:+ s3 = s1 +:+ (s2 +:+ s3).
Proof. induction s1 as [|c s1 IH]; simpl; [ reflexivity | f_equal; exact IH ]. Qed.

Lemma append_eq_nil (s1 s2 : string) :
  s1 +:+ s2 = "" -> s1 = "" ∧ s2 = "".
Proof. destruct s1; simpl; intros H; [ now split | discriminate ]. Qed.

Lemma append_eq_cons (s1 s2 s : string) (c : ascii) :
  s1 +:+ s2 = String c s ->
  (s1 = "" ∧ s2 = String c s) ∨ (∃ s1', s1 = String c s1' ∧ s = s1' +:+ s2).
Proof.
  destruct s1 as [|c1 s1]; simpl; intros H.
  - left. now split.
  - right. injection H as -> <-. now exists s1.
Qed.

Lemma Lang_Void_inv (s : string) : Lang Void s -> False.
Proof. intros H. inversion H. Qed.

Lemma Lang_Eps_inv (s : string) : Lang Eps s -> s = "".
Proof. intros H. inversion H. reflexivity. Qed.

Lemma Lang_Class_inv (p : ascii -> bool) (s : string) :
  Lang (Class p) s -> ∃ c, s = String c "" ∧ p c = true.
Proof. intros H. inversion H; subst. eauto. Qed.

Lemma Lang_Seq_inv (r1 r2 : Regex) (s : string) :
  Lang (Seq r1 r2) s -> ∃ s1 s2, s = s1 +:+ s2 ∧ Lang r1 s1 ∧ Lang r2 s2.
Proof. intros H. inversion H; subst. eauto. Qed.

Lemma Lang_Alt_inv (r1 r2 : Regex) (s : string) :
  Lang (Alt r1 r2) s -> Lang r1 s ∨ Lang r2 s.
Proof. intros H. inversion H; subst; eauto. Qed.

Lemma nullable_Lang (r : Regex) : nullable r = true <-> Lang r "".
Proof.
  induction r as [ | | p | r1 IH1 r2 IH2 | r1 IH1 r2 IH2 | r IH ]; simpl.
  - split; [ discriminate | intros H; destruct (Lang_Void_inv _ H) ].
  - split; [ intros _; constructor | reflexivity ].
  - split; [ discriminate | ].
    intros H. apply Lang_Class_inv in H as (c & Hc & _). discriminate.
  - rewrite andb_true_iff, IH1, IH2. split.
    + intros [H1 H2]. apply (LangSeq r1 r2 "" ""); assumption.
    + intros H. apply Lang_Seq_inv in H as (s1 & s2 & Heq & H1 & H2).
      symmetry in Heq. apply append_eq_nil in Heq as [-> ->]. now split.
  - rewrite orb_true_iff, IH1, IH2. split.
    + intros [H | H]; [ now apply LangAltL | now apply LangAltR ].
    + apply Lang_Alt_inv.
  - split; [ intros _; constructor | reflexivity ].
Qed.

(** A non-empty word of [r*] starts with a non-empty word of [r]. *)
Lemma Lang_Star_cons (r : Regex) (c : ascii) (s : string) :
  Lang (Star r) (String c s) ->
  ∃ s1 s2, s = s1 +:+ s2 ∧ Lang r (String c s1) ∧ Lang (Star r) s2.
Proof.
  intros H. remember (Star r) as r' eqn:Hr. remember (String c s) as x eqn:Hx.
  induction H as [ | | | | | | r0 s1 s2 H1 _ H2 IH2 ]; try discriminate.
  injection Hr as ->.
  destruct (append_eq_cons _ _ _ _ Hx) as [[-> ->] | [s1' [-> ->]]].
  - apply IH2; reflexivity.
  - now exists s1', s2.
Qed.

Lemma deriv_Lang (r : Regex) :
  ∀ (c : ascii) (s : string), Lang (deriv c r) s <-> Lang r (String c s).
Proof.
  induction r as [ | | p | r1 IH1 r2 IH2 | r1 IH1 r2 IH2 | r IH ];
    intros c s; simpl.
  - split; intros H; destruct (Lang_Void_inv _ H).
  - split; intros H; [ destruct (Lang_Void_inv _ H) | ].
    apply Lang_Eps_inv in H. discriminate.
  - destruct (p c) eqn:Hp; split; intros H.
    + apply Lang_Eps_inv in H as ->. now constructor.
    + apply Lang_Class_inv in H as (c' & Heq & _).
      injection Heq as _ ->. constructor.
    + destruct (Lang_Void_inv _ H).
    + apply Lang_Class_inv in H as (c' & Heq & Hc').
      injection Heq as -> _. congruence.
  - assert (Hseq : ∀ s, Lang (Seq (deriv c r1) r2) s ->
                        Lang (Seq r1 r2) (String c s)).
    { intros s0 H. apply Lang_Seq_inv in H as (s1 & s2 & -> & H1 & H2).
      apply IH1 in H1. apply (LangSeq r1 r2 (String c s1) s2); assumption. }
    assert (Hinv : Lang (Seq r1 r2) (String c s) ->
                   (Lang r1 "" ∧ Lang r2 (String c s))
                   ∨ Lang (Seq (deriv c r1) r2) s).
    { intros H. apply Lang_Seq_inv in H as (s1 & s2 & Heq & H1 & H2).
      symmetry in Heq.
      destruct (append_eq_cons _ _ _ _ Heq) as [[-> ->] | [s1' [-> ->]]].
      - left. now split.
      - right. apply LangSeq; [ now apply IH1 | assumption ]. }
    destruct (nullable r1) eqn:Hn; split; intros H.
    + apply Lang_Alt_inv in H as [H | H]; [ now apply Hseq | ].
      apply (LangSeq r1 r2 "" (String c s));
        [ now apply nullable_Lang | now apply IH2 ].
    + destruct (Hinv H) as [[_ H2] | H']; [ | now apply LangAltL ].
      apply LangAltR. now apply IH2.
    + now apply Hseq.
    + destruct (Hinv H) as [[H1 _] | H']; [ | assumption ].
      apply nullable_Lang in H1. congruence.
  - split; intros H; apply Lang_Alt_inv in H as [H | H].
    + apply LangAltL. now apply IH1.
    + apply LangAltR. now apply IH2.
    + apply LangAltL. now apply IH1.
    + apply LangAltR. now apply IH2.
  - split; intros H.
    + apply Lang_Seq_inv in H as (s1 & s2 & -> & H1 & H2).
      apply IH in H1. apply (LangStarApp r (String c s1) s2); assumption.
    + destruct (Lang_Star_cons _ _ _ H) as (s1 & s2 & -> & H1 & H2).
      apply LangSeq; [ now apply IH | assumption ].
Qed.

(** The whole-string test decides membership in the language. *)
Theorem test_Lang (r : Regex) (s : string) : test r s = true <-> Lang r s.
Proof.
  revert r. induction s as [|c s IH]; intros r; simpl.
  - apply nullable_Lang.
  - rewrite IH. apply deriv_Lang.
Qed.

Lemma Lang_Star_Class (p : ascii -> bool) (s : string) :
  Lang (Star (Class p)) s <-> allChars p s = true.
Proof.
  split.
  - intros H. remember (Star (Class p)) as r eqn:Hr.
    induction H as [ | | | | | | r0 s1 s2 H1 _ H2 IH2 ]; try discriminate.
    + reflexivity.
    + injection Hr as ->. apply Lang_Class_inv in H1 as (c & -> & Hc).
      simpl. rewrite Hc. simpl. now apply IH2.
  - induction s as [|c s IH]; simpl; intros H.
    + constructor.
    + apply andb_true_iff in H as [Hc Hs].
      apply (LangStarApp (Class p) (String c "") s);
        [ now constructor | now apply IH ].
Qed.

Lemma Lang_Plus_Class (p : ascii -> bool) (s : string) :
  Lang (Plus (Class p)) s <-> s ≠ "" ∧ allChars p s = true.
Proof.
  unfold Plus. split.
  - intros H. apply Lang_Seq_inv in H as (s1 & s2 & -> & H1 & H2).
    apply Lang_Class_inv in H1 as (c & -> & Hc). simpl.
    split; [ discriminate | ].
    rewrite Hc. simpl. now apply Lang_Star_Class.
  - intros [Hne H]. destruct s as [|c s]; [ congruence | ].
    simpl in H. apply andb_true_iff in H as [Hc Hs].
    apply (LangSeq (Class p) (Star (Class p)) (String c "") s);
      [ now constructor | now apply Lang_Star_Class ].
Qed.

Lemma countChar_app (c : ascii) (s1 s2 : string) :
  countChar c (s1 +:+ s2) = (countChar c s1 + countChar c s2)%nat.
Proof. induction s1 as [|c1 s1 IH]; simpl; [ reflexivity | rewrite IH; lia ]. Qed.

Lemma countChar_none (p : ascii -> bool) (c : ascii) (s : string) :
  p c = false -> allChars p s = true -> countChar c s = 0%nat.
Proof.
  intros Hp. induction s as [|c1 s IH]; simpl; [ reflexivity | ].
  intros H. apply andb_true_iff in H as [Hc Hs].
  destruct (Ascii.eqb_spec c1 c) as [-> | _]; [ congruence | ].
  simpl. now apply IH.
Qed.

End RegExpFacts.

(** ** Document names on the server *)

Module HocuspocusFacts.

Import RegExp RegExpFacts Hocuspocus.

Lemma pattern_Lang (s : string) :
  Lang pattern s <->
  ∃ c w id, s = String c (w +:+ String ":" id)
            ∧ is_letter_ c = true ∧ allChars is_word w = true
            ∧ id ≠ "" ∧ allChars is_idchar id = true.
Proof.
  unfold pattern. split.
  - intros H.
    apply Lang_Seq_inv in H as (s1 & s2 & -> & H1 & H).
    apply Lang_Class_inv in H1 as (c & -> & Hc).
    apply Lang_Seq_inv in H as (w & s3 & -> & Hw & H).
    apply Lang_Star_Class in Hw.
    apply Lang_Seq_inv in H as (s4 & id & -> & H4 & Hid).
    apply Lang_Class_inv in H4 as (c4 & -> & Hc4).
    apply Lang_Plus_Class in Hid as [Hne Hid].
    unfold is_colon in Hc4. apply Ascii.eqb_eq in Hc4 as ->.
    exists c, w, id. simpl. repeat split; assumption.
  - intros (c & w & id & -> & Hc & Hw & Hne & Hid).
    apply (LangSeq _ _ (String c "") (w +:+ String ":" id));
      [ now constructor | ].
    apply LangSeq; [ now apply Lang_Star_Class | ].
    apply (LangSeq _ _ (String ":" "") id); [ now constructor | ].
    apply Lang_Plus_Class. now split.
Qed.

Lemma split_no_sep (sep : ascii) (s : string) :
  countChar sep s = 0%nat -> split sep s = [ s ].
Proof.
  induction s as [|c s IH]; simpl; [ reflexivity | ].
  destruct (Ascii.eqb c sep); simpl; [ discriminate | ].
  intros H. rewrite (IH H). reflexivity.
Qed.

Lemma split_app (sep : ascii) (t rest : string) :
  countChar sep t = 0%nat ->
  split sep (t +:+ String sep rest) = t :: split sep rest.
Proof.
  induction t as [|c t IH]; simpl.
  - intros _. rewrite Ascii.eqb_refl. reflexivity.
  - destruct (Ascii.eqb c sep); simpl; [ discriminate | ].
    intros H. rewrite (IH H). reflexivity.
Qed.

(** What the destructuring of [documentName.split(':')] yields on a name
    that passes the pattern. *)
Lemma split_matched (c : ascii) (w id : string) :
  is_letter_ c = true -> allChars is_word w = true ->
  allChars is_idchar id = true ->
  split ":" (String c (w +:+ String ":" id)) = [ String c w; id ].
Proof.
  intros Hc Hw Hid.
  change (String c (w +:+ String ":" id))
    with (String c w +:+ String ":" id).
  rewrite split_app.
  - rewrite split_no_sep; [ reflexivity | ].
    now apply (countChar_none is_idchar).
  - simpl. destruct (Ascii.eqb_spec c ":") as [-> | _]; [ discriminate | ].
    simpl. now apply (countChar_none is_word).
Qed.

Lemma allowed_shape (t : string) :
  t ∈ allowedEntityTypes ->
  ∃ c w, t = String c w ∧ is_letter_ c = true ∧ allChars is_word w = true.
Proof.
  unfold allowedEntityTypes. intros H.
  repeat (apply elem_of_cons in H as [-> | H];
          [ eexists _, _; split; [ reflexivity | split; reflexivity ] | ]).
  apply elem_of_nil in H. destruct H.
Qed.

Lemma accepted_iff (s : string) : accepted s = true <-> wellFormed s.
Proof.
  unfold accepted, validateDocumentName, wellFormed. split.
  - destruct (test pattern s) eqn:Ht; [ | discriminate ].
    apply test_Lang, pattern_Lang in Ht
      as (c & w & id & -> & Hc & Hw & Hne & Hid).
    rewrite split_matched by assumption.
    change ([String c w; id] !! 0%nat) with (Some (String c w)).
    unfold includesType.
    destruct (bool_decide (String c w ∈ allowedEntityTypes)) eqn:Hin;
      [ | discriminate ].
    intros _. apply bool_decide_eq_true in Hin.
    exists (String c w), id. repeat split; assumption.
  - intros (t & id & -> & Hin & Hne & Hid).
    destruct (allowed_shape t Hin) as (c & w & -> & Hc & Hw).
    change (String c w +:+ ":" +:+ id) with (String c (w +:+ String ":" id)).
    assert (Ht : test pattern (String c (w +:+ String ":" id)) = true).
    { apply test_Lang, pattern_Lang. exists c, w, id.
      repeat split; assumption. }
    rewrite Ht. rewrite split_matched by assumption.
    change ([String c w; id] !! 0%nat) with (Some (String c w)).
    unfold includesType.
    rewrite bool_decide_eq_true_2 by assumption. reflexivity.
Qed.

Lemma rejection_is_descriptive (s : string) :
  accepted s = false ->
  validateDocumentName s = inr (Error (formatMessage s))
  ∨ ∃ t, validateDocumentName s = inr (Error (typeMessage t)).
Proof.
  unfold accepted, validateDocumentName.
  destruct (test pattern s); [ | intros _; left; reflexivity ].
  destruct (includesType _ _); [ discriminate | ].
  intros _. right. eexists. reflexivity.
Qed.

Lemma wellFormed_one_colon (s : string) :
  wellFormed s -> countChar ":" s = 1%nat.
Proof.
  intros (t & id & -> & Hin & Hne & Hid).
  destruct (allowed_shape t Hin) as (c & w & -> & Hc & Hw).
  rewrite !countChar_app.
  rewrite (countChar_none is_idchar ":" id) by (reflexivity || assumption).
  simpl. destruct (Ascii.eqb_spec c ":") as [-> | _]; [ discriminate | ].
  rewrite (countChar_none is_word ":" w) by (reflexivity || assumption).
  reflexivity.
Qed.

Lemma three_part_rejected (ns ty id : string) :
  accepted (ns +:+ ":" +:+ ty +:+ ":" +:+ id) = false.
Proof.
  destruct (accepted _) eqn:H; [ | reflexivity ].
  apply accepted_iff, wellFormed_one_colon in H.
  rewrite !countChar_app in H. simpl in H. lia.
Qed.

(** A session identifier [<namespace>:<entityType>:<entityId>] with an
    allowed entity type is refused. *)
Lemma namespaced_deal_name_rejected :
  "deal" ∈ allowedEntityTypes
  ∧ validateDocumentName ("crm" +:+ ":" +:+ "deal" +:+ ":" +:+ "123")
    = inr (Error "Invalid document name format: crm:deal:123. Expected format: entity_type:entity_id").
Proof.
  split; [ | vm_compute; reflexivity ].
  unfold allowedEntityTypes. apply elem_of_cons. left. reflexivity.
Qed.

(** C7, amended: document-name validation accepts exactly the identifiers
    [<entityType>:<entityId>] whose entity type is on the allow-list and whose
    entity identifier is a non-empty word over letters, digits, [_] and [-];
    every other identifier is rejected with an error that quotes the
    identifier or its entity type, and every identifier of three parts
    [<namespace>:<entityType>:<entityId>] is among the rejected ones. *)
Theorem validateDocumentName_two_part_names :
  (∀ s, accepted s = true <-> wellFormed s)
  ∧ (∀ s, accepted s = false ->
          validateDocumentName s = inr (Error (formatMessage s))
          ∨ ∃ t, validateDocumentName s = inr (Error (typeMessage t)))
  ∧ (∀ ns ty id, accepted (ns +:+ ":" +:+ ty +:+ ":" +:+ id) = false).
Proof.
  split; [ exact accepted_iff | ].
  split; [ exact rejection_is_descriptive | exact three_part_rejected ].
Qed.

Lemma validateDocumentName_two_part_names_witness :
  (accepted "deal:123" = true <-> wellFormed "deal:123")
  ∧ (accepted "crm:deal:123" = false ->
     validateDocumentName "crm:deal:123"
     = inr (Error (formatMessage "crm:deal:123"))
     ∨ ∃ t, validateDocumentName "crm:deal:123" = inr (Error (typeMessage t)))
  ∧ accepted ("crm" +:+ ":" +:+ "deal" +:+ ":" +:+ "123") = false.
Proof.
  destruct validateDocumentName_two_part_names as (H1 & H2 & H3).
  split; [ apply (H1 "deal:123") | ].
  split; [ apply (H2 "crm:deal:123") | apply (H3 "crm" "deal" "123") ].
Defined.

(** The names the browser client gives its providers are of the three-part
    form. *)
Lemma client_document_name_rejected (cfg : Realtime.Config) (dealId : string) :
  accepted (Realtime.docName cfg dealId) = false.
Proof.
  unfold Realtime.docName.
  change (Realtime.namespace cfg +:+ ":deal:" +:+ dealId)
    with (Realtime.namespace cfg +:+ ":" +:+ "deal" +:+ ":" +:+ dealId).
  apply three_part_rejected.
Qed.

End HocuspocusFacts.

(** ** The real-time manager *)

Module RealtimeFacts.

Import Realtime Sessions.

(** *** Joining *)

Lemma joinDeal_joined (m : Manager) (dealId : DealId) (options : JoinOptions)
    (doc : nat) :
  documents m !! dealId = Some doc ->
  joinDeal dealId options m = (Fulfilled doc, set_ticks (S (ticks m)) m).
Proof.
  intros H. unfold joinDeal, now. simpl. rewrite H. reflexivity.
Qed.

(** C10: joining a deal that is already joined returns the existing document
    and leaves every map and every created object of the manager as it was;
    only the clock has been read once more. *)
Theorem joinDeal_already_joined (m : Manager) (dealId : DealId)
    (options : JoinOptions) (doc : nat) :
  documents m !! dealId = Some doc ->
  let '(result, m') := joinDeal dealId options m in
  result = Fulfilled doc
  ∧ m' = set_ticks (S (ticks m)) m
  ∧ docs m' = docs m ∧ provs m' = provs m ∧ persists m' = persists m
  ∧ documents m' = documents m ∧ providers m' = providers m
  ∧ persistence m' = persistence m ∧ awareness m' = awareness m
  ∧ emitted m' = emitted m.
Proof.
  intros H. rewrite (joinDeal_joined m dealId options doc H).
  repeat split.
Qed.

Lemma joinDeal_registers (m : Manager) (dealId : DealId)
    (options : JoinOptions) :
  ∃ doc, (joinDeal dealId options m).1 = Fulfilled doc
         ∧ documents (joinDeal dealId options m).2 !! dealId = Some doc.
Proof.
  unfold joinDeal, now. simpl.
  destruct (documents m !! dealId) as [doc|] eqn:Hd.
  - exists doc. simpl. split; [ reflexivity | exact Hd ].
  - exists (length (docs m)).
    destruct (initialData options); simpl;
      destruct (performanceMonitoring (config m)); simpl;
      (split; [ reflexivity | apply lookup_insert_eq ]).
Qed.

(** Joining twice is joining once: the second call returns the document of
    the first and changes nothing but the count of clock readings. *)
Lemma joinDeal_twice (m : Manager) (dealId : DealId) (o1 o2 : JoinOptions) :
  let m1 := (joinDeal dealId o1 m).2 in
  joinDeal dealId o2 m1
  = ((joinDeal dealId o1 m).1, set_ticks (S (ticks m1)) m1).
Proof.
  intros m1. destruct (joinDeal_registers m dealId o1) as (doc & Hr & Hd).
  rewrite Hr. apply joinDeal_joined. exact Hd.
Qed.

Lemma joinDeal_already_joined_witness :
  let m := (joinDeal "42" (mkJoinOptions None None) freshManager).2 in
  documents m !! "42" = Some 0%nat
  ∧ let '(result, m') := joinDeal "42" (mkJoinOptions None None) m in
    result = Fulfilled 0%nat
    ∧ m' = set_ticks (S (ticks m)) m
    ∧ docs m' = docs m ∧ provs m' = provs m ∧ persists m' = persists m
    ∧ documents m' = documents m ∧ providers m' = providers m
    ∧ persistence m' = persistence m ∧ awareness m' = awareness m
    ∧ emitted m' = emitted m.
Proof.
  intros m.
  assert (H : documents m !! "42" = Some 0%nat) by (vm_compute; reflexivity).
  split; [ exact H | ].
  exact (joinDeal_already_joined m "42" (mkJoinOptions None None) 0%nat H).
Defined.

(** *** Reconnection *)

Lemma overflow_large : 30000 < overflow.
Proof. apply Z.ltb_lt. vm_compute. reflexivity. Qed.

Lemma pow2_mono (n k : nat) : (n <= k)%nat -> 2 ^ Z.of_nat n <= 2 ^ Z.of_nat k.
Proof. intros H. apply Z.pow_le_mono_r; lia. Qed.

(** For a positive base delay the delay is the integer
    [min(reconnectDelay * 2^attempt, 30000)] at every attempt: a product
    beyond the doubles is [Infinity], and the minimum is 30000 then too. *)
Lemma reconnectionDelay_positive (cfg : Config) (n : nat) :
  0 < reconnectDelay cfg ->
  reconnectionDelay cfg n
  = Finite (Z.min (reconnectDelay cfg * 2 ^ Z.of_nat n) 30000).
Proof.
  intros Hd. pose proof overflow_large as Hbig.
  assert (Hp : 0 < 2 ^ Z.of_nat n) by (apply Z.pow_pos_nonneg; lia).
  unfold reconnectionDelay, pow2.
  destruct (Nat.ltb_spec n 1024) as [Hn | Hn]; unfold times.
  - destruct (Z.ltb_spec (Z.abs (reconnectDelay cfg * 2 ^ Z.of_nat n))
                         overflow) as [Ho | Ho]; [ reflexivity | ].
    destruct (Z.ltb_spec 0 (reconnectDelay cfg)); [ | lia ].
    unfold mathMin. f_equal. symmetry. apply Z.min_r.
    rewrite Z.abs_eq in Ho by nia. lia.
  - destruct (Z.eqb_spec (reconnectDelay cfg) 0); [ lia | ].
    destruct (Z.ltb_spec 0 (reconnectDelay cfg)); [ | lia ].
    unfold mathMin. f_equal. symmetry. apply Z.min_r.
    assert (overflow <= 2 ^ Z.of_nat n)
      by (unfold overflow; apply Z.pow_le_mono_r; lia).
    nia.
Qed.

(** A base delay of zero, which the constructor accepts among its options,
    gives the delay 0 up to attempt 1023 and [NaN] from attempt 1024 on, where
    [Math.pow] is [Infinity]. *)
Lemma reconnectionDelay_zero (cfg : Config) (n : nat) :
  reconnectDelay cfg = 0 ->
  reconnectionDelay cfg n = if (n <? 1024)%nat then Finite 0 else NaN.
Proof.
  intros H. pose proof overflow_large as Hbig.
  unfold reconnectionDelay, pow2. rewrite H.
  destruct (n <? 1024)%nat; [ | reflexivity ].
  unfold times. rewrite Z.mul_0_l. change (Z.abs 0) with 0.
  destruct (Z.ltb_spec 0 overflow); [ reflexivity | lia ].
Qed.

Lemma scheduleReconnection_schedules (m : Manager) (dealId : DealId) :
  Z.of_nat (reconnectAttempts m) < maxReconnectAttempts (config m) ->
  scheduleReconnection dealId m
  = set_reconnectTimeouts
      (<[dealId := length (timers m)]> (reconnectTimeouts m))
      (set_timers
         (timers m ++ [ mkTimer dealId
                          (reconnectionDelay (config m) (reconnectAttempts m))
                          true ]) m).
Proof.
  intros H. unfold scheduleReconnection.
  destruct (Z.geb_spec (Z.of_nat (reconnectAttempts m))
                       (maxReconnectAttempts (config m))); [ lia | ].
  reflexivity.
Qed.

Lemma scheduleReconnection_exhausted (m : Manager) (dealId : DealId) :
  maxReconnectAttempts (config m) <= Z.of_nat (reconnectAttempts m) ->
  scheduleReconnection dealId m = emit (reconnectionFailed dealId) m.
Proof.
  intros H. unfold scheduleReconnection.
  destruct (Z.geb_spec (Z.of_nat (reconnectAttempts m))
                       (maxReconnectAttempts (config m))); [ | lia ].
  reflexivity.
Qed.

Lemma handleProviderDisconnect_schedules (m : Manager) (dealId : DealId) :
  isOnline m = true ->
  Z.of_nat (reconnectAttempts m) < maxReconnectAttempts (config m) ->
  handleProviderDisconnect dealId m
  = set_reconnectTimeouts
      (<[dealId := length (timers m)]> (reconnectTimeouts m))
      (set_timers
         (timers m ++ [ mkTimer dealId
                          (reconnectionDelay (config m) (reconnectAttempts m))
                          true ])
         (emit (disconnected dealId) m)).
Proof.
  intros Hon Hb. unfold handleProviderDisconnect. simpl. rewrite Hon.
  rewrite scheduleReconnection_schedules by exact Hb. reflexivity.
Qed.



(** The delays of the default configuration: 1 s, 2 s, 4 s, 8 s, 16 s, then
    30 s; and those of a base delay of zero around attempt 1024. *)
Example default_delays :
  map (reconnectionDelay defaultConfig) (seq 0 7)
  = Finite <$> [ 1000; 2000; 4000; 8000; 16000; 30000; 30000 ]
  ∧ map (reconnectionDelay (mkConfig "ws://localhost:3001" "crm" 0 2000 5000
                                     true))
        [ 0; 1023; 1024 ]%nat
    = [ Finite 0; Finite 0; NaN ].
Proof. split; vm_compute; reflexivity. Qed.

(** Once the attempt counter has reached [maxReconnectAttempts], a
    disconnection changes nothing but the events emitted. *)
Lemma handleProviderDisconnect_exhausted (m : Manager) (dealId : DealId) :
  maxReconnectAttempts (config m) <= Z.of_nat (reconnectAttempts m) ->
  handleProviderDisconnect dealId m
  = set_emitted (emitted m ++ refusal (isOnline m) dealId) m.
Proof.
  intros H. unfold handleProviderDisconnect, refusal. simpl.
  destruct (isOnline m) eqn:Hon.
  - rewrite scheduleReconnection_exhausted by exact H.
    unfold emit, set_emitted. simpl. rewrite <- app_assoc. reflexivity.
  - reflexivity.
Qed.

Lemma disconnections_exhausted (deals : list DealId) :
  ∀ m,
    maxReconnectAttempts (config m) <= Z.of_nat (reconnectAttempts m) ->
    disconnections deals m
    = set_emitted (emitted m ++ concat (refusal (isOnline m) <$> deals)) m.
Proof.
  induction deals as [|dealId deals IH]; intros m H.
  - simpl. rewrite app_nil_r. destruct m. reflexivity.
  - change (disconnections (dealId :: deals) m)
      with (disconnections deals (handleProviderDisconnect dealId m)).
    rewrite handleProviderDisconnect_exhausted by exact H.
    rewrite IH by exact H. unfold set_emitted. simpl.
    rewrite <- app_assoc. reflexivity.
Qed.

(** The failed state is left.  With the counter at its maximum the
    disconnection of deal 42 emits [reconnectionFailed] and sets no timer;
    then the provider of deal 43 connects, which resets the counter, and the
    next disconnection of deal 42 sets a timer that reconnects it.  And a
    timer that a second disconnection had replaced before the counter reached
    its maximum still expires after [reconnectionFailed] and calls
    [provider.connect()]. *)
Lemma failed_state_is_left :
  (let m := set_reconnectAttempts 10 joined43 in
   let failed := handleProviderDisconnect "42" m in
   let reset := handleProviderConnect "43" failed in
   let again := handleProviderDisconnect "42" reset in
   maxReconnectAttempts (config m) <= Z.of_nat (reconnectAttempts m)
   ∧ last (emitted failed) = Some (reconnectionFailed "42")
   ∧ timers failed = []
   ∧ reconnectAttempts reset = 0%nat
   ∧ timers again = [ mkTimer "42" (Finite 1000) true ]
   ∧ reconnectTimeouts again !! "42" = Some 0%nat
   ∧ connectCalls (timerFires 0 again) = [ "42" ])
  ∧ (let m := set_reconnectAttempts 9 joined42 in
     let twice := handleProviderDisconnect "42"
                    (handleProviderDisconnect "42" m) in
     let failed := handleProviderDisconnect "42" (timerFires 0 twice) in
     maxReconnectAttempts (config failed)
       <= Z.of_nat (reconnectAttempts failed)
     ∧ last (emitted failed) = Some (reconnectionFailed "42")
     ∧ connectCalls failed = [ "42" ]
     ∧ timers failed !! 1%nat = Some (mkTimer "42" (Finite 30000) true)
     ∧ connectCalls (timerFires 1 failed) = [ "42"; "42" ]
     ∧ reconnectAttempts (timerFires 1 failed) = 11%nat).
Proof.
  split; cbv zeta; repeat split; vm_compute; try reflexivity;
    intros H; discriminate H.
Qed.

(** C8, amended: once the attempt counter has reached
    [maxReconnectAttempts], the disconnections of whichever deals, however
    many, set no timer, register none and leave the counter where it is; each
    emits [disconnected] and, when the browser is online,
    [reconnectionFailed]; nothing else of the manager changes.  The state
    lasts until some provider connects: that resets the counter, which is one
    for all deals, and the next disconnection of any deal sets a timer
    again. *)
Theorem retry_budget_exhausted (m : Manager) (deals : list DealId) :
  maxReconnectAttempts (config m) <= Z.of_nat (reconnectAttempts m) ->
  let m' := disconnections deals m in
  m' = set_emitted (emitted m ++ concat (refusal (isOnline m) <$> deals)) m
  ∧ timers m' = timers m
  ∧ reconnectTimeouts m' = reconnectTimeouts m
  ∧ connectCalls m' = connectCalls m
  ∧ reconnectAttempts m' = reconnectAttempts m
  ∧ (∀ dealId, scheduleReconnection dealId m'
               = emit (reconnectionFailed dealId) m')
  ∧ (∀ other dealId,
       let m1 := handleProviderConnect other m' in
       reconnectAttempts m1 = 0%nat
       ∧ (isOnline m = true -> 0 < maxReconnectAttempts (config m) ->
          let m2 := handleProviderDisconnect dealId m1 in
          reconnectTimeouts m2 !! dealId = Some (length (timers m))
          ∧ timers m2 !! length (timers m)
            = Some (mkTimer dealId (reconnectionDelay (config m) 0) true))).
Proof.
  intros H m'. subst m'. rewrite disconnections_exhausted by exact H.
  split; [ reflexivity | ]. do 4 (split; [ reflexivity | ]). split.
  - intros dealId. apply scheduleReconnection_exhausted. exact H.
  - intros other dealId m1.
    assert (Hm1 : reconnectAttempts m1 = 0%nat
                  ∧ isOnline m1 = isOnline m ∧ config m1 = config m
                  ∧ length (timers m1) = length (timers m)).
    { subst m1. unfold handleProviderConnect, cancelReconnection. simpl.
      destruct (reconnectTimeouts m !! other); simpl;
        rewrite ?length_alter; repeat split. }
    destruct Hm1 as (Ha & Hon & Hcfg & Hlen). clearbody m1.
    split; [ exact Ha | ]. intros Honline Hmax m2. subst m2.
    rewrite handleProviderDisconnect_schedules
      by (rewrite ?Hon, ?Ha, ?Hcfg; assumption).
    simpl. rewrite Hlen, Ha, Hcfg. split.
    + apply lookup_insert_eq.
    + rewrite lookup_app_r by lia. rewrite Hlen, Nat.sub_diag. reflexivity.
Qed.

Lemma retry_budget_exhausted_witness :
  let m := set_reconnectAttempts 10 joined43 in
  let deals := [ "42"; "43"; "42" ] in
  let m' := disconnections deals m in
  m' = set_emitted (emitted m ++ concat (refusal (isOnline m) <$> deals)) m
  ∧ timers m' = timers m
  ∧ reconnectTimeouts m' = reconnectTimeouts m
  ∧ connectCalls m' = connectCalls m
  ∧ reconnectAttempts m' = reconnectAttempts m
  ∧ (∀ dealId, scheduleReconnection dealId m'
               = emit (reconnectionFailed dealId) m')
  ∧ (∀ other dealId,
       let m1 := handleProviderConnect other m' in
       reconnectAttempts m1 = 0%nat
       ∧ (isOnline m = true -> 0 < maxReconnectAttempts (config m) ->
          let m2 := handleProviderDisconnect dealId m1 in
          reconnectTimeouts m2 !! dealId = Some (length (timers m))
          ∧ timers m2 !! length (timers m)
            = Some (mkTimer dealId (reconnectionDelay (config m) 0) true))).
Proof.
  apply (retry_budget_exhausted (set_reconnectAttempts 10 joined43)
           [ "42"; "43"; "42" ]).
  vm_compute. intros H. discriminate H.
Defined.

(** *** Last write wins *)

(** Two writes with the same timestamp by different writers: the result is
    the first argument, hence depends on the order of application. *)
Lemma lww_tie_depends_on_order :
  let a := mkWrite {[ "stage" := VStr "won" ]} 1700000000000 "alice" in
  let b := mkWrite {[ "stage" := VStr "lost" ]} 1700000000000 "bob" in
  updatedAt a = updatedAt b ∧ updatedBy a ≠ updatedBy b
  ∧ lww a b freshManager = Some a
  ∧ lww b a freshManager = Some b
  ∧ lww a b freshManager ≠ lww b a freshManager.
Proof.
  intros a b.
  split; [ reflexivity | ]. split; [ discriminate | ].
  split; [ reflexivity | ]. split; [ reflexivity | ].
  vm_compute. intros H. discriminate H.
Qed.

(** C6, amended: last-write-wins resolution returns the write with the
    higher timestamp, whatever the order of the two arguments; when the
    timestamps are equal it returns its local argument (there is no tie-break
    on the writer identity). *)
Theorem lww_higher_timestamp_wins (a b : Write) (m : Manager) :
  updatedAt a < updatedAt b ->
  lww a b m = Some b ∧ lww b a m = Some b
  ∧ (∀ l r : Write, updatedAt l = updatedAt r -> lww l r m = Some l).
Proof.
  intros Hlt. unfold lww, resolveConflict. simpl.
  destruct (Z.gtb_spec (updatedAt b) (updatedAt a)); [ | lia ].
  destruct (Z.gtb_spec (updatedAt a) (updatedAt b)); [ lia | ].
  repeat split.
  intros l r Heq. destruct (Z.gtb_spec (updatedAt r) (updatedAt l)); [ lia | ].
  reflexivity.
Qed.

Lemma lww_higher_timestamp_wins_witness :
  let a := mkWrite {[ "stage" := VStr "won" ]} 1700000000000 "alice" in
  let b := mkWrite {[ "stage" := VStr "lost" ]} 1700000000001 "bob" in
  lww a b freshManager = Some b ∧ lww b a freshManager = Some b
  ∧ (∀ l r : Write, updatedAt l = updatedAt r -> lww l r freshManager = Some l).
Proof.
  intros a b. apply (lww_higher_timestamp_wins a b freshManager).
  simpl. lia.
Defined.

End RealtimeFacts.

(** ** The API manager *)

Module APIFacts.

Import API.

#[local] Arguments bind : simpl never.
#[local] Arguments tryCatch : simpl never.
#[local] Arguments when : simpl never.
#[local] Arguments gets : simpl never.
#[local] Arguments modify : simpl never.
#[local] Arguments ret : simpl never.
#[local] Arguments throw : simpl never.
#[local] Arguments stuck : simpl never.

(** *** Replays only push onto the queue *)

Lemma frame_refl (w : World) : frame w w.
Proof.
  unfold frame. split; [ exists []; symmetry; apply app_nil_r | ].
  do 4 (split; [ reflexivity | ]). exists []. symmetry. apply app_nil_r.
Qed.

Lemma frame_trans (w1 w2 w3 : World) :
  frame w1 w2 -> frame w2 w3 -> frame w1 w3.
Proof.
  intros ([p1 Hq1] & Hc1 & Hi1 & Hr1 & Hn1 & [l1 Hl1])
         ([p2 Hq2] & Hc2 & Hi2 & Hr2 & Hn2 & [l2 Hl2]).
  unfold frame. split.
  - exists (p1 ++ p2). rewrite Hq2, Hq1. symmetry. apply app_assoc.
  - do 4 (split; [ congruence | ]).
    exists (l1 ++ l2). rewrite Hl2, Hl1. symmetry. apply app_assoc.
Qed.

Lemma framed_ret {A} (a : A) : framed (ret a).
Proof. intros w. apply frame_refl. Qed.

Lemma framed_throw {A} (e : JsError) : framed (@throw A e).
Proof. intros w. apply frame_refl. Qed.

Lemma framed_stuck {A} : framed (@stuck A).
Proof. intros w. apply frame_refl. Qed.

Lemma framed_gets {A} (f : World -> A) : framed (gets f).
Proof. intros w. apply frame_refl. Qed.

Lemma framed_modify (f : World -> World) :
  (∀ w, frame w (f w)) -> framed (modify f).
Proof. intros H w. apply H. Qed.

Lemma framed_bind {A B} (m : M A) (k : A -> M B) :
  framed m -> (∀ a, framed (k a)) -> framed (bind m k).
Proof.
  intros Hm Hk w. unfold bind. specialize (Hm w).
  destruct (m w) as [[a | e | ] w']; simpl in *; try assumption.
  eapply frame_trans; [ exact Hm | apply Hk ].
Qed.

Lemma framed_tryCatch {A} (m : M A) (h : JsError -> M A) :
  framed m -> (∀ e, framed (h e)) -> framed (tryCatch m h).
Proof.
  intros Hm Hh w. unfold tryCatch. specialize (Hm w).
  destruct (m w) as [[a | e | ] w']; simpl in *; try assumption.
  eapply frame_trans; [ exact Hm | apply Hh ].
Qed.

Lemma framed_when (b : bool) (m : M unit) : framed m -> framed (when b m).
Proof. intros H. destruct b; [ exact H | apply framed_ret ]. Qed.

(** A world update that touches none of the framed fields, or pushes onto
    the queue. *)
Ltac solve_grows :=
  first [ exists []; symmetry; apply app_nil_r | eexists; reflexivity ].

Ltac solve_frame :=
  unfold frame; simpl;
  split; [ solve_grows | do 4 (split; [ reflexivity | ]); solve_grows ].

Lemma framed_emit eventName detail : framed (emit eventName detail).
Proof. apply framed_modify. intros w. solve_frame. Qed.

Lemma framed_logError what error : framed (logError what error).
Proof. apply framed_modify. intros w. solve_frame. Qed.

Lemma framed_dateNow : framed dateNow.
Proof. intros w. solve_frame. Qed.

Lemma framed_mathRandom : framed mathRandom.
Proof. intros w. solve_frame. Qed.

Lemma framed_fetch method endpoint data : framed (fetch method endpoint data).
Proof.
  intros w. unfold fetch. destruct (network w _); solve_frame.
Qed.

Lemma framed_getOfflineData key : framed (getOfflineData key).
Proof. apply framed_gets. Qed.

Lemma framed_setOfflineQueue : framed setOfflineQueue.
Proof. apply framed_modify. intros w. solve_frame. Qed.

Create HintDb framed.

#[local] Hint Resolve framed_ret framed_throw framed_stuck framed_gets
  framed_emit framed_logError framed_dateNow framed_mathRandom framed_fetch
  framed_getOfflineData framed_setOfflineQueue : framed.

(** Through the structure of a method: sequencing, handlers, branches. *)
Ltac framed_step :=
  lazymatch goal with
  | |- framed (bind _ _) => apply framed_bind; [ | intros ? ]
  | |- framed (tryCatch _ _) => apply framed_tryCatch; [ | intros ? ]
  | |- framed (when _ _) => apply framed_when
  | |- framed (modify _) => apply framed_modify; intros ?; solve_frame
  | |- framed (if ?b then _ else _) => destruct b
  | |- framed (match ?x with _ => _ end) => destruct x
  | |- framed _ => solve [ auto with framed ]
  end.

Ltac framed_auto := repeat framed_step.

Lemma framed_generateId prefix : framed (generateId prefix).
Proof. unfold generateId. framed_auto. Qed.

Lemma framed_calculateRetryDelay n : framed (calculateRetryDelay n).
Proof. unfold calculateRetryDelay. framed_auto. Qed.

#[local] Hint Resolve framed_generateId framed_calculateRetryDelay : framed.

Lemma framed_queueOfflineOperation operation entityType data :
  framed (queueOfflineOperation operation entityType data).
Proof. unfold queueOfflineOperation. framed_auto. Qed.

Lemma framed_handleOfflineRequest method endpoint data :
  framed (handleOfflineRequest method endpoint data).
Proof. unfold handleOfflineRequest. framed_auto. Qed.

Lemma framed_getCachedResponse key : framed (getCachedResponse key).
Proof. unfold getCachedResponse. framed_auto. Qed.

Lemma framed_cleanupCache : framed cleanupCache.
Proof. unfold cleanupCache. framed_auto. Qed.

#[local] Hint Resolve framed_queueOfflineOperation framed_handleOfflineRequest
  framed_getCachedResponse framed_cleanupCache : framed.

Lemma framed_setCachedResponse key data : framed (setCachedResponse key data).
Proof. unfold setCachedResponse. framed_auto. Qed.

#[local] Hint Resolve framed_setCachedResponse : framed.

Lemma framed_makeRequestFrom budget :
  ∀ method endpoint data retryCount useCache,
    framed (makeRequestFrom budget method endpoint data retryCount useCache).
Proof.
  induction budget as [|budget IH]; intros; simpl; framed_auto.
Qed.

Lemma framed_makeRequest method endpoint data retryCount useCache :
  framed (makeRequest method endpoint data retryCount useCache).
Proof. intros w. unfold makeRequest. apply framed_makeRequestFrom. Qed.

Lemma framed_buildDataEndpoint tableType : framed (buildDataEndpoint tableType).
Proof. unfold buildDataEndpoint. framed_auto. Qed.

Lemma framed_readUndefined {A} key : framed (@readUndefined A key).
Proof. unfold readUndefined. framed_auto. Qed.

#[local] Hint Resolve framed_makeRequest framed_buildDataEndpoint
  framed_readUndefined : framed.

Lemma framed_transformToAPI fields entityData :
  framed (transformToAPI fields entityData).
Proof. unfold transformToAPI. framed_auto. Qed.

Lemma framed_missingText owner key v : framed (missingText owner key v).
Proof. unfold missingText. framed_auto. Qed.

Lemma framed_isValidPhone phone : framed (isValidPhone phone).
Proof. unfold isValidPhone. framed_auto. Qed.

#[local] Hint Resolve framed_transformToAPI framed_missingText
  framed_isValidPhone : framed.

Lemma framed_validateDealData dealData : framed (validateDealData dealData).
Proof. unfold validateDealData. framed_auto. Qed.

Lemma framed_validateContactData contactData :
  framed (validateContactData contactData).
Proof. unfold validateContactData. framed_auto. Qed.

Lemma framed_updateYjsDocument entityType operation data :
  framed (updateYjsDocument entityType operation data).
Proof. unfold updateYjsDocument. framed_auto. Qed.

#[local] Hint Resolve framed_validateDealData framed_validateContactData
  framed_updateYjsDocument : framed.

Lemma framed_getDeal id : framed (getDeal id).
Proof. unfold getDeal. framed_auto. Qed.

Lemma framed_getContact id : framed (getContact id).
Proof. unfold getContact. framed_auto. Qed.

#[local] Hint Resolve framed_getDeal framed_getContact : framed.

Lemma framed_createDeal dealData options : framed (createDeal dealData options).
Proof.
  unfold createDeal, transformDealToAPI. framed_auto.
Qed.

Lemma framed_resolvedField localData serverData strategy :
  framed (resolvedField localData serverData strategy).
Proof. unfold resolvedField. framed_auto. Qed.

#[local] Hint Resolve framed_createDeal framed_resolvedField : framed.

Lemma framed_updateDeal fuel :
  ∀ id dealData options, framed (updateDeal fuel id dealData options).
Proof.
  induction fuel as [|fuel IH]; intros; simpl;
    unfold updateDealWith, transformDealToAPI, handleUpdateConflictWith;
    framed_auto.
Qed.

Lemma framed_deleteDeal id options : framed (deleteDeal id options).
Proof. unfold deleteDeal. framed_auto. Qed.

Lemma framed_createContact contactData options :
  framed (createContact contactData options).
Proof. unfold createContact, transformContactToAPI. framed_auto. Qed.

Lemma framed_updateContact id contactData options :
  framed (updateContact id contactData options).
Proof. unfold updateContact, transformContactToAPI. framed_auto. Qed.

Lemma framed_deleteContact id options : framed (deleteContact id options).
Proof. unfold deleteContact. framed_auto. Qed.

#[local] Hint Resolve framed_updateDeal framed_deleteDeal framed_createContact
  framed_updateContact framed_deleteContact : framed.

Lemma framed_callMember fuel verb entityType data :
  framed (callMember fuel verb entityType data).
Proof. unfold callMember. framed_auto. Qed.

#[local] Hint Resolve framed_callMember : framed.

(** Replaying an entry leaves the entries of the queue in place and only
    pushes new ones; it changes neither the retry configuration nor the
    history. *)
Lemma framed_processOfflineItem fuel item :
  framed (processOfflineItem fuel item).
Proof. unfold processOfflineItem. framed_auto. Qed.


(** *** More fuel changes no result *)

Lemma extends_refl {A} (m : M A) : extends m m.
Proof. intros w _. reflexivity. Qed.

Lemma extends_stuck {A} (m : M A) : extends stuck m.
Proof. intros w H. exfalso. apply H. reflexivity. Qed.

Lemma extends_trans {A} (m1 m2 m3 : M A) :
  extends m1 m2 -> extends m2 m3 -> extends m1 m3.
Proof.
  intros H12 H23 w H. rewrite <- (H12 w H). apply H23.
  rewrite (H12 w H). exact H.
Qed.

Lemma extends_bind {A B} (m m' : M A) (k k' : A -> M B) :
  extends m m' -> (∀ a, extends (k a) (k' a)) ->
  extends (bind m k) (bind m' k').
Proof.
  intros Hm Hk w H. unfold bind in *. specialize (Hm w).
  destruct (m w) as [[a | e | ] w1] eqn:E; simpl in *.
  - rewrite Hm by discriminate. apply Hk. exact H.
  - rewrite Hm by discriminate. reflexivity.
  - exfalso. apply H. reflexivity.
Qed.

Lemma extends_tryCatch {A} (m m' : M A) (h h' : JsError -> M A) :
  extends m m' -> (∀ e, extends (h e) (h' e)) ->
  extends (tryCatch m h) (tryCatch m' h').
Proof.
  intros Hm Hh w H. unfold tryCatch in *. specialize (Hm w).
  destruct (m w) as [[a | e | ] w1] eqn:E; simpl in *.
  - rewrite Hm by discriminate. reflexivity.
  - rewrite Hm by discriminate. apply Hh. exact H.
  - exfalso. apply H. reflexivity.
Qed.

Ltac extends_step :=
  lazymatch goal with
  | |- extends ?m ?m => apply extends_refl
  | |- extends stuck _ => apply extends_stuck
  | |- extends (bind _ _) (bind _ _) => apply extends_bind; [ | intros ? ]
  | |- extends (tryCatch _ _) (tryCatch _ _) =>
      apply extends_tryCatch; [ | intros ? ]
  | |- extends (if ?b then _ else _) (if ?b then _ else _) => destruct b
  | |- extends (match ?x with _ => _ end) (match ?x with _ => _ end) =>
      destruct x
  | |- extends _ _ => solve [ auto ]
  end.

Ltac extends_auto := repeat extends_step.

Lemma updateDeal_more_fuel fuel :
  ∀ id dealData options,
    extends (updateDeal fuel id dealData options)
            (updateDeal (S fuel) id dealData options).
Proof.
  induction fuel as [|fuel IH]; intros id dealData options.
  - change (extends
              (updateDealWith (fun _ _ _ => stuck) id dealData options)
              (updateDealWith (handleUpdateConflictWith (updateDeal 0))
                              id dealData options)).
    unfold updateDealWith. extends_auto.
  - change (extends
              (updateDealWith (handleUpdateConflictWith (updateDeal fuel))
                              id dealData options)
              (updateDealWith (handleUpdateConflictWith (updateDeal (S fuel)))
                              id dealData options)).
    unfold updateDealWith, handleUpdateConflictWith. extends_auto.
Qed.

Lemma processOfflineItem_more_fuel fuel item :
  extends (processOfflineItem fuel item) (processOfflineItem (S fuel) item).
Proof.
  pose proof (updateDeal_more_fuel fuel) as Hu.
  unfold processOfflineItem, callMember. extends_auto.
Qed.

Lemma drainFrom_more_fuel fuel :
  ∀ i processedItems,
    extends (drainFrom fuel i processedItems)
            (drainFrom (S fuel) i processedItems).
Proof.
  induction fuel as [|fuel IH]; intros i p; [ apply extends_stuck | ].
  pose proof (processOfflineItem_more_fuel fuel) as Hp.
  change (extends
            (let! queue := gets offlineQueue in
             match queue !! i with
             | None => ret p
             | Some item =>
                 let! p' := drainEntry fuel i item p in
                 drainFrom fuel (S i) p'
             end)
            (let! queue := gets offlineQueue in
             match queue !! i with
             | None => ret p
             | Some item =>
                 let! p' := drainEntry (S fuel) i item p in
                 drainFrom (S fuel) (S i) p'
             end)).
  unfold drainEntry. extends_auto.
Qed.

(** A drain that completes with some fuel completes in the same way with
    any larger fuel: its result is that of the method. *)
Lemma processOfflineQueue_more_fuel fuel extra :
  extends (processOfflineQueue fuel) (processOfflineQueue (extra + fuel)).
Proof.
  induction extra as [|extra IH]; [ apply extends_refl | ].
  eapply extends_trans; [ exact IH | ].
  pose proof (drainFrom_more_fuel (extra + fuel)) as Hd.
  change (S extra + fuel)%nat with (S (extra + fuel)).
  unfold processOfflineQueue. extends_auto.
Qed.


(** A replay that meets an unreachable store does not throw: the method
    queues the operation again, as a new entry whose retries start at zero,
    behind the four records of its failed requests. *)
Example replay_requeues_when_unreachable :
  let w := connectedWorld (fun _ => Rejects (TypeError "Failed to fetch"))
                          [ queuedCreate 2 ] in
  let r := processOfflineItem 5 (queuedCreate 2) w in
  r.1 = Ok (RetObj (<["_offline" := VBool true]>
                      (<["id" := VStr "offline_1700000000011"]> bigDeal)))
  ∧ ((fun item => (operation item, retries item)) <$> offlineQueue r.2)
    = [ (Some "create", 2%nat); (None, 0%nat); (None, 0%nat); (None, 0%nat);
        (None, 0%nat); (Some "create", 0%nat) ].
Proof. split; vm_compute; reflexivity. Qed.

(** *** Network failures of a creation *)

(** The error that reaches the handler of [createDeal] after a failed request
    is the [APIError] wrapped around the message of the failure: whether it
    counts as a network error depends on that message alone, whatever the
    name of the original error. *)
Lemma wrapped_create_error (msg : string) (st : Z) :
  isNetworkError (APIError ("Failed to create deal: " +:+ msg) st)
  = includes "fetch" msg || includes "network" msg.
Proof. vm_compute. reflexivity. Qed.

(** The error that [getDeal] throws always counts as a network error: its
    own message contains "fetch".  So [updateDeal] and [deleteDeal], which
    start by reading the deal, queue their operation on any failure of that
    read. *)
Lemma wrapped_fetch_error (msg : string) (st : Z) :
  isNetworkError (APIError ("Failed to fetch deal: " +:+ msg) st) = true.
Proof. vm_compute. reflexivity. Qed.

(** What [handleUpdateConflict] reads as [resolution.resolved] under the
    strategy ['prompt'] is [undefined]: the resolution is a promise. *)
Lemma prompt_resolved_field (localData serverData : Obj) :
  resolvedField (Some localData) serverData "prompt" = ret None.
Proof. reflexivity. Qed.

(** C4, at the failing input: the request of [createDeal] is aborted by the
    timeout signal.  The method throws an [APIError] to its caller and
    queues nothing, whereas [updateDeal] on the same network queues the
    update and returns the optimistic record, and [createDeal] itself does so
    when the message of the failure happens to contain "fetch". *)
Theorem createDeal_timeout_reaches_caller :
  let down := connectedWorld (fun _ => Rejects timeoutError) [] in
  let created := createDeal (Some bigDeal) defaultOptions down in
  let updated := updateDeal 5 (VNum 7) (Some bigDeal) defaultOptions down in
  let unreachable :=
    connectedWorld (fun _ => Rejects (TypeError "Failed to fetch")) [] in
  let created' := createDeal (Some bigDeal) defaultOptions unreachable in
  created.1 = Throw (APIError "Failed to create deal: signal timed out" 0)
  ∧ offlineQueue created.2 = []
  ∧ updated.1
    = Ok (<["_offline" := VBool true]> (<["id" := VNum 7]> bigDeal))
  ∧ (operation <$> offlineQueue updated.2) = [ Some "update" ]
  ∧ created'.1
    = Ok (<["_offline" := VBool true]>
            (<["id" := VStr "offline_1700000000012"]> bigDeal))
  ∧ (operation <$> offlineQueue created'.2)
    = [ None; None; None; None; Some "create" ].
Proof.
  repeat split; vm_compute; reflexivity.
Qed.

End APIFacts.

(** ** Requests and their retries *)

Module RequestFacts.

Import API Requests.

#[local] Arguments bind : simpl never.
#[local] Arguments tryCatch : simpl never.
#[local] Arguments when : simpl never.
#[local] Arguments gets : simpl never.
#[local] Arguments modify : simpl never.
#[local] Arguments ret : simpl never.
#[local] Arguments throw : simpl never.
#[local] Arguments stuck : simpl never.

Lemma calm_refl (w : World) : calm w w.
Proof. repeat split. Qed.

Lemma calm_trans (w1 w2 w3 : World) : calm w1 w2 -> calm w2 w3 -> calm w1 w3.
Proof.
  intros (H1 & H2 & H3 & H4) (H5 & H6 & H7 & H8). repeat split; congruence.
Qed.

Lemma calmly_ret {A} (a : A) : calmly (ret a).
Proof. intros w. exists a, w. split; [ reflexivity | apply calm_refl ]. Qed.

Lemma calmly_gets {A} (f : World -> A) : calmly (gets f).
Proof. intros w. exists (f w), w. split; [ reflexivity | apply calm_refl ]. Qed.

Lemma calmly_modify (f : World -> World) :
  (∀ w, calm w (f w)) -> calmly (modify f).
Proof. intros H w. exists tt, (f w). split; [ reflexivity | apply H ]. Qed.

Lemma calmly_bind {A B} (m : M A) (k : A -> M B) :
  calmly m -> (∀ a, calmly (k a)) -> calmly (bind m k).
Proof.
  intros Hm Hk w. destruct (Hm w) as (a & w1 & E & H1).
  destruct (Hk a w1) as (b & w2 & E2 & H2).
  exists b, w2. unfold bind. rewrite E. split; [ exact E2 | ].
  eapply calm_trans; eassumption.
Qed.

Lemma calmly_when (b : bool) (m : M unit) : calmly m -> calmly (when b m).
Proof. intros H. destruct b; [ exact H | apply calmly_ret ]. Qed.

Lemma calmly_dateNow : calmly dateNow.
Proof. intros w. eexists _, _. split; [ reflexivity | repeat split ]. Qed.

Lemma calmly_mathRandom : calmly mathRandom.
Proof. intros w. eexists _, _. split; [ reflexivity | repeat split ]. Qed.

Create HintDb calmly.

#[local] Hint Resolve calmly_ret calmly_gets calmly_dateNow calmly_mathRandom
  : calmly.

Ltac calmly_step :=
  lazymatch goal with
  | |- calmly (bind _ _) => apply calmly_bind; [ | intros ? ]
  | |- calmly (when _ _) => apply calmly_when
  | |- calmly (modify _) => apply calmly_modify; intros ?; repeat split
  | |- calmly (emit _ _) => apply calmly_modify; intros ?; repeat split
  | |- calmly (logError _ _) => apply calmly_modify; intros ?; repeat split
  | |- calmly (if ?b then _ else _) => destruct b
  | |- calmly (match ?x with _ => _ end) => destruct x
  | |- calmly _ => solve [ auto with calmly ]
  end.

Ltac calmly_auto := repeat calmly_step.

Lemma calmly_generateId prefix : calmly (generateId prefix).
Proof. unfold generateId. calmly_auto. Qed.

#[local] Hint Resolve calmly_generateId : calmly.

(** [handleOfflineRequest] pushes one entry, and does not store the
    queue. *)
Lemma handleOfflineRequest_pushes method endpoint data w :
  ∃ item w',
    handleOfflineRequest method endpoint data w = (Ok tt, w')
    ∧ requestEntry method endpoint data item
    ∧ offlineQueue w' = offlineQueue w ++ [ item ]
    ∧ storedQueue w' = storedQueue w
    ∧ retryConfig w' = retryConfig w
    ∧ network w' = network w
    ∧ requests w' = requests w.
Proof.
  unfold handleOfflineRequest, generateId, emit, dateNow, mathRandom, bind,
    modify, gets, ret.
  eexists _, _. split; [ reflexivity | ].
  unfold requestEntry. repeat split; reflexivity.
Qed.

Lemma calmly_calculateRetryDelay n : calmly (calculateRetryDelay n).
Proof. unfold calculateRetryDelay. calmly_auto. Qed.

Lemma calmly_getCachedResponse key : calmly (getCachedResponse key).
Proof. unfold getCachedResponse. calmly_auto. Qed.

Lemma calmly_cleanupCache : calmly cleanupCache.
Proof. unfold cleanupCache. calmly_auto. Qed.

#[local] Hint Resolve calmly_calculateRetryDelay
  calmly_getCachedResponse calmly_cleanupCache : calmly.

Lemma calmly_setCachedResponse key data : calmly (setCachedResponse key data).
Proof. unfold setCachedResponse. calmly_auto. Qed.

#[local] Hint Resolve calmly_setCachedResponse : calmly.

(** *** Running a sequence *)

Lemma bind_eq {A B} (m : M A) (k : A -> M B) w a w1 :
  m w = (Ok a, w1) -> bind m k w = k a w1.
Proof. intros E. unfold bind. rewrite E. reflexivity. Qed.

Lemma bind_throw_eq {A B} (m : M A) (k : A -> M B) w e w1 :
  m w = (Throw e, w1) -> bind m k w = (Throw e, w1).
Proof. intros E. unfold bind. rewrite E. reflexivity. Qed.

Lemma tryCatch_ok_eq {A} (m : M A) (h : JsError -> M A) w a w1 :
  m w = (Ok a, w1) -> tryCatch m h w = (Ok a, w1).
Proof. intros E. unfold tryCatch. rewrite E. reflexivity. Qed.

Lemma tryCatch_throw_eq {A} (m : M A) (h : JsError -> M A) w e w1 :
  m w = (Throw e, w1) -> tryCatch m h w = h e w1.
Proof. intros E. unfold tryCatch. rewrite E. reflexivity. Qed.

(** *** One attempt *)

Lemma getCachedResponse_miss key w :
  cache_get key (cacheStorage w) = None ->
  getCachedResponse key w = (Ok None, w).
Proof.
  intros H. unfold getCachedResponse.
  rewrite (bind_eq (gets cacheEnabled) _ w (cacheEnabled w) w eq_refl).
  destruct (cacheEnabled w); [ | reflexivity ].
  change (negb true) with false. cbv iota.
  rewrite (bind_eq (gets cacheStorage) _ w (cacheStorage w) w eq_refl).
  rewrite H. reflexivity.
Qed.

Lemma not_consulted method endpoint data useCache w :
  (method =? "GET")%string && useCache = false ->
  missed method endpoint data useCache w.
Proof. intros H. left. rewrite H. reflexivity. Qed.

Lemma makeRequestFrom_eq budget method endpoint data retryCount useCache :
  makeRequestFrom budget method endpoint data retryCount useCache
  = (let cacheKey := (cacheKeyOf method endpoint data) in
     let isGet := String.eqb method "GET" in
     let! cached :=
       (let! enabled := gets cacheEnabled in
        if isGet && useCache && enabled then getCachedResponse cacheKey
        else ret None) in
     match cached with
     | Some cachedData => ret (RespOk cachedData None true)
     | None =>
         tryCatch
           (let! (st, statusText, responseData) := fetch method endpoint data in
            if negb (statusOk st) then
              throw (HTTPError ("HTTP " +:+ pretty st +:+ ": " +:+ statusText) st)
            else
              let! enabled := gets cacheEnabled in
              when (isGet && enabled) (setCachedResponse cacheKey responseData);;
              ret (RespOk responseData (Some st) false))
           (fun error =>
              logError ("API request failed (" +:+ method +:+ " " +:+ endpoint
                        +:+ "):") error;;
              when (isNetworkError error)
                   (handleOfflineRequest method endpoint data);;
              let! cfg := gets retryConfig in
              if (retryCount <? attempts cfg)%nat && shouldRetry error then
                let! delay := calculateRetryDelay retryCount in
                match budget with
                | S budget' =>
                    makeRequestFrom budget' method endpoint data (S retryCount)
                                    useCache
                | O => stuck
                end
              else
                ret (RespFail (message error) (default 0 (status error))))
     end).
Proof. destruct budget; reflexivity. Qed.

(** One attempt of [makeRequest]: a cached answer and no request, or one
    request, whose success is returned and whose failure is logged, queued
    if it counts as a network error, and then decided by [afterFailure]. *)
Lemma makeRequestFrom_attempt
    budget method endpoint data retryCount useCache w :
  ∃ cached w1,
    calm w w1
    ∧ (missed method endpoint data useCache w -> cached = None)
    ∧ match cached with
      | Some cachedData =>
          makeRequestFrom budget method endpoint data retryCount useCache w
          = (Ok (RespOk cachedData None true), w1)
      | None =>
          match attemptError (network w (length (requests w))) with
          | None =>
              ∃ st statusText responseData w2,
                network w (length (requests w))
                = Responds st statusText responseData
                ∧ retryConfig w2 = retryConfig w
                ∧ network w2 = network w
                ∧ requests w2
                  = requests w ++ [ sentRequest method endpoint data ]
                ∧ offlineQueue w2 = offlineQueue w
                ∧ makeRequestFrom budget method endpoint data retryCount
                                  useCache w
                  = (Ok (RespOk responseData (Some st) false), w2)
          | Some error =>
              ∃ w2,
                attempted method endpoint data error w w2
                ∧ makeRequestFrom budget method endpoint data retryCount
                                  useCache w
                  = afterFailure budget method endpoint data retryCount
                                 useCache error w2
          end
      end.
Proof.
  remember (makeRequestFrom budget method endpoint data retryCount useCache w)
    as result eqn:E.
  rewrite makeRequestFrom_eq in E. cbv zeta in E.
  match type of E with
  | _ = bind ?m _ w =>
      assert (Hcache : ∃ cached w1,
                 m w = (Ok cached, w1) ∧ calm w w1
                 ∧ (missed method endpoint data useCache w -> cached = None))
  end.
  { destruct ((method =? "GET")%string && useCache && cacheEnabled w)
      eqn:Hget.
    - destruct (cache_get (cacheKeyOf method endpoint data) (cacheStorage w))
        as [entry|] eqn:Hentry.
      + match goal with
        | |- ∃ _ _, ?m w = _ ∧ _ =>
            assert (Hm : calmly m) by calmly_auto
        end.
        destruct (Hm w) as (cached & w1 & E1 & H1).
        exists cached, w1. repeat split; try assumption; try apply H1.
        intros [H | H]; congruence.
      + exists None, w.
        split; [ | split; [ apply calm_refl | reflexivity ] ].
        rewrite (bind_eq (gets cacheEnabled) _ w (cacheEnabled w) w eq_refl).
        rewrite Hget. apply getCachedResponse_miss. exact Hentry.
    - exists None, w. split; [ | split; [ apply calm_refl | reflexivity ] ].
      rewrite (bind_eq (gets cacheEnabled) _ w (cacheEnabled w) w eq_refl).
      rewrite Hget. reflexivity. }
  destruct Hcache as (cached & w1 & Ecache & Hcalm & Hnone).
  rewrite (bind_eq _ _ _ _ _ Ecache) in E.
  exists cached, w1. split; [ exact Hcalm | split; [ exact Hnone | ] ].
  destruct cached as [cachedData|]; [ exact E | ].
  destruct Hcalm as (Hcfg & Hnet & Hreq & Hq).
  pose (wf := set_requests
                (requests w ++ [ sentRequest method endpoint data ]) w1).
  match type of E with
  | _ = tryCatch _ ?h w1 =>
      assert (Hh : ∀ error, ∃ w2,
                 attempted method endpoint data error w w2
                 ∧ h error wf
                   = afterFailure budget method endpoint data retryCount
                                  useCache error w2)
  end.
  { intros error. cbv beta.
    destruct (calmly_modify
                (fun w => set_consoleErrors
                   (consoleErrors w
                    ++ [ ("API request failed (" +:+ method +:+ " "
                          +:+ endpoint +:+ "):") +:+ " "
                         +:+ message error ]) w)
                (fun w => ltac:(repeat split)) wf)
      as ([] & wa & Ea & (Ha1 & Ha2 & Ha3 & Ha4)).
    change (modify _) with
      (logError ("API request failed (" +:+ method +:+ " " +:+ endpoint
                 +:+ "):") error) in Ea.
    rewrite (bind_eq _ _ _ _ _ Ea).
    assert (Hwhen : ∃ wb,
               when (isNetworkError error)
                    (handleOfflineRequest method endpoint data) wa
               = (Ok tt, wb)
               ∧ attempted method endpoint data error w wb).
    { unfold attempted. destruct (isNetworkError error).
      - destruct (handleOfflineRequest_pushes method endpoint data wa)
          as (item & wb & Eb & Hitem & Hb1 & _ & Hb2 & Hb3 & Hb4).
        exists wb. split; [ exact Eb | ].
        rewrite Hb2, Hb3, Hb4, Hb1, Ha1, Ha2, Ha3, Ha4. simpl.
        rewrite Hcfg, Hnet, Hq. repeat split. exists item. split; trivial.
      - exists wa. split; [ reflexivity | ].
        rewrite Ha1, Ha2, Ha3, Ha4. simpl. rewrite Hcfg, Hnet, Hq.
        repeat split. }
    destruct Hwhen as (wb & Eb & Hb).
    rewrite (bind_eq _ _ _ _ _ Eb).
    rewrite (bind_eq (gets retryConfig) _ wb (retryConfig wb) wb eq_refl).
    unfold afterFailure.
    destruct ((retryCount <? attempts (retryConfig wb))%nat
              && shouldRetry error) eqn:Hc.
    - destruct (calmly_calculateRetryDelay retryCount wb)
        as (delay & wc & Ec & (Hc1 & Hc2 & Hc3 & Hc4)).
      rewrite (bind_eq _ _ _ _ _ Ec).
      exists wc. split.
      + unfold attempted in *. rewrite Hc1, Hc2, Hc3, Hc4. exact Hb.
      + rewrite Hc1, Hc. destruct budget; reflexivity.
    - exists wb. split; [ exact Hb | ]. rewrite Hc. reflexivity. }
  assert (Hfetch : fetch method endpoint data w1
                   = match network w (length (requests w)) with
                     | Rejects e => (Throw e, wf)
                     | Responds st tx d => (Ok (st, tx, d), wf)
                     end).
  { unfold fetch. rewrite Hnet, Hreq. reflexivity. }
  destruct (network w (length (requests w))) as [e | st tx d]; simpl.
  - rewrite (tryCatch_throw_eq _ _ _ _ _ (bind_throw_eq _ _ _ _ _ Hfetch))
      in E.
    destruct (Hh e) as (w2 & H2 & Eh).
    exists w2. split; [ exact H2 | ]. rewrite E. exact Eh.
  - destruct (statusOk st) eqn:Hok.
    + match type of E with
      | _ = tryCatch ?body _ w1 =>
          assert (Hbody : ∃ w2, calm wf w2
                    ∧ body w1 = (Ok (RespOk d (Some st) false), w2))
      end.
      { rewrite (bind_eq _ _ _ _ _ Hfetch). rewrite Hok.
        change (negb true) with false. cbv iota.
        rewrite (bind_eq (gets cacheEnabled) _ wf (cacheEnabled wf) wf eq_refl).
        destruct (calmly_when ((method =? "GET")%string && cacheEnabled wf) _
                    (calmly_setCachedResponse (cacheKeyOf method endpoint data) d) wf)
          as ([] & w2 & E2 & H2).
        exists w2. split; [ exact H2 | ].
        rewrite (bind_eq _ _ _ _ _ E2). reflexivity. }
      destruct Hbody as (w2 & (H1 & H2 & H3 & H4) & Eb).
      rewrite (tryCatch_ok_eq _ _ _ _ _ Eb) in E.
      exists st, tx, d, w2. rewrite H1, H2, H3, H4. simpl.
      rewrite Hcfg, Hnet, Hq. repeat split. exact E.
    + match type of E with
      | _ = tryCatch ?body _ w1 =>
          assert (Hbody :
                    body w1
                    = (Throw (HTTPError ("HTTP " +:+ pretty st +:+ ": "
                                         +:+ tx) st), wf))
      end.
      { rewrite (bind_eq _ _ _ _ _ Hfetch). rewrite Hok. reflexivity. }
      rewrite (tryCatch_throw_eq _ _ _ _ _ Hbody) in E.
      destruct (Hh (HTTPError ("HTTP " +:+ pretty st +:+ ": " +:+ tx) st))
        as (w2 & H2 & Eh).
      exists w2. split; [ exact H2 | ]. rewrite E. exact Eh.
Qed.

(** *** The retries of a request *)

Lemma makeRequestFrom_answers_step
    budget method endpoint data useCache retryCount w :
  (∀ w2, retryConfig w2 = retryConfig w ->
         (retryCount < attempts (retryConfig w))%nat ->
     ∃ response w' n,
       match budget with
       | S budget' =>
           makeRequestFrom budget' method endpoint data (S retryCount)
                           useCache w2
       | O => (Stuck, w2)
       end = (Ok response, w')
       ∧ (n <= attempts (retryConfig w) - retryCount)%nat
       ∧ requests w'
         = requests w2 ++ replicate n (sentRequest method endpoint data)) ->
  ∃ response w' n,
    makeRequestFrom budget method endpoint data retryCount useCache w
    = (Ok response, w')
    ∧ (n <= S (attempts (retryConfig w) - retryCount))%nat
    ∧ requests w'
      = requests w ++ replicate n (sentRequest method endpoint data).
Proof.
  intros Hnext.
  destruct (makeRequestFrom_attempt budget method endpoint data retryCount
              useCache w)
    as (cached & w1 & (_ & _ & Hreq & _) & _ & H).
  destruct cached as [cachedData|].
  { exists (RespOk cachedData None true), w1, 0%nat.
    rewrite Hreq, app_nil_r. repeat split; [ exact H | lia ]. }
  destruct (attemptError (network w (length (requests w)))) as [e|].
  - destruct H as (w2 & (Hcfg & Hnet & Hreq2 & _) & H).
    assert (Hfail :
      ∃ response w' n,
        afterFailure budget method endpoint data retryCount useCache e w2
        = (Ok response, w')
        ∧ (n <= attempts (retryConfig w) - retryCount)%nat
        ∧ requests w'
          = requests w2 ++ replicate n (sentRequest method endpoint data)).
    { unfold afterFailure. rewrite Hcfg.
      destruct ((retryCount <? attempts (retryConfig w))%nat && shouldRetry e)
        eqn:Hc.
      - apply andb_true_iff in Hc as [Hlt _]. apply Nat.ltb_lt in Hlt.
        apply Hnext; assumption.
      - exists (RespFail (message e) (default 0 (status e))), w2, 0%nat.
        rewrite app_nil_r. repeat split. lia. }
    destruct Hfail as (response & w' & n & E & Hn & Hr).
    exists response, w', (S n). rewrite H, Hr, Hreq2, <- app_assoc.
    repeat split; [ exact E | lia ].
  - destruct H as (st & tx & d & w2 & _ & _ & _ & Hreq2 & _ & H).
    exists (RespOk d (Some st) false), w2, 1%nat. rewrite H, Hreq2.
    repeat split. lia.
Qed.

Lemma makeRequestFrom_answers budget method endpoint data useCache :
  ∀ retryCount w,
    (attempts (retryConfig w) - retryCount <= budget)%nat ->
    ∃ response w' n,
      makeRequestFrom budget method endpoint data retryCount useCache w
      = (Ok response, w')
      ∧ (n <= S (attempts (retryConfig w) - retryCount))%nat
      ∧ requests w'
        = requests w ++ replicate n (sentRequest method endpoint data).
Proof.
  induction budget as [|budget IH]; intros retryCount w Hb;
    apply makeRequestFrom_answers_step; intros w2 Hcfg Hlt; [ lia | ].
  destruct (IH (S retryCount) w2) as (response & w' & n & E & Hn & Hr);
    [ rewrite Hcfg; lia | ].
  exists response, w', n. rewrite Hcfg in Hn.
  repeat split; [ exact E | lia | exact Hr ].
Qed.

(** X1: [makeRequest] always returns a response object: it neither throws nor
    needs more retries than its budget.  It sends the same request each
    time, at most once more than the retries left,
    [attempts - retryCount + 1] times. *)
Theorem makeRequest_answers_within_budget
    method endpoint data retryCount useCache w :
  ∃ response w' n,
    makeRequest method endpoint data retryCount useCache w = (Ok response, w')
    ∧ (n <= S (attempts (retryConfig w) - retryCount))%nat
    ∧ requests w'
      = requests w ++ replicate n (sentRequest method endpoint data).
Proof.
  unfold makeRequest. apply makeRequestFrom_answers. lia.
Qed.

(** What no request changes: the records kept for offline use. *)
Lemma keeps_ret {A B} (f : World -> B) (a : A) : keeps f (ret a).
Proof. intros w. reflexivity. Qed.

Lemma keeps_throw {A B} (f : World -> B) e : keeps f (@throw A e).
Proof. intros w. reflexivity. Qed.

Lemma keeps_stuck {A B} (f : World -> B) : keeps f (@stuck A).
Proof. intros w. reflexivity. Qed.

Lemma keeps_gets {A B} (f : World -> B) (g : World -> A) : keeps f (gets g).
Proof. intros w. reflexivity. Qed.

Lemma keeps_bind {A B C} (f : World -> C) (m : M A) (k : A -> M B) :
  keeps f m -> (∀ a, keeps f (k a)) -> keeps f (bind m k).
Proof.
  intros Hm Hk w. unfold bind. specialize (Hm w).
  destruct (m w) as [[a | e | ] w1]; simpl in *; try assumption.
  rewrite Hk. exact Hm.
Qed.

Lemma keeps_tryCatch {A C} (f : World -> C) (m : M A) (h : JsError -> M A) :
  keeps f m -> (∀ e, keeps f (h e)) -> keeps f (tryCatch m h).
Proof.
  intros Hm Hh w. unfold tryCatch. specialize (Hm w).
  destruct (m w) as [[a | e | ] w1]; simpl in *; try assumption.
  rewrite Hh. exact Hm.
Qed.

Lemma keeps_when {C} (f : World -> C) (b : bool) (m : M unit) :
  keeps f m -> keeps f (when b m).
Proof. intros H. destruct b; [ exact H | apply keeps_ret ]. Qed.

Ltac keeps_step :=
  lazymatch goal with
  | |- keeps _ (bind _ _) => apply keeps_bind; [ | intros ? ]
  | |- keeps _ (tryCatch _ _) => apply keeps_tryCatch; [ | intros ? ]
  | |- keeps _ (when _ _) => apply keeps_when
  | |- keeps _ (ret _) => apply keeps_ret
  | |- keeps _ (throw _) => apply keeps_throw
  | |- keeps _ stuck => apply keeps_stuck
  | |- keeps _ (gets _) => apply keeps_gets
  | |- keeps _ (if ?b then _ else _) => destruct b
  | |- keeps _ (match ?x with _ => _ end) => destruct x
  | |- keeps _ _ => solve [ auto | intros ?; reflexivity ]
  end.

Ltac keeps_auto := repeat keeps_step.

Lemma keeps_offlineData_fetch method endpoint data :
  keeps offlineData (fetch method endpoint data).
Proof. intros w. unfold fetch. destruct (network w _); reflexivity. Qed.

Lemma keeps_offlineData_makeRequestFrom budget :
  ∀ method endpoint data retryCount useCache,
    keeps offlineData
          (makeRequestFrom budget method endpoint data retryCount useCache).
Proof.
  pose proof keeps_offlineData_fetch as Hf.
  induction budget as [|budget IH]; intros; simpl;
    unfold getCachedResponse, setCachedResponse, cleanupCache, logError,
      handleOfflineRequest, calculateRetryDelay, generateId, emit;
    keeps_auto.
Qed.

Lemma keeps_offlineData_makeRequest method endpoint data retryCount useCache :
  keeps offlineData (makeRequest method endpoint data retryCount useCache).
Proof. intros w. unfold makeRequest. apply keeps_offlineData_makeRequestFrom. Qed.

(** An attempt that fails with a status that is not retried. *)
Lemma makeRequest_single_attempt
    method endpoint data retryCount useCache w st statusText responseData :
  missed method endpoint data useCache w ->
  network w (length (requests w)) = Responds st statusText responseData ->
  statusOk st = false ->
  st < 500 -> st ≠ 408 -> st ≠ 409 -> st ≠ 429 ->
  ∃ w',
    makeRequest method endpoint data retryCount useCache w
    = (Ok (RespFail ("HTTP " +:+ pretty st +:+ ": " +:+ statusText) st), w')
    ∧ requests w' = requests w ++ [ sentRequest method endpoint data ].
Proof.
  intros Hmiss Hnet Hok H500 H408 H409 H429. unfold makeRequest.
  destruct (makeRequestFrom_attempt
              (attempts (retryConfig w) - retryCount) method endpoint data
              retryCount useCache w)
    as (cached & w1 & _ & Hnone & H).
  rewrite (Hnone Hmiss) in H.
  rewrite Hnet in H. simpl in H. rewrite Hok in H.
  destruct H as (w2 & (_ & _ & Hreq & _) & H).
  exists w2. split; [ | exact Hreq ]. rewrite H. unfold afterFailure.
  replace (shouldRetry _) with false; [ rewrite andb_false_r; reflexivity | ].
  unfold shouldRetry. simpl.
  repeat (symmetry; apply orb_false_intro; symmetry); symmetry; lia.
Qed.

(** X2: a request that the cache has no answer for and whose response has a
    status that is neither a success, nor a server error (500 and above),
    nor 408, 409 or 429, is sent once and never retried: [makeRequest]
    returns the failure with the message [HTTP <status>: <statusText>] and
    that status. *)
Theorem client_error_is_not_retried
    method endpoint data retryCount useCache w st statusText responseData :
  missed method endpoint data useCache w ->
  network w (length (requests w)) = Responds st statusText responseData ->
  statusOk st = false ->
  st < 500 -> st ≠ 408 -> st ≠ 409 -> st ≠ 429 ->
  ∃ w',
    makeRequest method endpoint data retryCount useCache w
    = (Ok (RespFail ("HTTP " +:+ pretty st +:+ ": " +:+ statusText) st), w')
    ∧ requests w' = requests w ++ [ sentRequest method endpoint data ].
Proof. apply makeRequest_single_attempt. Qed.

Lemma client_error_is_not_retried_witness :
  ∃ w',
    makeRequest "POST" "/api/v1/db/data/noco/crm/deals" (Some bigDeal) 0 true
      (connectedWorld (answers [ Responds 422 "Unprocessable Entity" ∅ ]) [])
    = (Ok (RespFail ("HTTP " +:+ pretty 422 +:+ ": "
                     +:+ "Unprocessable Entity") 422), w')
    ∧ requests w'
      = requests (connectedWorld
                    (answers [ Responds 422 "Unprocessable Entity" ∅ ]) [])
        ++ [ sentRequest "POST" "/api/v1/db/data/noco/crm/deals"
                         (Some bigDeal) ].
Proof.
  apply (client_error_is_not_retried
           "POST" "/api/v1/db/data/noco/crm/deals" (Some bigDeal) 0 true
           (connectedWorld (answers [ Responds 422 "Unprocessable Entity" ∅ ])
                           [])
           422 "Unprocessable Entity" ∅);
    [ left; reflexivity | reflexivity | reflexivity | lia | lia | lia | lia ].
Defined.

Lemma makeRequestFrom_gives_up budget method endpoint data useCache error :
  (method =? "GET")%string && useCache = false ->
  isNetworkError error = true ->
  shouldRetry error = true ->
  ∀ retryCount w,
    (∀ n, network w n = Rejects error) ->
    (retryCount <= attempts (retryConfig w))%nat ->
    (attempts (retryConfig w) - retryCount <= budget)%nat ->
    ∃ w' queued,
      makeRequestFrom budget method endpoint data retryCount useCache w
      = (Ok (RespFail (message error) (default 0 (status error))), w')
      ∧ requests w'
        = requests w
          ++ replicate (S (attempts (retryConfig w) - retryCount))
                       (sentRequest method endpoint data)
      ∧ offlineQueue w' = offlineQueue w ++ queued
      ∧ length queued = S (attempts (retryConfig w) - retryCount)
      ∧ Forall (requestEntry method endpoint data) queued.
Proof.
  intros Hmiss Hnetwork Hretry.
  induction budget as [|budget IH]; intros retryCount w Hnet Hle Hb;
    lazymatch goal with
    | |- context [ makeRequestFrom ?b _ _ _ _ _ _ ] =>
        destruct (makeRequestFrom_attempt b method endpoint data
                    retryCount useCache w)
          as (cached & w1 & _ & Hnone & H)
    end;
    rewrite (Hnone (not_consulted _ _ _ _ _ Hmiss)), Hnet in H;
    change (attemptError (Rejects error)) with (Some error) in H; cbv iota in H;
    destruct H as (w2 & (Hcfg & Hnet2 & Hreq & Hq) & H);
    rewrite Hnetwork in Hq; destruct Hq as (item & Hq & Hitem);
    rewrite H; unfold afterFailure; rewrite Hcfg, Hretry, andb_true_r;
    destruct (retryCount <? attempts (retryConfig w))%nat eqn:Hlt;
    [ apply Nat.ltb_lt in Hlt | apply Nat.ltb_ge in Hlt
    | apply Nat.ltb_lt in Hlt | apply Nat.ltb_ge in Hlt ].
  - lia.
  - exists w2, [ item ].
    replace (attempts (retryConfig w) - retryCount)%nat with 0%nat by lia.
    repeat split; try assumption. constructor; [ exact Hitem | constructor ].
  - destruct (IH (S retryCount) w2) as (w' & queued & E & Hr & Hq' & Hl & Hf);
      [ intros n; rewrite Hnet2; apply Hnet | rewrite Hcfg; lia
      | rewrite Hcfg; lia | ].
    exists w', (item :: queued). rewrite Hcfg in Hr, Hl.
    split; [ exact E | ]. split; [ | split; [ | split ] ].
    + rewrite Hr, Hreq, <- app_assoc.
      replace (S (attempts (retryConfig w) - retryCount))
        with (S (S (attempts (retryConfig w) - S retryCount))) by lia.
      reflexivity.
    + rewrite Hq', Hq, <- app_assoc. reflexivity.
    + simpl. rewrite Hl. lia.
    + constructor; assumption.
  - exists w2, [ item ].
    replace (attempts (retryConfig w) - retryCount)%nat with 0%nat by lia.
    repeat split; try assumption. constructor; [ exact Hitem | constructor ].
Qed.

(** X3: while the network refuses a request with an error that counts as a
    network error, [makeRequest] sends the request once more than its
    retries, [attempts - retryCount + 1] times, and queues it as often: each
    failed attempt pushes an entry of its own onto the offline queue.  Then
    the failure is returned. *)
Theorem makeRequest_gives_up_after_budget
    method endpoint data retryCount useCache error w :
  (method =? "GET")%string && useCache = false ->
  isNetworkError error = true ->
  shouldRetry error = true ->
  (∀ n, network w n = Rejects error) ->
  (retryCount <= attempts (retryConfig w))%nat ->
  ∃ w' queued,
    makeRequest method endpoint data retryCount useCache w
    = (Ok (RespFail (message error) (default 0 (status error))), w')
    ∧ requests w'
      = requests w
        ++ replicate (S (attempts (retryConfig w) - retryCount))
                     (sentRequest method endpoint data)
    ∧ offlineQueue w' = offlineQueue w ++ queued
    ∧ length queued = S (attempts (retryConfig w) - retryCount)
    ∧ Forall (requestEntry method endpoint data) queued.
Proof.
  intros Hmiss Hnetwork Hretry Hnet Hle. unfold makeRequest.
  apply makeRequestFrom_gives_up; try assumption. lia.
Qed.

Lemma makeRequest_gives_up_after_budget_witness :
  ∃ w' queued,
    makeRequest "PATCH" "/api/v1/db/data/noco/crm/deals/7" (Some bigDeal) 0
      true (connectedWorld unreachable [])
    = (Ok (RespFail (message failedToFetch)
                    (default 0 (status failedToFetch))), w')
    ∧ requests w'
      = requests (connectedWorld unreachable [])
        ++ replicate
             (S (attempts (retryConfig (connectedWorld unreachable [])) - 0))
             (sentRequest "PATCH" "/api/v1/db/data/noco/crm/deals/7"
                          (Some bigDeal))
    ∧ offlineQueue w' = offlineQueue (connectedWorld unreachable []) ++ queued
    ∧ length queued
      = S (attempts (retryConfig (connectedWorld unreachable [])) - 0)
    ∧ Forall (requestEntry "PATCH" "/api/v1/db/data/noco/crm/deals/7"
                           (Some bigDeal)) queued.
Proof.
  apply (makeRequest_gives_up_after_budget
           "PATCH" "/api/v1/db/data/noco/crm/deals/7" (Some bigDeal) 0 true
           failedToFetch (connectedWorld unreachable []));
    [ reflexivity | reflexivity | reflexivity | intros n; reflexivity
    | simpl; lia ].
Defined.

(** X4: [handleOfflineRequest] pushes one entry onto the offline queue
    without storing the queue, and the entry has no operation, so replaying
    it always throws [Unknown operation: undefined] and changes nothing:
    a queued request is never sent again by the drain. *)
Theorem queued_request_is_never_replayed method endpoint data w :
  ∃ item w',
    handleOfflineRequest method endpoint data w = (Ok tt, w')
    ∧ offlineQueue w' = offlineQueue w ++ [ item ]
    ∧ storedQueue w' = storedQueue w
    ∧ ∀ fuel w1,
        processOfflineItem fuel item w1
        = (Throw (Error "Unknown operation: undefined"), w1).
Proof.
  destruct (handleOfflineRequest_pushes method endpoint data w)
    as (item & w' & E & (Hop & _) & Hq & Hs & _).
  exists item, w'. repeat split; try assumption.
  intros fuel w1. unfold processOfflineItem. rewrite Hop. reflexivity.
Qed.

(** X5: an entry queued for the entity type [companies] cannot be replayed:
    the member that [processOfflineItem] looks up is named after
    [companie], which no method is, so the replay throws a [TypeError]
    before anything is sent and leaves the state as it was. *)
Theorem company_entries_cannot_be_replayed fuel item w :
  entityType item = Some "companies" ->
  operation item ∈ [ Some "create"; Some "update"; Some "delete" ] ->
  ∃ error,
    processOfflineItem fuel item w = (Throw error, w)
    ∧ name error = "TypeError".
Proof.
  intros Hty Hop. unfold processOfflineItem, callMember. rewrite Hty.
  assert (Hcases : operation item = Some "create"
                   ∨ operation item = Some "update"
                   ∨ operation item = Some "delete").
  { rewrite !elem_of_cons in Hop.
    destruct Hop as [H | [H | [H | H]]]; auto. inversion H. }
  destruct Hcases as [-> | [-> | ->]]; destruct (data item) as [d|];
    eexists; (split; [ vm_compute; reflexivity | reflexivity ]).
Qed.

Lemma company_entries_cannot_be_replayed_witness :
  ∃ error,
    processOfflineItem 5 queuedCompany (connectedWorld unreachable [])
    = (Throw error, connectedWorld unreachable [])
    ∧ name error = "TypeError".
Proof.
  apply (company_entries_cannot_be_replayed
           5 queuedCompany (connectedWorld unreachable []));
    [ reflexivity | constructor ].
Defined.

End RequestFacts.

(** ** The response cache *)

Module CacheFacts.

Import API Requests RequestFacts.

#[local] Arguments bind : simpl never.
#[local] Arguments tryCatch : simpl never.
#[local] Arguments when : simpl never.
#[local] Arguments gets : simpl never.
#[local] Arguments modify : simpl never.
#[local] Arguments ret : simpl never.
#[local] Arguments throw : simpl never.

Lemma cache_get_set key e st : cache_get key (cache_set key e st) = Some e.
Proof.
  induction st as [|[k e'] st IH]; simpl.
  - rewrite decide_True by reflexivity. reflexivity.
  - destruct (decide (k = key)) as [-> | Hne]; simpl.
    + rewrite decide_True by reflexivity. reflexivity.
    + rewrite decide_False by exact Hne. exact IH.
Qed.

Lemma cache_get_set_ne key key' e st :
  key' ≠ key -> cache_get key' (cache_set key e st) = cache_get key' st.
Proof.
  intros Hne. induction st as [|[k e'] st IH]; simpl.
  - rewrite decide_False by congruence. reflexivity.
  - destruct (decide (k = key)) as [-> | Hk]; simpl.
    + rewrite !decide_False by congruence. reflexivity.
    + destruct (decide (k = key')); [ reflexivity | exact IH ].
Qed.

(** Dropping entries by their age keeps the entry just written, if it is
    young enough. *)
Lemma cache_get_filter_set (P : CacheKey * CacheEntry -> Prop)
    `{∀ ke, Decision (P ke)} key e st :
  (∀ k, P (k, e)) ->
  cache_get key (filter P (cache_set key e st)) = Some e.
Proof.
  intros HP. induction st as [|[k e'] st IH]; simpl.
  - rewrite filter_cons_True by apply HP. simpl.
    rewrite decide_True by reflexivity. reflexivity.
  - destruct (decide (k = key)) as [-> | Hne].
    + rewrite filter_cons_True by apply HP. simpl.
      rewrite decide_True by reflexivity. reflexivity.
    + destruct (decide (P (k, e'))) as [HP' | HP'].
      * rewrite filter_cons_True by exact HP'. simpl.
        rewrite decide_False by exact Hne. exact IH.
      * rewrite filter_cons_False by exact HP'. exact IH.
Qed.

Lemma cache_get_delete key st : cache_get key (cache_delete key st) = None.
Proof.
  unfold cache_delete. induction st as [|[k e] st IH]; [ reflexivity | ].
  destruct (decide (k = key)) as [-> | Hne].
  - rewrite filter_cons_False by (simpl; tauto). exact IH.
  - rewrite filter_cons_True by exact Hne. simpl.
    rewrite decide_False by exact Hne. exact IH.
Qed.

(** Storing a response and looking it up. *)
Lemma setCachedResponse_then_get key data w :
  cacheEnabled w = true ->
  time w (S (ticks w)) - time w (ticks w) <= cacheTtl w ->
  ∃ w1 w2,
    setCachedResponse key data w = (Ok tt, w1)
    ∧ getCachedResponse key w1
      = (Ok (if time w (S (S (ticks w))) - time w (ticks w) >? cacheTtl w
             then None else Some data), w2)
    ∧ cacheEnabled w1 = true ∧ requests w1 = requests w
    ∧ requests w2 = requests w
    ∧ (time w (S (S (ticks w))) - time w (ticks w) > cacheTtl w ->
       cache_get key (cacheStorage w2) = None).
Proof.
  intros Hen Hfresh.
  pose (w1 := set_cacheStorage
                (filter (fun ke : CacheKey * CacheEntry =>
                           ¬ (time w (S (ticks w)) - ke.2.2 > cacheTtl w))
                        (cache_set key (data, time w (ticks w))
                                   (cacheStorage w)))
                (set_ticks (S (S (ticks w))) w)).
  assert (E1 : setCachedResponse key data w = (Ok tt, w1)).
  { unfold setCachedResponse, cleanupCache, dateNow, bind, gets, modify, ret.
    rewrite Hen. reflexivity. }
  assert (Hget : cache_get key (cacheStorage w1)
                 = Some (data, time w (ticks w))).
  { apply (cache_get_filter_set
             (fun ke : CacheKey * CacheEntry =>
                ¬ (time w (S (ticks w)) - ke.2.2 > cacheTtl w))).
    intros k. simpl. lia. }
  assert (Hen1 : cacheEnabled w1 = true) by exact Hen.
  assert (Htime : time w1 (ticks w1) = time w (S (S (ticks w))))
    by reflexivity.
  assert (Httl : cacheTtl w1 = cacheTtl w) by reflexivity.
  assert (Hreq : requests w1 = requests w) by reflexivity.
  clearbody w1. exists w1.
  unfold getCachedResponse, dateNow, bind, gets, modify, ret. simpl.
  rewrite Hen1. simpl.
  rewrite Hget, Htime, Httl. simpl.
  destruct (time w (S (S (ticks w))) - time w (ticks w) >? cacheTtl w) eqn:Hx.
  - eexists. repeat split; try assumption. intros _. simpl.
    apply cache_get_delete.
  - eexists. repeat split; try assumption. intros Hgt.
    rewrite Z.gtb_ltb in Hx. apply Z.ltb_ge in Hx. lia.
Qed.

(** X6: with the cache enabled, a response stored by [setCachedResponse] is
    returned by the next [getCachedResponse] for the same key as long as its
    age at that reading of the clock does not exceed the time to live; once
    it does, the lookup misses and the entry is gone from the cache.  (The
    entry must survive the cleanup that [setCachedResponse] itself runs one
    clock reading after the store.) *)
Theorem cached_response_round_trip key data w :
  cacheEnabled w = true ->
  time w (S (ticks w)) - time w (ticks w) <= cacheTtl w ->
  ∃ w',
    (setCachedResponse key data;; getCachedResponse key) w
    = (Ok (if time w (S (S (ticks w))) - time w (ticks w) >? cacheTtl w
           then None else Some data), w')
    ∧ (time w (S (S (ticks w))) - time w (ticks w) > cacheTtl w ->
       cache_get key (cacheStorage w') = None).
Proof.
  intros Hen Hfresh.
  destruct (setCachedResponse_then_get key data w Hen Hfresh)
    as (w1 & w2 & E1 & E2 & _ & _ & _ & Hgone).
  exists w2. split; [ | exact Hgone ].
  unfold bind. rewrite E1. exact E2.
Qed.

Lemma cached_response_round_trip_witness :
  ∃ w',
    (setCachedResponse dealsKey storedDeal;; getCachedResponse dealsKey)
      (connectedWorld unreachable [])
    = (Ok (if time (connectedWorld unreachable [])
                   (S (S (ticks (connectedWorld unreachable []))))
              - time (connectedWorld unreachable [])
                     (ticks (connectedWorld unreachable []))
              >? cacheTtl (connectedWorld unreachable [])
           then None else Some storedDeal), w')
    ∧ (time (connectedWorld unreachable [])
            (S (S (ticks (connectedWorld unreachable []))))
       - time (connectedWorld unreachable [])
              (ticks (connectedWorld unreachable []))
       > cacheTtl (connectedWorld unreachable []) ->
       cache_get dealsKey (cacheStorage w') = None).
Proof.
  apply (cached_response_round_trip dealsKey storedDeal
           (connectedWorld unreachable []));
    [ reflexivity | simpl; lia ].
Defined.

(** X7: with the cache enabled and no entry for the endpoint yet, whatever
    the data of its key, a [GET] without data, as the methods of the class
    make them, which the store answers with an object is sent once; when the
    same [GET] is made again while the entry is young enough, it is answered
    from the cache with the object of the first response and no second
    request is sent. *)
Theorem repeated_get_is_served_from_cache
    endpoint w st statusText (responseData : Obj) :
  cacheEnabled w = true ->
  (∀ keyed, cache_get (cacheKeyOf "GET" endpoint keyed) (cacheStorage w) = None) ->
  network w (length (requests w)) = Responds st statusText responseData ->
  statusOk st = true ->
  time w (S (ticks w)) - time w (ticks w) <= cacheTtl w ->
  time w (S (S (ticks w))) - time w (ticks w) <= cacheTtl w ->
  ∃ w1 w2,
    makeRequest "GET" endpoint None 0 true w
    = (Ok (RespOk responseData (Some st) false), w1)
    ∧ makeRequest "GET" endpoint None 0 true w1
      = (Ok (RespOk responseData None true), w2)
    ∧ requests w2 = requests w ++ [ sentRequest "GET" endpoint None ].
Proof.
  intros Hen Hnone Hnet Hok H1 H2.
  pose proof (Hnone None) as Hmiss. clear Hnone. revert Hmiss.
  generalize (@None Obj). intros data Hmiss.
  pose (wf := set_requests
                (requests w ++ [ sentRequest "GET" endpoint data ]) w).
  destruct (setCachedResponse_then_get (cacheKeyOf "GET" endpoint data) responseData wf
              Hen H1)
    as (w1 & w2 & E1 & E2 & Hen1 & Hreq1 & Hreq2 & _).
  replace (_ >? _) with false in E2
    by (symmetry; rewrite Z.gtb_ltb; apply Z.ltb_ge; simpl; lia).
  exists w1, w2. split; [ | split ].
  - unfold makeRequest. rewrite makeRequestFrom_eq. cbv zeta.
    assert (Ec : (let! enabled := gets cacheEnabled in
                  if ("GET" =? "GET")%string && true && enabled
                  then getCachedResponse (cacheKeyOf "GET" endpoint data)
                  else ret None) w = (Ok None, w)).
    { unfold getCachedResponse. unfold bind, gets, ret. simpl.
      rewrite Hen. simpl. rewrite Hen. simpl. rewrite Hmiss. reflexivity. }
    rewrite (bind_eq _ _ _ _ _ Ec).
    apply tryCatch_ok_eq.
    assert (Ef : fetch "GET" endpoint data w
                 = (Ok (st, statusText, responseData), wf)).
    { unfold fetch. rewrite Hnet. reflexivity. }
    rewrite (bind_eq _ _ _ _ _ Ef). rewrite Hok.
    change (negb true) with false. cbv iota.
    rewrite (bind_eq (gets cacheEnabled) _ wf (cacheEnabled wf) wf eq_refl).
    replace (cacheEnabled wf) with true by (symmetry; exact Hen).
    change (when (("GET" =? "GET")%string && true) ?m) with m.
    rewrite (bind_eq _ _ _ _ _ E1). reflexivity.
  - unfold makeRequest. rewrite makeRequestFrom_eq. cbv zeta.
    assert (Ec : (let! enabled := gets cacheEnabled in
                  if ("GET" =? "GET")%string && true && enabled
                  then getCachedResponse (cacheKeyOf "GET" endpoint data)
                  else ret None) w1 = (Ok (Some responseData), w2)).
    { unfold bind at 1, gets at 1. rewrite Hen1. exact E2. }
    rewrite (bind_eq _ _ _ _ _ Ec). reflexivity.
  - rewrite Hreq2. reflexivity.
Qed.

Lemma repeated_get_is_served_from_cache_witness :
  ∃ w1 w2,
    makeRequest "GET" "/api/v1/db/data/noco/crm/deals" None 0 true
      (connectedWorld answering [])
    = (Ok (RespOk storedDeal (Some 200) false), w1)
    ∧ makeRequest "GET" "/api/v1/db/data/noco/crm/deals" None 0 true w1
      = (Ok (RespOk storedDeal None true), w2)
    ∧ requests w2
      = requests (connectedWorld answering [])
        ++ [ sentRequest "GET" "/api/v1/db/data/noco/crm/deals" None ].
Proof.
  apply (repeated_get_is_served_from_cache
           "/api/v1/db/data/noco/crm/deals"
           (connectedWorld answering []) 200 "OK" storedDeal);
    [ reflexivity | intros keyed; reflexivity | reflexivity | reflexivity
    | simpl; lia | simpl; lia ].
Defined.

End CacheFacts.

(** ** Records on their way to the store and back *)

Module TransformFacts.

Import API.

Lemma get_insert_eq (o : Obj) k v : get (<[k := v]> o) k = v.
Proof. unfold get. rewrite lookup_insert_eq. reflexivity. Qed.

Lemma get_insert_ne (o : Obj) k k' v :
  k ≠ k' -> get (<[k := v]> o) k' = get o k'.
Proof. intros H. unfold get. rewrite lookup_insert_ne by exact H. reflexivity. Qed.

Lemma get_lookup (o : Obj) k v : o !! k = Some v -> get o k = v.
Proof. intros H. unfold get. rewrite H. reflexivity. Qed.

Lemma get_None (o : Obj) k : o !! k = None -> get o k = VUndefined.
Proof. intros H. unfold get. rewrite H. reflexivity. Qed.

Lemma toAPI_other (d : Obj) (fields : list (string * string)) :
  ∀ (acc : Obj) (F : string),
    F ∉ (snd <$> fields) ->
    foldl (fun acc '(f, F) =>
             match get d f with
             | VUndefined => acc
             | v => <[F := v]> acc
             end) acc fields !! F
    = acc !! F.
Proof.
  induction fields as [|[f0 F0] fields IH]; intros acc F Hnot;
    [ reflexivity | ].
  simpl in *. apply not_elem_of_cons in Hnot as [Hne Hnot].
  rewrite IH by exact Hnot.
  destruct (get d f0); try reflexivity;
    rewrite lookup_insert_ne by congruence; reflexivity.
Qed.

Lemma toAPI_field (d : Obj) (fields : list (string * string)) :
  ∀ (acc : Obj) (f F : string),
    NoDup (snd <$> fields) ->
    (f, F) ∈ fields ->
    acc !! F = None ->
    get (foldl (fun acc '(f, F) =>
                  match get d f with
                  | VUndefined => acc
                  | v => <[F := v]> acc
                  end) acc fields) F
    = get d f.
Proof.
  induction fields as [|[f0 F0] fields IH]; intros acc f F Hnd Hin Hacc.
  - inversion Hin.
  - simpl in *. apply NoDup_cons in Hnd as [Hnot Hnd].
    apply elem_of_cons in Hin as [Heq | Hin].
    + injection Heq as -> ->. unfold get at 1.
      rewrite toAPI_other by exact Hnot.
      destruct (get d f0) eqn:Hd;
        first [ rewrite Hacc; reflexivity
              | rewrite lookup_insert_eq; reflexivity ].
    + assert (Hne : F0 ≠ F).
      { intros ->. apply Hnot. apply list_elem_of_fmap.
        exists (f, F). split; [ reflexivity | exact Hin ]. }
      apply IH; try assumption.
      destruct (get d f0); try assumption;
        rewrite lookup_insert_ne by exact Hne; exact Hacc.
Qed.

Lemma fromAPI_field (apiData : Obj) (fields : list (string * string)) :
  ∀ (acc : Obj) (f F : string),
    NoDup (fst <$> fields) ->
    (f, F) ∈ fields ->
    foldl (fun acc '(f, F) => <[f := get apiData F]> acc) acc fields !! f
    = Some (get apiData F).
Proof.
  assert (Hother : ∀ (fields : list (string * string)) (acc : Obj) f,
             f ∉ (fst <$> fields) ->
             foldl (fun acc '(f, F) => <[f := get apiData F]> acc) acc fields
               !! f
             = acc !! f).
  { clear fields. induction fields as [|[f0 F0] fields IH]; intros acc f Hnot;
      [ reflexivity | ].
    simpl in *. apply not_elem_of_cons in Hnot as [Hne Hnot].
    rewrite IH by exact Hnot. apply lookup_insert_ne. congruence. }
  induction fields as [|[f0 F0] fields IH]; intros acc f F Hnd Hin.
  - inversion Hin.
  - simpl in *. apply NoDup_cons in Hnd as [Hnot Hnd].
    apply elem_of_cons in Hin as [Heq | Hin].
    + injection Heq as -> ->. rewrite Hother by exact Hnot.
      apply lookup_insert_eq.
    + apply IH; assumption.
Qed.

(** What comes back of a record that was transformed for the store, when
    the store returns it as sent: the fields of the table as they were, the
    time of the transformation as the update stamp, and no identifier. *)
Lemma fields_round_trip (fields : list (string * string)) (d : Obj) w :
  NoDup (fst <$> (("id", "Id") :: fields
                  ++ [ ("created_at", "CreatedAt");
                       ("updated_at", "UpdatedAt") ])) ->
  NoDup (snd <$> fields) ->
  "Id" ∉ (snd <$> fields) ->
  "UpdatedAt" ∉ (snd <$> fields) ->
  ∃ apiData w',
    transformToAPI fields (Some d) w = (Ok apiData, w')
    ∧ (∀ f, f ∈ (fst <$> fields) ->
         get (transformFromAPI
                (("id", "Id") :: fields
                 ++ [ ("created_at", "CreatedAt");
                      ("updated_at", "UpdatedAt") ]) apiData) f
         = get d f)
    ∧ get (transformFromAPI
             (("id", "Id") :: fields
              ++ [ ("created_at", "CreatedAt");
                   ("updated_at", "UpdatedAt") ]) apiData) "id"
      = VUndefined
    ∧ get (transformFromAPI
             (("id", "Id") :: fields
              ++ [ ("created_at", "CreatedAt");
                   ("updated_at", "UpdatedAt") ]) apiData) "updated_at"
      = VNum (time w (ticks w)).
Proof.
  intros Hfst Hsnd Hid Hup.
  eexists _, _. split; [ reflexivity | ].
  unfold transformFromAPI.
  split; [ | split ].
  - intros f Hf. apply list_elem_of_fmap in Hf as ([f' F] & -> & Hin).
    rewrite (get_lookup _ _ _ (fromAPI_field _ _ ∅ f' F Hfst
               ltac:(right; apply elem_of_app; left; exact Hin))).
    simpl.
    assert (Hne : "UpdatedAt" ≠ F).
    { intros <-. apply Hup. apply list_elem_of_fmap.
      exists (f', "UpdatedAt"). split; [ reflexivity | exact Hin ]. }
    rewrite get_insert_ne by exact Hne.
    apply (toAPI_field d fields ∅ f' F Hsnd Hin). apply lookup_empty.
  - rewrite (get_lookup _ _ _ (fromAPI_field _ _ ∅ "id" "Id" Hfst
               ltac:(left))).
    rewrite get_insert_ne by discriminate.
    apply get_None. rewrite toAPI_other by exact Hid. apply lookup_empty.
  - rewrite (get_lookup _ _ _ (fromAPI_field _ _ ∅ "updated_at" "UpdatedAt"
               Hfst ltac:(right; apply elem_of_app; right; right; left))).
    apply get_insert_eq.
Qed.

(** X8: a deal or a contact that goes through [transform...ToAPI] and comes
    back through [transform...FromAPI] as it was sent keeps every field of
    its table unchanged; the result has the time of the transformation as
    [updated_at], and no [id]: the identifier of the record is not among
    the fields sent. *)
Theorem records_survive_the_round_trip (d : Obj) w :
  (∃ apiData w',
     transformDealToAPI (Some d) w = (Ok apiData, w')
     ∧ (∀ f, f ∈ (fst <$> dealFieldsToAPI) ->
          get (transformDealFromAPI apiData) f = get d f)
     ∧ get (transformDealFromAPI apiData) "id" = VUndefined
     ∧ get (transformDealFromAPI apiData) "updated_at"
       = VNum (time w (ticks w)))
  ∧ (∃ apiData w',
       transformContactToAPI (Some d) w = (Ok apiData, w')
       ∧ (∀ f, f ∈ (fst <$> contactFieldsToAPI) ->
            get (transformContactFromAPI apiData) f = get d f)
       ∧ get (transformContactFromAPI apiData) "id" = VUndefined
       ∧ get (transformContactFromAPI apiData) "updated_at"
         = VNum (time w (ticks w))).
Proof.
  split.
  - apply (fields_round_trip dealFieldsToAPI d w);
      compute_done.
  - apply (fields_round_trip contactFieldsToAPI d w);
      compute_done.
Qed.

End TransformFacts.

(** ** Creating a deal that the validation refuses *)

Module ValidationFacts.

Import API Requests RequestFacts.

#[local] Arguments bind : simpl never.
#[local] Arguments tryCatch : simpl never.
#[local] Arguments when : simpl never.
#[local] Arguments gets : simpl never.
#[local] Arguments modify : simpl never.
#[local] Arguments ret : simpl never.
#[local] Arguments throw : simpl never.

(** The validation reads the record and nothing else: it leaves the world
    as it is, and it returns, throws one of its four refusals, or throws a
    [TypeError]. *)
Lemma validateDealData_outcome dealData w :
  ∃ r,
    validateDealData dealData w = (r, w)
    ∧ (r = Ok tt
       ∨ ∃ e, r = Throw e ∧ (e ∈ dealRefusals ∨ name e = "TypeError")).
Proof.
  unfold validateDealData, missingText, readUndefined.
  destruct dealData as [d|].
  2: { eexists. split; [ reflexivity | ]. right. eexists.
       split; [ reflexivity | right; reflexivity ]. }
  generalize (get d "title") (get d "amount") (get d "status")
    (get d "probability").
  intros title amount st probability.
  assert (Hrefused : ∀ e, e ∈ dealRefusals ->
            ∃ r, (Throw e : Res unit, w) = (r, w)
                 ∧ (r = Ok tt
                    ∨ ∃ e', r = Throw e'
                            ∧ (e' ∈ dealRefusals ∨ name e' = "TypeError"))).
  { intros e He. eexists. split; [ reflexivity | ]. right. eauto. }
  assert (Hrest :
    ∃ r, (if badNumber amount 0 None
          then throw (Error "Deal amount must be a positive number")
          else if truthy st
                  && negb (bool_decide (st ∈ (VStr <$> dealStatuses)))
          then throw (Error "Invalid deal status")
          else if badNumber probability 0 (Some 100)
          then throw (Error "Deal probability must be between 0 and 100")
          else ret tt) w = (r, w)
         ∧ (r = Ok tt
            ∨ ∃ e, r = Throw e ∧ (e ∈ dealRefusals ∨ name e = "TypeError"))).
  { destruct (badNumber amount 0 None);
      [ apply Hrefused; compute_done | ].
    destruct (truthy st && _);
      [ apply Hrefused; compute_done | ].
    destruct (badNumber probability 0 (Some 100));
      [ apply Hrefused; compute_done | ].
    eexists. split; [ reflexivity | left; reflexivity ]. }
  assert (Hblank : ∀ b : bool,
    ∃ r, (if b then throw (Error "Deal title is required")
          else if badNumber amount 0 None
          then throw (Error "Deal amount must be a positive number")
          else if truthy st
                  && negb (bool_decide (st ∈ (VStr <$> dealStatuses)))
          then throw (Error "Invalid deal status")
          else if badNumber probability 0 (Some 100)
          then throw (Error "Deal probability must be between 0 and 100")
          else ret tt) w = (r, w)
         ∧ (r = Ok tt
            ∨ ∃ e, r = Throw e ∧ (e ∈ dealRefusals ∨ name e = "TypeError"))).
  { intros [|]; [ apply Hrefused; compute_done | exact Hrest ]. }
  destruct (truthy title) eqn:Ht.
  - destruct title as [ | | b | n | s ]; try discriminate Ht;
      first [ exact (Hblank (isBlank s))
            | eexists; split; [ reflexivity | ]; right; eexists;
              split; [ reflexivity | right; reflexivity ] ].
  - exact (Hblank true).
Qed.

(** [queueOfflineOperation] pushes one entry and stores the queue. *)
Lemma queueOfflineOperation_pushes operation entityType data w :
  ∃ item w',
    queueOfflineOperation operation entityType data w = (Ok tt, w')
    ∧ operationEntry operation entityType data item
    ∧ offlineQueue w' = offlineQueue w ++ [ item ]
    ∧ storedQueue w' = Some (offlineQueue w')
    ∧ requests w' = requests w
    ∧ emitted w' = emitted w
    ∧ time w' = time w
    ∧ ticks w' = S (S (ticks w)).
Proof.
  unfold queueOfflineOperation, setOfflineQueue, generateId, dateNow,
    mathRandom, bind, modify, gets, ret.
  eexists _, _. split; [ reflexivity | ].
  unfold operationEntry. repeat split; reflexivity.
Qed.

(** The handler of [createDeal] for an error that is no network error. *)
Lemma createDeal_rethrows dealData options w e :
  validate options = true ->
  validateDealData dealData w = (Throw e, w) ->
  isNetworkError e = false ->
  ∃ w',
    createDeal dealData options w = (Throw e, w')
    ∧ requests w' = requests w
    ∧ offlineQueue w' = offlineQueue w
    ∧ storedQueue w' = storedQueue w
    ∧ emitted w' = emitted w.
Proof.
  intros Hv E Hn. unfold createDeal. rewrite Hv.
  change (when true ?m) with m.
  rewrite (tryCatch_throw_eq _ _ _ _ _ (bind_throw_eq _ _ _ _ _ E)).
  rewrite Hn. eexists. split; [ reflexivity | ]. repeat split.
Qed.

(** X9: a deal that [validateDealData] refuses with one of its four
    messages is neither sent nor queued by [createDeal], which emits nothing
    and throws the refusal to its caller. *)
Theorem refused_deal_is_neither_sent_nor_queued dealData options w e :
  validate options = true ->
  (validateDealData dealData w).1 = Throw e ->
  e ∈ dealRefusals ->
  ∃ w',
    createDeal dealData options w = (Throw e, w')
    ∧ requests w' = requests w
    ∧ offlineQueue w' = offlineQueue w
    ∧ storedQueue w' = storedQueue w
    ∧ emitted w' = emitted w.
Proof.
  intros Hv E He.
  destruct (validateDealData_outcome dealData w) as (r & Er & _).
  rewrite Er in E. simpl in E. subst r.
  apply createDeal_rethrows; try assumption.
  unfold dealRefusals in He. rewrite !elem_of_cons in He.
  destruct He as [-> | [-> | [-> | [-> | He]]]];
    [ reflexivity | reflexivity | reflexivity | reflexivity | inversion He ].
Qed.

Lemma refused_deal_is_neither_sent_nor_queued_witness :
  ∃ w',
    createDeal (Some untitledDeal) defaultOptions (connectedWorld answering [])
    = (Throw (Error "Deal title is required"), w')
    ∧ requests w' = requests (connectedWorld answering [])
    ∧ offlineQueue w' = offlineQueue (connectedWorld answering [])
    ∧ storedQueue w' = storedQueue (connectedWorld answering [])
    ∧ emitted w' = emitted (connectedWorld answering []).
Proof.
  apply (refused_deal_is_neither_sent_nor_queued
           (Some untitledDeal) defaultOptions (connectedWorld answering [])
           (Error "Deal title is required"));
    [ reflexivity | vm_compute; reflexivity | constructor ].
Defined.

(** X10: a deal whose title is truthy and no string (a number, [true]) makes
    the validation throw a [TypeError], which [createDeal] takes for a
    network failure: no request is sent, the creation is pushed onto the
    offline queue and stored, and the caller gets the record back marked
    [_offline] under a placeholder identifier. *)
Theorem mistyped_title_is_queued_as_offline (d : Obj) options w :
  validate options = true ->
  truthy (get d "title") = true ->
  (∀ s, get d "title" ≠ VStr s) ->
  ∃ item w',
    createDeal (Some d) options w
    = (Ok (<["_offline" := VBool true]>
             (<["id" := VStr ("offline_"
                              +:+ pretty (time w (S (S (ticks w)))))]> d)),
       w')
    ∧ operationEntry "create" "deals" (Some d) item
    ∧ offlineQueue w' = offlineQueue w ++ [ item ]
    ∧ storedQueue w' = Some (offlineQueue w')
    ∧ requests w' = requests w.
Proof.
  intros Hv Ht Hs.
  assert (E : validateDealData (Some d) w
              = (Throw (TypeError "dealData.title.trim is not a function"),
                 w)).
  { unfold validateDealData, missingText. rewrite Ht.
    destruct (get d "title") as [ | | b | n | s ];
      try reflexivity; try discriminate Ht.
    exfalso. apply (Hs s). reflexivity. }
  unfold createDeal. rewrite Hv. change (when true ?m) with m.
  rewrite (tryCatch_throw_eq _ _ _ _ _ (bind_throw_eq _ _ _ _ _ E)).
  change (isNetworkError (TypeError "dealData.title.trim is not a function"))
    with true. cbv iota.
  pose (wl := set_consoleErrors
                (consoleErrors w
                 ++ [ "createDeal failed:" +:+ " "
                      +:+ "dealData.title.trim is not a function" ]) w).
  rewrite (bind_eq
             (logError "createDeal failed:"
                (TypeError "dealData.title.trim is not a function"))
             _ w tt wl eq_refl).
  destruct (queueOfflineOperation_pushes "create" "deals" (Some d) wl)
    as (item & w2 & Eq & Hitem & Hq & Hst & Hreq & _ & Htime & Hticks).
  rewrite (bind_eq _ _ _ _ _ Eq).
  exists item, (set_ticks (S (ticks w2)) w2).
  split; [ | split; [ exact Hitem | split; [ exact Hq | split;
                 [ exact Hst | exact Hreq ] ] ] ].
  unfold bind, dateNow, ret. rewrite Htime, Hticks. reflexivity.
Qed.

Lemma mistyped_title_is_queued_as_offline_witness :
  ∃ item w',
    createDeal (Some numberedDeal) defaultOptions
      (connectedWorld answering [])
    = (Ok (<["_offline" := VBool true]>
             (<["id" := VStr ("offline_"
                              +:+ pretty (time (connectedWorld answering [])
                                            (S (S (ticks (connectedWorld
                                                            answering []))))))]>
                numberedDeal)),
       w')
    ∧ operationEntry "create" "deals" (Some numberedDeal) item
    ∧ offlineQueue w' = offlineQueue (connectedWorld answering []) ++ [ item ]
    ∧ storedQueue w' = Some (offlineQueue w')
    ∧ requests w' = requests (connectedWorld answering []).
Proof.
  apply (mistyped_title_is_queued_as_offline
           numberedDeal defaultOptions (connectedWorld answering []));
    [ reflexivity | vm_compute; reflexivity
    | intros s; vm_compute; discriminate ].
Defined.

(** A creation on a network that refuses every request: the attempts, the
    entries they queue, and the operation queued at the end. *)
Lemma createDeal_unreachable_run (d : Obj) options w :
  (validateDealData (Some d) w).1 = Ok tt ->
  (∀ n, network w n = Rejects failedToFetch) ->
  ∃ w' apiData (t : Z) queued item,
    createDeal (Some d) options w
    = (Ok (<["_offline" := VBool true]>
             (<["id" := VStr ("offline_" +:+ pretty t)]> d)), w')
    ∧ (transformDealToAPI (Some d) w).1 = Ok apiData
    ∧ requests w'
      = requests w
        ++ replicate (S (attempts (retryConfig w)))
                     (sentRequest "POST" (dealsEndpoint w) (Some apiData))
    ∧ offlineQueue w' = offlineQueue w ++ queued ++ [ item ]
    ∧ length queued = S (attempts (retryConfig w))
    ∧ Forall (requestEntry "POST" (dealsEndpoint w) (Some apiData)) queued
    ∧ operationEntry "create" "deals" (Some d) item
    ∧ storedQueue w' = Some (offlineQueue w').
Proof.
  intros Hvalid Hnet.
  destruct (validateDealData_outcome (Some d) w) as (r & Ev & _).
  rewrite Ev in Hvalid. simpl in Hvalid. subst r.
  unfold createDeal.
  assert (E1 : when (validate options) (validateDealData (Some d)) w
               = (Ok tt, w)).
  { destruct (validate options); [ exact Ev | reflexivity ]. }
  assert (E2 : buildDataEndpoint "deals" w
               = (Ok ("/api/v1/db/data/" +:+ orgId w +:+ "/"
                      +:+ projectId w +:+ "/" +:+ "deals"), w))
    by reflexivity.
  assert (E3 : ∃ apiData,
             transformDealToAPI (Some d) w
             = (Ok apiData, set_ticks (S (ticks w)) w))
    by (eexists; reflexivity).
  destruct E3 as (apiData & E3).
  change ("/api/v1/db/data/" +:+ orgId w +:+ "/" +:+ projectId w
          +:+ "/" +:+ "deals") with (dealsEndpoint w) in E2.
  set (endpoint := dealsEndpoint w) in *.
  match goal with
  | |- context [ tryCatch ?body _ w ] =>
      assert (Eb : ∃ w4 queued,
                 body w
                 = (Throw (APIError ("Failed to create deal: "
                                     +:+ "Failed to fetch") 0), w4)
                 ∧ requests w4
                   = requests w
                     ++ replicate (S (attempts (retryConfig w)))
                                  (sentRequest "POST" endpoint (Some apiData))
                 ∧ offlineQueue w4 = offlineQueue w ++ queued
                 ∧ length queued = S (attempts (retryConfig w))
                 ∧ Forall (requestEntry "POST" endpoint (Some apiData)) queued)
  end.
  { rewrite (bind_eq _ _ _ _ _ E1), (bind_eq _ _ _ _ _ E2),
      (bind_eq _ _ _ _ _ E3).
    match goal with
    | |- context [ bind (when (optimistic options) ?m) _ ?w1 ] =>
        assert (E4 : ∃ w2,
                   when (optimistic options) m w1 = (Ok tt, w2)
                   ∧ network w2 = network w
                   ∧ retryConfig w2 = retryConfig w
                   ∧ requests w2 = requests w
                   ∧ offlineQueue w2 = offlineQueue w)
    end.
    { destruct (optimistic options); eexists;
        (split; [ reflexivity | repeat split ]). }
    destruct E4 as (w2 & E4 & Hn2 & Hc2 & Hr2 & Hq2).
    rewrite (bind_eq _ _ _ _ _ E4).
    destruct (makeRequestFrom_gives_up
                (attempts (retryConfig w2) - 0) "POST" endpoint (Some apiData)
                true failedToFetch eq_refl eq_refl eq_refl 0%nat w2)
      as (w3 & queued & E5 & Hr3 & Hq3 & Hl3 & Hf3);
      [ intros n; rewrite Hn2; apply Hnet | lia | lia | ].
    assert (E5' : makeRequest "POST" endpoint (Some apiData) 0 true w2
                  = (Ok (RespFail "Failed to fetch" 0), w3)) by exact E5.
    rewrite (bind_eq _ _ _ _ _ E5').
    rewrite Hc2, Hr2, Nat.sub_0_r in Hr3. rewrite Hc2, Nat.sub_0_r in Hl3.
    rewrite Hq2 in Hq3.
    destruct (optimistic options); eexists _, queued;
      (split; [ reflexivity | ]); simpl;
      (split; [ exact Hr3 | split; [ exact Hq3 | split; assumption ] ]). }
  destruct Eb as (w4 & queued & Eb & Hr4 & Hq4 & Hl4 & Hf4).
  rewrite (tryCatch_throw_eq _ _ _ _ _ Eb).
  match goal with
  | |- context [ bind (logError ?what ?error) _ w4 ] =>
      rewrite (bind_eq (logError what error) _ w4 tt
                 (set_consoleErrors
                    (consoleErrors w4 ++ [ what +:+ " " +:+ message error ])
                    w4) eq_refl)
  end.
  change (isNetworkError (APIError ("Failed to create deal: "
                                    +:+ "Failed to fetch") 0)) with true.
  cbv iota.
  match goal with
  | |- context [ bind (queueOfflineOperation _ _ _) _ ?wl ] =>
      destruct (queueOfflineOperation_pushes "create" "deals" (Some d) wl)
        as (item & w6 & E6 & Hitem & Hq6 & Hs6 & Hr6 & _ & _ & _)
  end.
  rewrite (bind_eq _ _ _ _ _ E6).
  exists (set_ticks (S (ticks w6)) w6), apiData,
    (time w6 (ticks w6)), queued, item.
  split; [ reflexivity | ]. split; [ rewrite E3; reflexivity | ]. simpl.
  split; [ rewrite Hr6; exact Hr4 | ].
  split; [ rewrite Hq6; simpl; rewrite Hq4, <- app_assoc; reflexivity | ].
  split; [ exact Hl4 | split; [ exact Hf4 | split;
             [ exact Hitem | exact Hs6 ] ] ].
Qed.

(** X11: while the network refuses every request with [Failed to fetch],
    [createDeal] of a valid deal sends the creation once more than the
    retries allow, then queues the operation, stores the queue and returns
    the deal marked [_offline] under a placeholder identifier.  By then the
    offline queue has grown by one request entry per attempt, which the drain
    cannot replay, and by the one [create] entry. *)
Theorem createDeal_while_unreachable (d : Obj) options w :
  (validateDealData (Some d) w).1 = Ok tt ->
  (∀ n, network w n = Rejects failedToFetch) ->
  ∃ w' apiData (t : Z) queued item,
    createDeal (Some d) options w
    = (Ok (<["_offline" := VBool true]>
             (<["id" := VStr ("offline_" +:+ pretty t)]> d)), w')
    ∧ (transformDealToAPI (Some d) w).1 = Ok apiData
    ∧ requests w'
      = requests w
        ++ replicate (S (attempts (retryConfig w)))
                     (sentRequest "POST" (dealsEndpoint w) (Some apiData))
    ∧ offlineQueue w' = offlineQueue w ++ queued ++ [ item ]
    ∧ length queued = S (attempts (retryConfig w))
    ∧ Forall (requestEntry "POST" (dealsEndpoint w) (Some apiData)) queued
    ∧ operationEntry "create" "deals" (Some d) item
    ∧ storedQueue w' = Some (offlineQueue w').
Proof. exact (createDeal_unreachable_run d options w). Qed.

Lemma createDeal_while_unreachable_witness :
  ∃ w' apiData (t : Z) queued item,
    createDeal (Some bigDeal) defaultOptions (connectedWorld unreachable [])
    = (Ok (<["_offline" := VBool true]>
             (<["id" := VStr ("offline_" +:+ pretty t)]> bigDeal)), w')
    ∧ (transformDealToAPI (Some bigDeal) (connectedWorld unreachable [])).1
      = Ok apiData
    ∧ requests w'
      = requests (connectedWorld unreachable [])
        ++ replicate
             (S (attempts (retryConfig (connectedWorld unreachable []))))
             (sentRequest "POST"
                (dealsEndpoint (connectedWorld unreachable []))
                (Some apiData))
    ∧ offlineQueue w'
      = offlineQueue (connectedWorld unreachable []) ++ queued ++ [ item ]
    ∧ length queued
      = S (attempts (retryConfig (connectedWorld unreachable [])))
    ∧ Forall (requestEntry "POST"
                (dealsEndpoint (connectedWorld unreachable []))
                (Some apiData)) queued
    ∧ operationEntry "create" "deals" (Some bigDeal) item
    ∧ storedQueue w' = Some (offlineQueue w').
Proof.
  apply (createDeal_while_unreachable
           bigDeal defaultOptions (connectedWorld unreachable []));
    [ vm_compute; reflexivity | intros n; reflexivity ].
Defined.

End ValidationFacts.

(** ** Addresses and phone numbers of contacts *)

Module ContactFacts.

Import RegExp RegExpFacts API Contacts.

Lemma allChars_app (p : ascii -> bool) (s1 s2 : string) :
  allChars p (s1 +:+ s2) = allChars p s1 && allChars p s2.
Proof.
  induction s1 as [|c s1 IH]; simpl; [ reflexivity | ].
  rewrite IH. apply andb_assoc.
Qed.

Lemma allChars_impl (p q : ascii -> bool) (s : string) :
  (∀ c, p c = true -> q c = true) ->
  allChars p s = true -> allChars q s = true.
Proof.
  intros Hpq. induction s as [|c s IH]; simpl; [ reflexivity | ].
  intros H. apply andb_true_iff in H as [Hc Hs].
  rewrite (Hpq c Hc). simpl. exact (IH Hs).
Qed.

Lemma string_length_app (s1 s2 : string) :
  String.length (s1 +:+ s2) = (String.length s1 + String.length s2)%nat.
Proof. induction s1 as [|c s1 IH]; simpl; [ reflexivity | rewrite IH; reflexivity ]. Qed.

Lemma Lang_eqb_inv (a : ascii) (s : string) :
  Lang (Class (Ascii.eqb a)) s -> s = String a "".
Proof.
  intros H. apply Lang_Class_inv in H as (c & -> & Hc).
  apply Ascii.eqb_eq in Hc. subst c. reflexivity.
Qed.

Lemma Lang_eqb (a : ascii) : Lang (Class (Ascii.eqb a)) (String a "").
Proof. constructor. apply Ascii.eqb_refl. Qed.

Lemma emailRegex_Lang (s : string) : Lang emailRegex s <-> emailShape s.
Proof.
  unfold emailRegex, emailShape. split.
  - intros H.
    apply Lang_Seq_inv in H as (l & s1 & -> & Hl & H).
    apply Lang_Seq_inv in H as (a & s2 & -> & Ha & H).
    apply Lang_Seq_inv in H as (d & s3 & -> & Hd & H).
    apply Lang_Seq_inv in H as (o & t & -> & Ho & Ht).
    apply Lang_eqb_inv in Ha, Ho. subst a o.
    apply Lang_Plus_Class in Hl as [Hl1 Hl2].
    apply Lang_Plus_Class in Hd as [Hd1 Hd2].
    apply Lang_Plus_Class in Ht as [Ht1 Ht2].
    exists l, d, t. repeat split; assumption.
  - intros (l & d & t & -> & Hl1 & Hd1 & Ht1 & Hl2 & Hd2 & Ht2).
    apply LangSeq; [ apply Lang_Plus_Class; split; assumption | ].
    apply (LangSeq _ _ "@"); [ apply Lang_eqb | ].
    apply LangSeq; [ apply Lang_Plus_Class; split; assumption | ].
    apply (LangSeq _ _ "."); [ apply Lang_eqb | ].
    apply Lang_Plus_Class; split; assumption.
Qed.

(** X12: [isValidEmail] accepts exactly the strings of the form
    [local@domain.tld] whose three parts are non-empty and free of white
    space and of [@]; so an accepted address contains exactly one [@] and
    no white space. *)
Theorem valid_email_shape (s : string) :
  (isValidEmail (VStr s) = true <-> emailShape s)
  ∧ (isValidEmail (VStr s) = true ->
     countChar "@" s = 1%nat ∧ allChars notSpace s = true).
Proof.
  assert (Hiff : isValidEmail (VStr s) = true <-> emailShape s).
  { unfold isValidEmail. simpl. rewrite test_Lang. apply emailRegex_Lang. }
  split; [ exact Hiff | ].
  intros H. apply Hiff in H
    as (l & d & t & -> & _ & _ & _ & Hl & Hd & Ht).
  split.
  - rewrite !countChar_app.
    rewrite (countChar_none emailPart "@" l eq_refl Hl).
    rewrite (countChar_none emailPart "@" d eq_refl Hd).
    rewrite (countChar_none emailPart "@" t eq_refl Ht).
    reflexivity.
  - assert (Hns : ∀ c, emailPart c = true -> notSpace c = true).
    { intros c Hc. unfold emailPart in Hc.
      apply andb_true_iff in Hc as [Hc _]. exact Hc. }
    rewrite !allChars_app.
    rewrite (allChars_impl _ _ l Hns Hl), (allChars_impl _ _ d Hns Hd),
      (allChars_impl _ _ t Hns Ht).
    reflexivity.
Qed.

Lemma Lang_AtLeast_Class (n : nat) (p : ascii -> bool) :
  ∀ s, Lang (AtLeast n (Class p)) s
       <-> (n <= String.length s)%nat ∧ allChars p s = true.
Proof.
  induction n as [|n IH]; intros s; simpl.
  - rewrite Lang_Star_Class. split; [ intros H; split; [ lia | exact H ] | tauto ].
  - split.
    + intros H. apply Lang_Seq_inv in H as (s1 & s2 & -> & H1 & H2).
      apply Lang_Class_inv in H1 as (c & -> & Hc).
      apply IH in H2 as [Hn Hs]. simpl. rewrite Hc. split; [ lia | exact Hs ].
    + intros [Hn Hs]. destruct s as [|c s]; simpl in *; [ lia | ].
      apply andb_true_iff in Hs as [Hc Hs].
      apply (LangSeq _ _ (String c "") s); [ constructor; exact Hc | ].
      apply IH. split; [ lia | exact Hs ].
Qed.

Lemma phoneRegex_Lang (s : string) : Lang phoneRegex s <-> phoneShape s.
Proof.
  unfold phoneRegex, phoneShape, Opt. split.
  - intros H.
    apply Lang_Seq_inv in H as (plus & s1 & -> & Hp & H).
    apply Lang_Seq_inv in H as (c1 & rest & -> & Hc & Hr).
    apply Lang_Class_inv in Hc as (c & -> & Hc).
    apply Lang_AtLeast_Class in Hr as [Hn Hr].
    exists plus, c, rest. repeat split; try assumption.
    apply Lang_Alt_inv in Hp as [Hp | Hp].
    + left. apply Lang_Eps_inv in Hp. exact Hp.
    + right. apply Lang_eqb_inv in Hp. exact Hp.
  - intros (plus & c & rest & -> & Hp & Hc & Hn & Hr).
    apply LangSeq.
    + destruct Hp as [-> | ->];
        [ apply LangAltL; constructor | apply LangAltR; apply Lang_eqb ].
    + apply (LangSeq _ _ (String c "") rest); [ constructor; exact Hc | ].
      apply Lang_AtLeast_Class. split; assumption.
Qed.

(** X13: [isValidPhone] removes the white space of a string and accepts
    what is left exactly when it is an optional [+], a digit from 1 to 9 and
    at least seven more digits, hyphens or parentheses; so a number with
    fewer than eight characters besides its white space is refused. *)
Theorem valid_phone_shape (s : string) (w : World) :
  ∃ b,
    isValidPhone (VStr s) w = (Ok b, w)
    ∧ (b = true <-> phoneShape (stripSpaces s))
    ∧ (b = true -> (8 <= String.length (stripSpaces s))%nat).
Proof.
  exists (test phoneRegex (stripSpaces s)).
  assert (Hiff : test phoneRegex (stripSpaces s) = true
                 <-> phoneShape (stripSpaces s)).
  { rewrite test_Lang. apply phoneRegex_Lang. }
  split; [ reflexivity | ]. split; [ exact Hiff | ].
  intros H. apply Hiff in H as (plus & c & rest & -> & _ & _ & Hn & _).
  rewrite string_length_app. simpl. lia.
Qed.

End ContactFacts.

(** ** Reconnection timers of the real-time manager *)

Module TimerFacts.

Import Realtime RealtimeFacts Sessions.

(** X14: when a provider reconnects while the timer set at its disconnection
    is still pending, [handleProviderConnect] clears that timer and forgets
    it: the timer's callback, were it to run afterwards, does nothing, and no
    call of [provider.connect()] is made on its behalf. *)
Theorem connect_cancels_pending_reconnection (m : Manager) (dealId : DealId) :
  isOnline m = true ->
  Z.of_nat (reconnectAttempts m) < maxReconnectAttempts (config m) ->
  let t := length (timers m) in
  let m1 := handleProviderDisconnect dealId m in
  let m2 := handleProviderConnect dealId m1 in
  reconnectTimeouts m1 !! dealId = Some t
  ∧ timers m1 !! t
    = Some (mkTimer dealId
              (reconnectionDelay (config m) (reconnectAttempts m)) true)
  ∧ reconnectTimeouts m2 !! dealId = None
  ∧ timerFires t m2 = m2
  ∧ connectCalls m2 = connectCalls m
  ∧ reconnectAttempts m2 = 0%nat.
Proof.
  intros Hon Hb t m1 m2. subst t m1 m2.
  rewrite handleProviderDisconnect_schedules by assumption.
  unfold handleProviderConnect, cancelReconnection. simpl.
  rewrite !lookup_insert_eq. simpl.
  assert (Hlast : ∀ (x : Timer), (timers m ++ [ x ]) !! length (timers m)
                                 = Some x).
  { intros x. rewrite lookup_app_r by lia. rewrite Nat.sub_diag. reflexivity. }
  split; [ reflexivity | ]. split; [ apply Hlast | ].
  split; [ apply lookup_delete_eq | ].
  split; [ | split; reflexivity ].
  unfold timerFires. simpl.
  rewrite list_lookup_alter, Hlast.
  rewrite decide_True by reflexivity. reflexivity.
Qed.

Lemma connect_cancels_pending_reconnection_witness :
  let t := length (timers joined42) in
  let m1 := handleProviderDisconnect "42" joined42 in
  let m2 := handleProviderConnect "42" m1 in
  reconnectTimeouts m1 !! "42" = Some t
  ∧ timers m1 !! t
    = Some (mkTimer "42"
              (reconnectionDelay (config joined42)
                                 (reconnectAttempts joined42)) true)
  ∧ reconnectTimeouts m2 !! "42" = None
  ∧ timerFires t m2 = m2
  ∧ connectCalls m2 = connectCalls joined42
  ∧ reconnectAttempts m2 = 0%nat.
Proof.
  apply (connect_cancels_pending_reconnection joined42 "42");
    [ reflexivity | vm_compute; reflexivity ].
Defined.

(** X15: a disconnection does not clear the timer of an earlier one.  After
    two disconnections of a deal in a row, only the second timer is
    remembered and cancelled by [handleProviderConnect]; the first stays
    pending, and when it expires it calls [provider.connect()] on the
    connected provider and counts a reconnection attempt. *)
Theorem replaced_timer_stays_pending (m : Manager) (dealId : DealId) :
  isOnline m = true ->
  Z.of_nat (reconnectAttempts m) < maxReconnectAttempts (config m) ->
  is_Some (providers m !! dealId) ->
  let t := length (timers m) in
  let m2 := handleProviderDisconnect dealId
              (handleProviderDisconnect dealId m) in
  let m3 := handleProviderConnect dealId m2 in
  reconnectTimeouts m2 !! dealId = Some (S t)
  ∧ reconnectTimeouts m3 !! dealId = None
  ∧ timers m3 !! t
    = Some (mkTimer dealId
              (reconnectionDelay (config m) (reconnectAttempts m)) true)
  ∧ connectCalls (timerFires t m3) = connectCalls m ++ [ dealId ]
  ∧ reconnectAttempts (timerFires t m3) = 1%nat.
Proof.
  intros Hon Hb Hp t m2 m3. subst t m2 m3.
  rewrite (handleProviderDisconnect_schedules m) by assumption.
  rewrite handleProviderDisconnect_schedules by assumption.
  unfold handleProviderConnect, cancelReconnection. simpl.
  rewrite !lookup_insert_eq. simpl.
  rewrite length_app. simpl. rewrite Nat.add_1_r.
  assert (Hfirst : ∀ (x y : Timer),
            alter (fun tm => mkTimer (tDeal tm) (tDelay tm) false)
                  (S (length (timers m))) ((timers m ++ [ x ]) ++ [ y ])
              !! length (timers m)
            = Some x).
  { intros x y. rewrite list_lookup_alter_ne by lia.
    rewrite lookup_app_l by (rewrite length_app; simpl; lia).
    rewrite lookup_app_r by lia. rewrite Nat.sub_diag. reflexivity. }
  split; [ reflexivity | ]. split; [ apply lookup_delete_eq | ].
  split; [ apply Hfirst | ].
  unfold timerFires. simpl. rewrite Hfirst. simpl. rewrite Hon.
  rewrite bool_decide_eq_true_2 by exact Hp. simpl.
  split; reflexivity.
Qed.

Lemma replaced_timer_stays_pending_witness :
  let t := length (timers joined42) in
  let m2 := handleProviderDisconnect "42"
              (handleProviderDisconnect "42" joined42) in
  let m3 := handleProviderConnect "42" m2 in
  reconnectTimeouts m2 !! "42" = Some (S t)
  ∧ reconnectTimeouts m3 !! "42" = None
  ∧ timers m3 !! t
    = Some (mkTimer "42"
              (reconnectionDelay (config joined42)
                                 (reconnectAttempts joined42)) true)
  ∧ connectCalls (timerFires t m3) = connectCalls joined42 ++ [ "42" ]
  ∧ reconnectAttempts (timerFires t m3) = 1%nat.
Proof.
  apply (replaced_timer_stays_pending joined42 "42");
    [ reflexivity | vm_compute; reflexivity | vm_compute; eauto ].
Defined.

Lemma joinDeal_new (m : Manager) (dealId : DealId) (options : JoinOptions) :
  documents m !! dealId = None ->
  let m1 := (joinDeal dealId options m).2 in
  (joinDeal dealId options m).1 = Fulfilled (length (docs m))
  ∧ documents m1 = <[dealId := length (docs m)]> (documents m)
  ∧ providers m1 = <[dealId := length (provs m)]> (providers m)
  ∧ persistence m1 = <[dealId := length (persists m)]> (persistence m)
  ∧ awareness m1 = <[dealId := length (provs m)]> (awareness m)
  ∧ length (docs m1) = S (length (docs m))
  ∧ timers m1 = timers m
  ∧ reconnectTimeouts m1 = reconnectTimeouts m
  ∧ isOnline m1 = isOnline m
  ∧ reconnectAttempts m1 = reconnectAttempts m
  ∧ config m1 = config m.
Proof.
  intros Hd. unfold joinDeal, now. simpl. rewrite Hd.
  destruct (initialData options); simpl;
    destruct (performanceMonitoring (config m)); simpl;
    rewrite length_app; simpl; repeat split; lia.
Qed.

(** X26: leaving a deal undoes joining it.  After [joinDeal] of a deal that
    was not joined, [leaveDeal] gives the four maps of the manager back as
    they were and emits one [dealLeft]; joining the deal again then creates
    a document of its own, not the one that was left.  Leaving also clears
    a reconnection timer pending for the deal, whose callback then does
    nothing. *)
Theorem leave_undoes_join
    (m : Manager) (dealId : DealId) (options again : JoinOptions) :
  documents m !! dealId = None ->
  providers m !! dealId = None ->
  persistence m !! dealId = None ->
  awareness m !! dealId = None ->
  isOnline m = true ->
  Z.of_nat (reconnectAttempts m) < maxReconnectAttempts (config m) ->
  let m1 := (joinDeal dealId options m).2 in
  let m2 := (leaveDeal dealId m1).1 in
  documents m2 = documents m
  ∧ providers m2 = providers m
  ∧ persistence m2 = persistence m
  ∧ awareness m2 = awareness m
  ∧ (leaveDeal dealId m1).2 = [ dealId ]
  ∧ (joinDeal dealId options m).1 = Fulfilled (length (docs m))
  ∧ (joinDeal dealId again m2).1 = Fulfilled (S (length (docs m)))
  ∧ (let m3 := (leaveDeal dealId (handleProviderDisconnect dealId m1)).1 in
     reconnectTimeouts m3 !! dealId = None
     ∧ timerFires (length (timers m)) m3 = m3).
Proof.
  intros Hd Hp Hs Ha Hon Hb m1 m2.
  destruct (joinDeal_new m dealId options Hd)
    as (Hr & Hd1 & Hp1 & Hs1 & Ha1 & Hl1 & Ht1 & Hrt1 & Hon1 & Hat1 & Hc1).
  fold m1 in Hd1, Hp1, Hs1, Ha1, Hl1, Ht1, Hrt1, Hon1, Hat1, Hc1.
  assert (Hmaps : documents m2 = documents m ∧ providers m2 = providers m
                  ∧ persistence m2 = persistence m
                  ∧ awareness m2 = awareness m
                  ∧ docs m2 = docs m1).
  { subst m2. unfold leaveDeal, cancelReconnection. simpl.
    destruct (reconnectTimeouts m1 !! dealId); simpl;
      rewrite Hd1, Hp1, Hs1, Ha1, !delete_insert_id by assumption;
      repeat split. }
  destruct Hmaps as (Hd2 & Hp2 & Hs2 & Ha2 & Hdocs2).
  split; [ exact Hd2 | ]. split; [ exact Hp2 | ]. split; [ exact Hs2 | ].
  split; [ exact Ha2 | ]. split; [ reflexivity | ]. split; [ exact Hr | ].
  split.
  - destruct (joinDeal_new m2 dealId again) as (Hr2 & _);
      [ rewrite Hd2; exact Hd | ].
    rewrite Hr2, Hdocs2, Hl1. reflexivity.
  - rewrite handleProviderDisconnect_schedules
      by (rewrite ?Hon1, ?Hat1, ?Hc1; assumption).
    unfold leaveDeal, cancelReconnection. simpl.
    rewrite lookup_insert_eq. simpl. rewrite Ht1.
    split; [ apply lookup_delete_eq | ].
    unfold timerFires. simpl.
    rewrite list_lookup_alter, lookup_app_r, Nat.sub_diag by lia. simpl.
    rewrite decide_True by reflexivity. reflexivity.
Qed.

Lemma leave_undoes_join_witness :
  let m1 := (joinDeal "42" (mkJoinOptions None None) freshManager).2 in
  let m2 := (leaveDeal "42" m1).1 in
  documents m2 = documents freshManager
  ∧ providers m2 = providers freshManager
  ∧ persistence m2 = persistence freshManager
  ∧ awareness m2 = awareness freshManager
  ∧ (leaveDeal "42" m1).2 = [ "42" ]
  ∧ (joinDeal "42" (mkJoinOptions None None) freshManager).1
    = Fulfilled (length (docs freshManager))
  ∧ (joinDeal "42" (mkJoinOptions None (Some "Notes")) m2).1
    = Fulfilled (S (length (docs freshManager)))
  ∧ (let m3 := (leaveDeal "42" (handleProviderDisconnect "42" m1)).1 in
     reconnectTimeouts m3 !! "42" = None
     ∧ timerFires (length (timers freshManager)) m3 = m3).
Proof.
  apply (leave_undoes_join freshManager "42" (mkJoinOptions None None)
           (mkJoinOptions None (Some "Notes")));
    [ reflexivity | reflexivity | reflexivity | reflexivity | reflexivity
    | vm_compute; reflexivity ].
Defined.

Lemma retryRound_step (m : Manager) (dealId : DealId) :
  isOnline m = true ->
  is_Some (providers m !! dealId) ->
  Z.of_nat (reconnectAttempts m) < maxReconnectAttempts (config m) ->
  let m' := retryRound dealId m in
  isOnline m' = true
  ∧ providers m' = providers m
  ∧ config m' = config m
  ∧ reconnectAttempts m' = S (reconnectAttempts m)
  ∧ timers m'
    = timers m
      ++ [ mkTimer dealId
             (reconnectionDelay (config m) (reconnectAttempts m)) false ]
  ∧ connectCalls m' = connectCalls m ++ [ dealId ].
Proof.
  intros Hon Hp Hb m'. subst m'. unfold retryRound.
  rewrite handleProviderDisconnect_schedules by assumption.
  unfold timerFires. simpl.
  rewrite lookup_app_r by lia. rewrite Nat.sub_diag. simpl. rewrite Hon.
  rewrite bool_decide_eq_true_2 by exact Hp. simpl.
  repeat split; try exact Hon.
  rewrite insert_app_r_alt by lia. rewrite Nat.sub_diag. reflexivity.
Qed.

Lemma retryRound_iter (dealId : DealId) (rounds : nat) :
  ∀ m,
    isOnline m = true ->
    is_Some (providers m !! dealId) ->
    Z.of_nat (reconnectAttempts m + rounds)
      <= maxReconnectAttempts (config m) ->
    let m' := Nat.iter rounds (retryRound dealId) m in
    isOnline m' = true
    ∧ providers m' = providers m
    ∧ config m' = config m
    ∧ reconnectAttempts m' = (reconnectAttempts m + rounds)%nat
    ∧ timers m'
      = timers m
        ++ expiredTimers (config m) dealId (reconnectAttempts m) rounds
    ∧ connectCalls m' = connectCalls m ++ replicate rounds dealId.
Proof.
  induction rounds as [|rounds IH]; intros m Hon Hp Hb m'; subst m'.
  - simpl. unfold expiredTimers. simpl. rewrite !app_nil_r, Nat.add_0_r.
    repeat split. exact Hon.
  - destruct (IH m Hon Hp ltac:(lia)) as (H1 & H2 & H3 & H4 & H5 & H6).
    simpl Nat.iter.
    destruct (retryRound_step (Nat.iter rounds (retryRound dealId) m) dealId)
      as (G1 & G2 & G3 & G4 & G5 & G6);
      [ exact H1 | rewrite H2; exact Hp | rewrite H3, H4; lia | ].
    split; [ exact G1 | ]. split; [ congruence | ]. split; [ congruence | ].
    split; [ rewrite G4, H4; lia | ]. split.
    + rewrite G5, H5, H3, H4, <- app_assoc. f_equal.
      unfold expiredTimers. rewrite seq_S, fmap_app. reflexivity.
    + rewrite G6, H6, <- app_assoc. f_equal.
      change [ dealId ] with (replicate 1 dealId).
      rewrite <- replicate_add. f_equal. lia.
Qed.

(** X16: the schedule of reconnections.  While the manager is online and
    holds the provider of a deal, every round of a disconnection followed by
    the expiry of its timer calls [provider.connect()] once and counts one
    attempt, and the timers have the delays that [scheduleReconnection]
    computes, attempt after attempt: for a positive base delay, the integers
    [min(reconnectDelay * 2^attempt, 30000)].  When the rounds have used up
    [maxReconnectAttempts], the next disconnection sets no timer and emits
    [reconnectionFailed]. *)
Theorem reconnection_schedule (m : Manager) (dealId : DealId) (rounds : nat) :
  isOnline m = true ->
  is_Some (providers m !! dealId) ->
  reconnectAttempts m = 0%nat ->
  Z.of_nat rounds <= maxReconnectAttempts (config m) ->
  let m' := Nat.iter rounds (retryRound dealId) m in
  reconnectAttempts m' = rounds
  ∧ connectCalls m' = connectCalls m ++ replicate rounds dealId
  ∧ timers m' = timers m ++ expiredTimers (config m) dealId 0 rounds
  ∧ (0 < reconnectDelay (config m) ->
     expiredTimers (config m) dealId 0 rounds
     = (fun attempt : nat =>
          mkTimer dealId
            (Finite (Z.min (reconnectDelay (config m) * 2 ^ Z.of_nat attempt)
                           30000))
            false) <$> seq 0 rounds)
  ∧ (Z.of_nat rounds = maxReconnectAttempts (config m) ->
     handleProviderDisconnect dealId m'
     = emit (reconnectionFailed dealId) (emit (disconnected dealId) m')).
Proof.
  intros Hon Hp H0 Hb m'.
  destruct (retryRound_iter dealId rounds m Hon Hp)
    as (H1 & H2 & H3 & H4 & H5 & H6); [ rewrite H0; simpl; exact Hb | ].
  fold m' in H1, H2, H3, H4, H5, H6. rewrite H0 in H4, H5. simpl in H4.
  split; [ exact H4 | ]. split; [ exact H6 | ]. split; [ exact H5 | ].
  split.
  { intros Hpos. unfold expiredTimers. apply list_fmap_ext.
    intros i attempt _. rewrite reconnectionDelay_positive by exact Hpos.
    reflexivity. }
  intros Hmax. unfold handleProviderDisconnect. simpl. rewrite H1.
  apply scheduleReconnection_exhausted. simpl. rewrite H3, H4. lia.
Qed.

Lemma reconnection_schedule_witness :
  let m' := Nat.iter 10 (retryRound "42") joined42 in
  reconnectAttempts m' = 10%nat
  ∧ connectCalls m' = connectCalls joined42 ++ replicate 10 "42"
  ∧ timers m'
    = timers joined42 ++ expiredTimers (config joined42) "42" 0 10
  ∧ (0 < reconnectDelay (config joined42) ->
     expiredTimers (config joined42) "42" 0 10
     = (fun attempt : nat =>
          mkTimer "42"
            (Finite (Z.min (reconnectDelay (config joined42)
                            * 2 ^ Z.of_nat attempt) 30000))
            false) <$> seq 0 10)
  ∧ (Z.of_nat 10 = maxReconnectAttempts (config joined42) ->
     handleProviderDisconnect "42" m'
     = emit (reconnectionFailed "42") (emit (disconnected "42") m')).
Proof.
  apply (reconnection_schedule joined42 "42" 10);
    [ reflexivity | vm_compute; eauto | reflexivity | vm_compute; discriminate ].
Defined.

End TimerFacts.

(** ** The notes manager *)

Module NotesFacts.

Import Notes.

Lemma saveLocalNotes_stacks dealId content s :
  undoStack (saveLocalNotes dealId content s) = undoStack s
  ∧ redoStack (saveLocalNotes dealId content s) = redoStack s
  ∧ textarea (saveLocalNotes dealId content s) = textarea s
  ∧ currentDealId (saveLocalNotes dealId content s) = currentDealId s.
Proof. repeat split. Qed.

Lemma applyState_stacks state s :
  undoStack (applyState state s) = undoStack s
  ∧ redoStack (applyState state s) = redoStack s
  ∧ currentDealId (applyState state s) = currentDealId s.
Proof.
  unfold applyState. destruct (bool_decide _); repeat split.
Qed.

Lemma applyState_textarea state s :
  is_Some (textarea s) -> is_Some (textarea (applyState state s)).
Proof.
  intros H. unfold applyState. destruct (bool_decide _); [ | exact H ].
  eexists. reflexivity.
Qed.

Lemma length_tail_pred {A} (l : list A) :
  length (tail l) = (length l - 1)%nat.
Proof. destruct l; simpl; lia. Qed.

Lemma length_removelast_pred {A} (l : list A) :
  length (removelast l) = (length l - 1)%nat.
Proof.
  induction l as [|x [|y l] IH]; [ reflexivity | reflexivity | ].
  change (removelast (x :: y :: l)) with (x :: removelast (y :: l)).
  simpl length in *. rewrite IH. lia.
Qed.

(** What [undo] and [redo] do to the stacks. *)
Lemma undo_stacks (s s' : NotesManager) :
  undo s = inl s' ->
  (undoStack s = [] ∧ s' = s)
  ∨ ∃ value,
      textarea s = Some value
      ∧ undoStack s ≠ []
      ∧ undoStack s' = removelast (undoStack s)
      ∧ redoStack s'
        = redoStack s
          ++ [ mkSnapshot (currentDealId s) value (time s (ticks s)) ]
      ∧ currentDealId s' = currentDealId s
      ∧ is_Some (textarea s').
Proof.
  unfold undo. destruct (undoStack s) as [|x l] eqn:Hu.
  - intros [= <-]. left. split; reflexivity.
  - destruct (textarea s) as [value|] eqn:Ht; [ | discriminate ].
    intros [= <-]. right. exists value.
    match goal with
    | |- context [ applyState ?a ?b ] =>
        destruct (applyState_stacks a b) as (E1 & E2 & E3);
        pose proof (applyState_textarea a b) as E4
    end.
    rewrite E1, E2, E3. unfold now. simpl.
    repeat split; try discriminate;
      try (apply E4; simpl; rewrite Ht; eexists; reflexivity).
    rewrite Hu. reflexivity.
Qed.

Lemma redo_stacks (s s' : NotesManager) :
  redo s = inl s' ->
  (redoStack s = [] ∧ s' = s)
  ∨ ∃ value,
      textarea s = Some value
      ∧ redoStack s ≠ []
      ∧ redoStack s' = removelast (redoStack s)
      ∧ undoStack s'
        = undoStack s
          ++ [ mkSnapshot (currentDealId s) value (time s (ticks s)) ]
      ∧ currentDealId s' = currentDealId s.
Proof.
  unfold redo. destruct (redoStack s) as [|x l] eqn:Hr.
  - intros [= <-]. left. split; reflexivity.
  - destruct (textarea s) as [value|] eqn:Ht; [ | discriminate ].
    intros [= <-]. right. exists value.
    match goal with
    | |- context [ applyState ?a ?b ] =>
        destruct (applyState_stacks a b) as (E1 & E2 & E3)
    end.
    rewrite E1, E2, E3. unfold now. simpl.
    repeat split; try discriminate. rewrite Hr. reflexivity.
Qed.

Lemma step_bounded (s : NotesManager) (op : Op) :
  (length (undoStack s) + length (redoStack s) <= maxUndoSteps)%nat ->
  (length (undoStack (step s op)) + length (redoStack (step s op))
   <= maxUndoSteps)%nat.
Proof.
  intros H. destruct op as [dealId content| | ]; unfold step.
  - unfold saveToUndoStack, now. cbn [undoStack redoStack length].
    rewrite Nat.add_0_r.
    destruct (maxUndoSteps <? _)%nat eqn:Hlt.
    + rewrite length_tail_pred, length_app. simpl. lia.
    + apply Nat.ltb_ge in Hlt. exact Hlt.
  - destruct (undo s) as [s'|e] eqn:E; [ | exact H ].
    apply undo_stacks in E
      as [[_ ->] | (value & _ & Hne & -> & -> & _ & _)]; [ exact H | ].
    rewrite length_removelast_pred, length_app. simpl.
    destruct (undoStack s); [ congruence | simpl in *; lia ].
  - destruct (redo s) as [s'|e] eqn:E; [ | exact H ].
    apply redo_stacks in E
      as [[_ ->] | (value & _ & Hne & -> & -> & _)]; [ exact H | ].
    rewrite length_removelast_pred, length_app. simpl.
    destruct (redoStack s); [ congruence | simpl in *; lia ].
Qed.

(** X17: whatever edits, undos and redos follow each other, the undo and the
    redo stack together never hold more than [maxUndoSteps] = 50 states:
    an edit caps the undo stack and empties the redo stack, and undo and
    redo only move a state from one stack to the other. *)
Theorem stacks_stay_bounded (ops : list Op) (s : NotesManager) :
  (length (undoStack s) + length (redoStack s) <= maxUndoSteps)%nat ->
  (length (undoStack (run ops s)) + length (redoStack (run ops s))
   <= maxUndoSteps)%nat.
Proof.
  unfold run. revert s. induction ops as [|op ops IH]; intros s H;
    [ exact H | ].
  simpl. apply IH. apply step_bounded. exact H.
Qed.

Lemma stacks_stay_bounded_witness :
  (length (undoStack (run [ Edit (Some "42") "Call"; Undo; Redo;
                            Edit (Some "42") "Call back" ] editing))
   + length (redoStack (run [ Edit (Some "42") "Call"; Undo; Redo;
                              Edit (Some "42") "Call back" ] editing))
   <= maxUndoSteps)%nat.
Proof.
  apply (stacks_stay_bounded
           [ Edit (Some "42") "Call"; Undo; Redo;
             Edit (Some "42") "Call back" ] editing).
  unfold maxUndoSteps. simpl. lia.
Defined.

(** *** Notes in the local storage *)

Lemma getLocalNotes_saveLocalNotes dealId content s :
  dealId ≠ "__proto__" ->
  getLocalNotes dealId (saveLocalNotes dealId content s) = content.
Proof.
  intros Hne. unfold getLocalNotes, saveLocalNotes, getLocalNotesData, now.
  simpl. destruct (String.eqb_spec dealId "__proto__"); [ congruence | ].
  simpl. rewrite lookup_insert_eq. reflexivity.
Qed.

(** X18: a note saved for a deal is what [getLocalNotes] then returns for
    it; the notes of the other deals are untouched; the version of the note
    is one more than before, 1 for a first note; and after
    [clearNotesForDeal] the deal has the empty note again.  (The key
    [__proto__] is no deal: what is saved under it is lost.) *)
Theorem saved_note_is_read_back dealId content (s : NotesManager) :
  dealId ≠ "__proto__" ->
  let s' := saveLocalNotes dealId content s in
  getLocalNotes dealId s' = content
  ∧ (∀ other, other ≠ dealId ->
       getLocalNotes other s' = getLocalNotes other s)
  ∧ version <$> getLocalNotesData s' !! dealId
    = Some (default 0 (version <$> getLocalNotesData s !! dealId) + 1)
  ∧ getLocalNotes dealId (clearNotesForDeal dealId s') = ""
  ∧ (getLocalNotesData s !! "__proto__" = None ->
     getLocalNotesData (saveLocalNotes "__proto__" content s)
     = getLocalNotesData s).
Proof.
  intros Hne s'. subst s'.
  split; [ apply getLocalNotes_saveLocalNotes; exact Hne | ].
  unfold getLocalNotes, clearNotesForDeal, saveLocalNotes, getLocalNotesData,
    now.
  simpl. destruct (String.eqb_spec dealId "__proto__"); [ congruence | ].
  simpl. split; [ | split; [ | split ] ].
  - intros other Ho. rewrite lookup_insert_ne by congruence. reflexivity.
  - rewrite lookup_insert_eq. reflexivity.
  - rewrite lookup_delete_eq. reflexivity.
  - intros Hnone. rewrite bool_decide_eq_true_2 by exact Hnone. reflexivity.
Qed.

Lemma saved_note_is_read_back_witness :
  let s' := saveLocalNotes "42" "Call back" editing in
  getLocalNotes "42" s' = "Call back"
  ∧ (∀ other, other ≠ "42" ->
       getLocalNotes other s' = getLocalNotes other editing)
  ∧ version <$> getLocalNotesData s' !! "42"
    = Some (default 0 (version <$> getLocalNotesData editing !! "42") + 1)
  ∧ getLocalNotes "42" (clearNotesForDeal "42" s') = ""
  ∧ (getLocalNotesData editing !! "__proto__" = None ->
     getLocalNotesData (saveLocalNotes "__proto__" "Call back" editing)
     = getLocalNotesData editing).
Proof.
  apply (saved_note_is_read_back "42" "Call back" editing). discriminate.
Defined.

(** *** Undo and redo *)

Lemma redo_pops (s : NotesManager) R c value :
  redoStack s = R ++ [ c ] ->
  textarea s = Some value ->
  redo s
  = inl (applyState c
           {| currentDealId := currentDealId s; textarea := textarea s;
              undoStack := undoStack s
                ++ [ mkSnapshot (currentDealId s) value (time s (ticks s)) ];
              redoStack := R; stored := stored s; time := time s;
              ticks := S (ticks s) |}).
Proof.
  intros Hr Ht. unfold redo, now. simpl. rewrite Hr, Ht.
  destruct (R ++ [ c ]) as [|x l] eqn:E; [ destruct R; discriminate | ].
  rewrite <- E. rewrite last_last, removelast_last. reflexivity.
Qed.

(** X19: [undo] followed by [redo] puts the text of the notes back: the
    element shows what it showed before, the redo stack is what it was, and
    the undo stack has its length again.  When the manager has a deal open
    the stored note of that deal is this text as well. *)
Theorem undo_then_redo_restores_the_text (s : NotesManager) (value : string) :
  textarea s = Some value ->
  undoStack s ≠ [] ->
  ∃ s1 s2,
    undo s = inl s1 ∧ redo s1 = inl s2
    ∧ textarea s2 = Some value
    ∧ redoStack s2 = redoStack s
    ∧ length (undoStack s2) = length (undoStack s)
    ∧ currentDealId s2 = currentDealId s
    ∧ (∀ dealId, currentDealId s = Some dealId -> dealId ≠ "__proto__" ->
         getLocalNotes dealId s2 = value).
Proof.
  intros Ht Hu.
  destruct (undo s) as [s1|e] eqn:E1.
  2: { unfold undo in E1. rewrite Ht in E1.
       destruct (undoStack s); [ congruence | discriminate ]. }
  apply undo_stacks in E1
    as [[Hnil _] | (value' & Ht' & _ & Hu1 & Hr1 & Hc1 & (value1 & Ht1))];
    [ congruence | ].
  rewrite Ht in Ht'. injection Ht' as <-.
  exists s1. rewrite (redo_pops s1 _ _ value1 Hr1 Ht1).
  eexists. split; [ reflexivity | ]. split; [ reflexivity | ].
  unfold applyState. cbn [sDealId currentDealId].
  rewrite Hc1. rewrite bool_decide_eq_true_2 by reflexivity.
  split; [ reflexivity | ]. split; [ reflexivity | ].
  split; [ | split; [ reflexivity | ] ].
  - simpl. rewrite length_app, Hu1, length_removelast_pred. simpl.
    destruct (undoStack s); [ congruence | simpl; lia ].
  - intros dealId Hd Hne. rewrite Hd. apply getLocalNotes_saveLocalNotes.
    exact Hne.
Qed.

Lemma undo_then_redo_restores_the_text_witness :
  ∃ s1 s2,
    undo editing = inl s1 ∧ redo s1 = inl s2
    ∧ textarea s2 = Some "Call back on Monday"
    ∧ redoStack s2 = redoStack editing
    ∧ length (undoStack s2) = length (undoStack editing)
    ∧ currentDealId s2 = currentDealId editing
    ∧ (∀ dealId, currentDealId editing = Some dealId ->
         dealId ≠ "__proto__" ->
         getLocalNotes dealId s2 = "Call back on Monday").
Proof.
  apply (undo_then_redo_restores_the_text editing "Call back on Monday");
    [ reflexivity | discriminate ].
Defined.

Lemma undo_pops (s : NotesManager) U c value :
  undoStack s = U ++ [ c ] ->
  textarea s = Some value ->
  undo s
  = inl (applyState c
           {| currentDealId := currentDealId s; textarea := textarea s;
              undoStack := U;
              redoStack := redoStack s
                ++ [ mkSnapshot (currentDealId s) value (time s (ticks s)) ];
              stored := stored s; time := time s;
              ticks := S (ticks s) |}).
Proof.
  intros Hu Ht. unfold undo, now. simpl. rewrite Hu, Ht.
  destruct (U ++ [ c ]) as [|x l] eqn:E; [ destruct U; discriminate | ].
  rewrite <- E. rewrite last_last, removelast_last. reflexivity.
Qed.

(** X20: an edit pushes the new text, not the text it replaces, onto the
    undo stack.  So the first [undo] after an edit of the open deal (the
    stack not being full) pops that very text: the element shows what it
    showed, the undo stack is what it was before the edit, and the text the
    edit replaced is only reached by a second [undo]. *)
Theorem first_undo_after_an_edit_keeps_the_text
    (s : NotesManager) (content : string) :
  textarea s = Some content ->
  (length (undoStack s) < maxUndoSteps)%nat ->
  ∃ s',
    undo (saveToUndoStack (currentDealId s) content s) = inl s'
    ∧ textarea s' = Some content
    ∧ undoStack s' = undoStack s
    ∧ redoStack s'
      = [ mkSnapshot (currentDealId s) content (time s (S (ticks s))) ].
Proof.
  intros Ht Hlen.
  assert (Hu : undoStack (saveToUndoStack (currentDealId s) content s)
               = undoStack s
                 ++ [ mkSnapshot (currentDealId s) content
                                 (time s (ticks s)) ]).
  { unfold saveToUndoStack, now. cbn [undoStack fst snd].
    rewrite length_app. simpl.
    destruct (Nat.ltb_spec maxUndoSteps (length (undoStack s) + 1));
      [ lia | reflexivity ]. }
  rewrite (undo_pops _ _ _ content Hu Ht).
  eexists. split; [ reflexivity | ].
  unfold applyState. cbn [sDealId currentDealId saveToUndoStack now fst snd].
  rewrite bool_decide_eq_true_2 by reflexivity.
  repeat split.
Qed.

Lemma first_undo_after_an_edit_keeps_the_text_witness :
  ∃ s',
    undo (saveToUndoStack (currentDealId editing) "Call back on Monday"
                          editing)
    = inl s'
    ∧ textarea s' = Some "Call back on Monday"
    ∧ undoStack s' = undoStack editing
    ∧ redoStack s'
      = [ mkSnapshot (currentDealId editing) "Call back on Monday"
                     (time editing (S (ticks editing))) ].
Proof.
  apply (first_undo_after_an_edit_keeps_the_text
           editing "Call back on Monday");
    [ reflexivity | unfold maxUndoSteps; simpl; lia ].
Defined.

End NotesFacts.

(** ** Authentication on the Hocuspocus server *)

Module HooksFacts.

Import Hocuspocus HocuspocusFacts Hooks.

(** X21: [onAuthenticate] returns a context exactly for the document names
    [<entityType>:<entityId>] that the validation accepts, and then only in
    the development environment or with a token that is not empty.  Every
    refusal is thrown to the caller after it has been logged as
    [Authentication failed]. *)
Theorem onAuthenticate_admits
    (nodeEnv : option string) (token : JsVal) (documentName : string)
    (requestHeaders : Obj) :
  ((∃ ctx, (onAuthenticate nodeEnv token documentName requestHeaders).2
           = inl ctx)
   <-> wellFormed documentName
       ∧ (nodeEnv = Some "development" ∨ truthy token = true))
  ∧ (∀ e, (onAuthenticate nodeEnv token documentName requestHeaders).2
          = inr e ->
       List.last (onAuthenticate nodeEnv token documentName requestHeaders).1
                 (mkLogEntry "" "" None [])
       = mkLogEntry "error" "Authentication failed" (Some e)
           [ ("documentName", VStr documentName);
             ("hasToken", VBool (truthy token)) ]).
Proof.
  pose proof (accepted_iff documentName) as Hacc.
  unfold accepted in Hacc. unfold onAuthenticate.
  destruct (validateDocumentName documentName) as [name|e0].
  - destruct (bool_decide (nodeEnv = Some "development")) eqn:Hdev.
    + apply bool_decide_eq_true in Hdev. split.
      * split; [ intros _; split; [ apply Hacc; reflexivity | left; exact Hdev ]
               | intros _; eexists; reflexivity ].
      * intros e H. discriminate H.
    + apply bool_decide_eq_false in Hdev.
      destruct (truthy token) eqn:Htok; simpl.
      * split.
        -- split; [ intros _; split; [ apply Hacc; reflexivity
                                     | right; reflexivity ]
                  | intros _; eexists; reflexivity ].
        -- intros e H. discriminate H.
      * split.
        -- split; [ intros [ctx H]; discriminate H | ].
           intros [_ [H | H]]; [ contradiction | discriminate H ].
        -- intros e [= <-]. apply last_last.
  - simpl. split.
    + split; [ intros [ctx H]; discriminate H | ].
      intros [H _]. apply Hacc in H. discriminate H.
    + intros e [= <-]. reflexivity.
Qed.

(** X22: no deal session of the browser client is admitted by the server:
    whatever the namespace, the deal, the token and the environment, the
    document name that [joinDeal] gives its provider makes [onAuthenticate]
    throw. *)
Theorem client_sessions_are_refused
    (nodeEnv : option string) (token : JsVal) (cfg : Realtime.Config)
    (dealId : string) (requestHeaders : Obj) :
  ∃ e,
    (onAuthenticate nodeEnv token (Realtime.docName cfg dealId)
                    requestHeaders).2
    = inr e
    ∧ (e = Error (formatMessage (Realtime.docName cfg dealId))
       ∨ ∃ t, e = Error (typeMessage t)).
Proof.
  pose proof (client_document_name_rejected cfg dealId) as Hrej.
  destruct (rejection_is_descriptive _ Hrej) as [H | [t H]];
    unfold onAuthenticate; rewrite H; eexists;
    (split; [ reflexivity | ]); [ left | right; exists t ]; reflexivity.
Qed.

End HooksFacts.

(** ** Merging downloaded records *)

Module SyncFacts.

Import API Sync.

Lemma mergeItem_returns localData strategy remoteItem :
  strategy ∈ knownStrategies ->
  ∃ item isNew isConflict,
    mergeItem localData strategy remoteItem = Ok (item, isNew, isConflict)
    ∧ (isNew && isConflict = false)
    ∧ (lookupById localData (get remoteItem "id") = None ->
       item = Some remoteItem ∧ isNew = true)
    ∧ (strategy = "server-wins" -> item = Some remoteItem)
    ∧ (strategy ≠ "prompt" -> is_Some item)
    ∧ (strategy = "prompt" ->
       ∀ localItem,
         lookupById localData (get remoteItem "id") = Some localItem ->
         get localItem "_version" ≠ get remoteItem "_version" ->
         item = None).
Proof.
  intros Hs. unfold mergeItem.
  destruct (lookupById localData (get remoteItem "id")) as [localItem|].
  2: { eexists _, _, _. split; [ reflexivity | ].
       repeat split; eauto; intros; discriminate. }
  destruct (bool_decide_reflect
              (get localItem "_version" ≠ get remoteItem "_version"))
    as [Hv | Hv].
  2: { eexists _, _, _. split; [ reflexivity | ].
       repeat split; eauto; try (intros; discriminate).
       intros _ l Hl Hne. injection Hl as <-. contradiction. }
  unfold knownStrategies in Hs. rewrite !elem_of_cons in Hs.
  destruct Hs as [-> | [-> | [-> | [-> | Hs]]]]; [ | | | | inversion Hs ];
    (eexists _, _, _; split; [ reflexivity | ];
     repeat split; eauto; try (intros; discriminate);
     intros; congruence).
Qed.

Lemma mergeRemote_returns localData strategy remoteData :
  strategy ∈ knownStrategies ->
  ∃ r,
    mergeRemote localData strategy remoteData = Ok r
    ∧ length (merged r) = length remoteData
    ∧ (downloaded r + conflicts r <= length remoteData)%nat
    ∧ (∀ i remoteItem,
         remoteData !! i = Some remoteItem ->
         lookupById localData (get remoteItem "id") = None ->
         merged r !! i = Some (Some remoteItem))
    ∧ (strategy = "server-wins" -> merged r = Some <$> remoteData)
    ∧ (strategy ≠ "prompt" -> Forall is_Some (merged r))
    ∧ (strategy = "prompt" ->
       ∀ i remoteItem localItem,
         remoteData !! i = Some remoteItem ->
         lookupById localData (get remoteItem "id") = Some localItem ->
         get localItem "_version" ≠ get remoteItem "_version" ->
         merged r !! i = Some None).
Proof.
  intros Hs. induction remoteData as [|remoteItem rest IH].
  - eexists. split; [ reflexivity | ]. simpl. repeat split; try lia.
    + intros i remoteItem H. discriminate H.
    + intros _. constructor.
    + intros _ i remoteItem localItem H. discriminate H.
  - destruct IH as (r & E & Hlen & Hcount & Hnew & Hserver & Hkept & Hlost).
    destruct (mergeItem_returns localData strategy remoteItem Hs)
      as (item & isNew & isConflict & Ei & Hexcl & Hnone & Hsw & Hsome & Hp).
    simpl. rewrite Ei, E. eexists. split; [ reflexivity | ].
    cbn [merged downloaded conflicts length].
    split; [ rewrite Hlen; reflexivity | ].
    split; [ | split; [ | split; [ | split ] ] ].
    + destruct isNew, isConflict; try discriminate Hexcl; simpl; lia.
    + intros [|i] x Hx Hl; simpl in *.
      * injection Hx as ->. destruct (Hnone Hl) as [-> _]. reflexivity.
      * apply Hnew; assumption.
    + intros Hsv. rewrite (Hsw Hsv), (Hserver Hsv). reflexivity.
    + intros Hnp. constructor; [ apply Hsome | apply Hkept ]; exact Hnp.
    + intros Hpr [|i] x l Hx Hl Hv; simpl in *.
      * injection Hx as ->. rewrite (Hp Hpr l Hl Hv). reflexivity.
      * eapply Hlost; eassumption.
Qed.

(** X23: with one of the four strategies of the resolver, [mergeData]
    returns a list with one element for every remote item, in the order of
    the remote items, followed by the local items that no remote item shares
    its identifier with.  A remote item unknown locally is taken as it is;
    under [server-wins] every remote item is.  Under every strategy but
    [prompt] each element is a record.  Under [prompt] the element of a
    remote item whose local copy has another version is [undefined]: that
    record is lost.  The counts of downloads and conflicts together do not
    exceed the number of remote items. *)
Theorem mergeData_loses_records_only_under_prompt
    localData remoteData strategy :
  strategy ∈ knownStrategies ->
  ∃ r front,
    mergeData localData remoteData strategy = Ok r
    ∧ merged r = front ++ (Some <$> localOnly localData remoteData)
    ∧ length front = length remoteData
    ∧ (downloaded r + conflicts r <= length remoteData)%nat
    ∧ (∀ i remoteItem,
         remoteData !! i = Some remoteItem ->
         lookupById localData (get remoteItem "id") = None ->
         front !! i = Some (Some remoteItem))
    ∧ (strategy = "server-wins" -> front = Some <$> remoteData)
    ∧ (strategy ≠ "prompt" -> Forall is_Some (merged r))
    ∧ (strategy = "prompt" ->
       ∀ i remoteItem localItem,
         remoteData !! i = Some remoteItem ->
         lookupById localData (get remoteItem "id") = Some localItem ->
         get localItem "_version" ≠ get remoteItem "_version" ->
         merged r !! i = Some None).
Proof.
  intros Hs.
  destruct (mergeRemote_returns localData strategy remoteData Hs)
    as (r & E & Hlen & Hcount & Hnew & Hserver & Hkept & Hlost).
  unfold mergeData. rewrite E. eexists _, (merged r).
  split; [ reflexivity | ]. simpl.
  do 5 (split; [ first [ reflexivity | assumption ] | ]). split.
  - intros Hnp. apply Forall_app. split; [ apply Hkept; exact Hnp | ].
    apply Forall_fmap, Forall_true. intros x. simpl. eauto.
  - intros Hpr i remoteItem localItem Hi Hl Hv.
    rewrite lookup_app_l
      by (rewrite Hlen; apply lookup_lt_is_Some; eauto).
    eapply Hlost; eassumption.
Qed.

Lemma mergeData_loses_records_only_under_prompt_witness :
  ∃ r front,
    mergeData localDeals remoteDeals "prompt" = Ok r
    ∧ merged r = front ++ (Some <$> localOnly localDeals remoteDeals)
    ∧ length front = length remoteDeals
    ∧ (downloaded r + conflicts r <= length remoteDeals)%nat
    ∧ (∀ i remoteItem,
         remoteDeals !! i = Some remoteItem ->
         lookupById localDeals (get remoteItem "id") = None ->
         front !! i = Some (Some remoteItem))
    ∧ ("prompt" = "server-wins" -> front = Some <$> remoteDeals)
    ∧ ("prompt" ≠ "prompt" -> Forall is_Some (merged r))
    ∧ ("prompt" = "prompt" ->
       ∀ i remoteItem localItem,
         remoteDeals !! i = Some remoteItem ->
         lookupById localDeals (get remoteItem "id") = Some localItem ->
         get localItem "_version" ≠ get remoteItem "_version" ->
         merged r !! i = Some None).
Proof.
  apply (mergeData_loses_records_only_under_prompt localDeals remoteDeals
           "prompt").
  unfold knownStrategies. do 3 right. left.
Defined.

(** The deal edited on both sides is lost under ['prompt'] and merged under
    ['merge']. *)
Example mergeData_of_an_edited_deal :
  mergeData localDeals remoteDeals "prompt"
  = Ok (mkMergeResult
          [ None;
            Some {[ "id" := VNum 2; "_version" := VNum 1;
                    "title" := VStr "Other" ]};
            Some {[ "id" := VStr "offline_1"; "title" := VStr "Unsent" ]} ]
          1 1)
  ∧ mergeData localDeals remoteDeals "merge"
    = Ok (mkMergeResult
            [ Some {[ "id" := VNum 1; "_version" := VNum 2;
                      "title" := VStr "New" ]};
              Some {[ "id" := VNum 2; "_version" := VNum 1;
                      "title" := VStr "Other" ]};
              Some {[ "id" := VStr "offline_1"; "title" := VStr "Unsent" ]} ]
            1 1).
Proof. split; vm_compute; reflexivity. Qed.

End SyncFacts.

(** ** Reading a deal that the store does not return *)

Module DealFacts.

Import API Requests RequestFacts.

#[local] Arguments bind : simpl never.
#[local] Arguments tryCatch : simpl never.
#[local] Arguments when : simpl never.
#[local] Arguments gets : simpl never.
#[local] Arguments modify : simpl never.
#[local] Arguments ret : simpl never.
#[local] Arguments throw : simpl never.

(** X24: when the store answers the request of [getDeal] with a status that
    is not retried (404, say) and the cache has no answer, [getDeal] sends
    that one request and then falls back on the copy of the deal kept for
    offline use: it returns the copy if there is one, and otherwise throws
    [Failed to fetch deal: HTTP <status>: <statusText>] with that status. *)
Theorem getDeal_falls_back_on_offline_copy
    (id : JsVal) w st statusText responseData :
  missed "GET" (dealEndpoint w id) None true w ->
  network w (length (requests w)) = Responds st statusText responseData ->
  statusOk st = false ->
  st < 500 -> st ≠ 408 -> st ≠ 409 -> st ≠ 429 ->
  ∃ w',
    getDeal id w
    = (match offlineData w !! ("deal_" +:+ toString id) with
       | Some deal => Ok deal
       | None =>
           Throw (APIError ("Failed to fetch deal: " +:+ "HTTP "
                            +:+ pretty st +:+ ": " +:+ statusText) st)
       end, w')
    ∧ requests w' = requests w ++ [ sentRequest "GET" (dealEndpoint w id) None ].
Proof.
  intros Hmiss Hnet Hok H500 H408 H409 H429.
  destruct (makeRequest_single_attempt "GET" (dealEndpoint w id) None 0 true
              w st statusText responseData Hmiss Hnet Hok H500 H408 H409 H429)
    as (w2 & E & Hreq).
  pose proof (keeps_offlineData_makeRequest "GET" (dealEndpoint w id) None 0
                true w) as Hkeep.
  rewrite E in Hkeep. simpl in Hkeep.
  unfold getDeal.
  match goal with
  | |- ∃ _, tryCatch ?body _ w = _ ∧ _ =>
      assert (Eb : body w
                   = (Throw (APIError ("Failed to fetch deal: " +:+ "HTTP "
                                       +:+ pretty st +:+ ": " +:+ statusText)
                                      st), w2))
  end.
  { assert (E0 : buildDataEndpoint "deals" w
                 = (Ok ("/api/v1/db/data/" +:+ orgId w +:+ "/"
                        +:+ projectId w +:+ "/" +:+ "deals"), w))
      by reflexivity.
    rewrite (bind_eq _ _ _ _ _ E0). cbv zeta.
    change ((("/api/v1/db/data/" +:+ orgId w +:+ "/" +:+ projectId w +:+ "/"
              +:+ "deals") +:+ "/" +:+ toString id)
            +:+ "?include=company%2Ccontact")
      with (dealEndpoint w id).
    rewrite (bind_eq _ _ _ _ _ E). reflexivity. }
  rewrite (tryCatch_throw_eq _ _ _ _ _ Eb).
  match goal with
  | |- context [ bind (logError ?what ?error) _ w2 ] =>
      rewrite (bind_eq (logError what error) _ w2 tt
                 (set_consoleErrors
                    (consoleErrors w2 ++ [ what +:+ " " +:+ message error ])
                    w2) eq_refl)
  end.
  unfold getOfflineData.
  match goal with
  | |- context [ bind (gets ?f) _ ?wl ] =>
      rewrite (bind_eq (gets f) _ wl (f wl) wl eq_refl)
  end.
  cbv beta.
  change (offlineData (set_consoleErrors ?l w2)) with (offlineData w2).
  rewrite Hkeep.
  destruct (offlineData w !! ("deal_" +:+ toString id)) as [deal|];
    eexists; (split; [ reflexivity | exact Hreq ]).
Qed.

Lemma getDeal_falls_back_on_offline_copy_witness :
  ∃ w',
    getDeal (VNum 7) (connectedWorld notFound [])
    = (match offlineData (connectedWorld notFound [])
               !! ("deal_" +:+ toString (VNum 7)) with
       | Some deal => Ok deal
       | None =>
           Throw (APIError ("Failed to fetch deal: " +:+ "HTTP "
                            +:+ pretty 404 +:+ ": " +:+ "Not Found") 404)
       end, w')
    ∧ requests w'
      = requests (connectedWorld notFound [])
        ++ [ sentRequest "GET"
               (dealEndpoint (connectedWorld notFound []) (VNum 7)) None ].
Proof.
  apply (getDeal_falls_back_on_offline_copy
           (VNum 7) (connectedWorld notFound []) 404 "Not Found" ∅);
    [ right; reflexivity | reflexivity | reflexivity | lia | lia | lia | lia ].
Defined.

End DealFacts.

(** ** Merging a second time *)

Module MergeFacts.

Import ConflictResolver ConflictResolverFacts.

(** X25: the strategy ['merge'] is stable: merging its result with the same
    remote record once more gives the same record, and merging a record
    with itself gives the record back. *)
Theorem merge_is_stable (local remote : Obj) :
  resolved (merge (resolved (merge local remote)) remote)
  = resolved (merge local remote)
  ∧ resolved (merge remote remote) = remote.
Proof.
  split; apply map_eq; intros k; rewrite !merge_lookup.
  - destruct (remote !! k); [ reflexivity | ].
    destruct (has_in k remote || startsWith "_" k); reflexivity.
  - destruct (remote !! k) eqn:E; [ reflexivity | ].
    destruct (has_in k remote || startsWith "_" k); reflexivity.
Qed.

End MergeFacts.

(** ** Draining the offline queue *)

Module DrainFacts.

Import API Requests APIFacts RequestFacts ValidationFacts.

#[local] Arguments bind : simpl never.
#[local] Arguments tryCatch : simpl never.
#[local] Arguments when : simpl never.
#[local] Arguments gets : simpl never.
#[local] Arguments modify : simpl never.
#[local] Arguments ret : simpl never.
#[local] Arguments throw : simpl never.
#[local] Arguments stuck : simpl never.

(** *** One iteration of the drain *)

(** The body of the loop at position [i].  Either the replay leaves the
    model, and the drain with it; or the entry has been replayed once: the
    history gets one entry; the queue keeps its entries, the one at [i] with
    its retries incremented when the replay threw; the identifier is
    collected when the replay returned or the retries reached the ceiling,
    and in the latter case the drop is in the error log. *)
Lemma drainEntry_run fuel i item processedItems w :
  let r := drainEntry fuel i item processedItems w in
  (r.1 = Stuck ∧ frame w r.2)
  ∨ ∃ (returned : bool) pushed logged,
      r.1 = Ok (if removed (attempts (retryConfig w)) (item, returned)
                then processedItems ++ [ qid item ] else processedItems)
      ∧ replays r.2 = replays w ++ [ (item, returned) ]
      ∧ retryConfig r.2 = retryConfig w
      ∧ isConnected r.2 = isConnected w
      ∧ network r.2 = network w
      ∧ offlineQueue r.2
        = (if returned then offlineQueue w ++ pushed
           else alter bumpRetries i (offlineQueue w ++ pushed))
      ∧ consoleErrors r.2 = consoleErrors w ++ logged
      ∧ (returned = false ->
         (attempts (retryConfig w) <= S (retries item))%nat ->
         ∃ msg, dropLine item msg ∈ logged)
      ∧ match (processOfflineItem fuel item w).1 with
        | Ok _ => returned = true
        | Throw _ => returned = false
        | Stuck => False
        end.
Proof.
  intros r. subst r. unfold drainEntry.
  pose proof (framed_processOfflineItem fuel item w) as Hframe.
  unfold tryCatch, bind.
  destruct (processOfflineItem fuel item w) as [[v | e | ] w1];
    simpl in Hframe;
    destruct Hframe as ([pushed Hq] & Hcfg & Hcon & Hrep & Hnet & [logged Hlog]).
  - right. exists true, pushed, logged.
    unfold recordReplay, modify, ret. simpl.
    rewrite Hrep, Hcfg, Hcon, Hnet, Hq, Hlog.
    repeat split; try assumption. intros H. discriminate H.
  - right.
    unfold recordReplay, modify, gets, logError, ret. simpl.
    rewrite Hcfg. unfold removed. simpl.
    destruct (Nat.leb_spec (attempts (retryConfig w)) (S (retries item)))
      as [Hle | Hlt].
    + exists false, pushed, (logged ++ [ dropLine item (message e) ]).
      simpl. rewrite Hrep, Hcon, Hnet, Hq, Hlog, <- app_assoc.
      repeat split; try assumption. intros _ _. exists (message e).
      apply elem_of_app. right. apply list_elem_of_singleton. reflexivity.
    + eexists false, pushed, (logged ++ [ _ ]).
      simpl. rewrite Hrep, Hcon, Hnet, Hq, Hlog, <- app_assoc.
      repeat split; try assumption. intros _ Hle. lia.
  - left. split; [ reflexivity | ]. simpl.
    unfold frame. split; [ eauto | ]. repeat split; eauto.
Qed.

(** *** The loop of the drain *)

Lemma bind_stuck_eq {A B} (m : M A) (k : A -> M B) w w1 :
  m w = (Stuck, w1) -> bind m k w = (Stuck, w1).
Proof. intros H. unfold bind. rewrite H. reflexivity. Qed.

Lemma drainFrom_eq fuel i processedItems :
  drainFrom (S fuel) i processedItems
  = (let! queue := gets offlineQueue in
     match queue !! i with
     | None => ret processedItems
     | Some item =>
         let! processedItems := drainEntry fuel i item processedItems in
         drainFrom fuel (S i) processedItems
     end).
Proof. reflexivity. Qed.

(** A run of the loop from position [i], ended or not.  The history grows
    by one entry per position visited, in order.  Every entry that was in the
    queue from [i] on either has been replayed, exactly as it stood there,
    and is still at its position, its retries incremented when its replay
    threw and the drop logged when they reached the ceiling; or the run has
    not come to it, and has not ended.  The entries before [i] are untouched.
    The loop never throws; when it ends, the identifiers collected are those
    of the history entries marked [removed]. *)
Lemma drainFrom_run fuel :
  ∀ i processedItems w,
    let r := drainFrom fuel i processedItems w in
    let ceiling := attempts (retryConfig w) in
    ∃ rest : list (QueueItem * bool),
      replays r.2 = replays w ++ rest
      ∧ retryConfig r.2 = retryConfig w
      ∧ isConnected r.2 = isConnected w
      ∧ network r.2 = network w
      ∧ (∃ logged, consoleErrors r.2 = consoleErrors w ++ logged)
      ∧ (r.1 = Stuck ∨ r.1 = Ok (processedItems ++ collected ceiling rest))
      ∧ (∀ j, (j < i)%nat -> offlineQueue r.2 !! j = offlineQueue w !! j)
      ∧ (∀ (j : nat) (item : QueueItem),
           (i <= j)%nat -> offlineQueue w !! j = Some item ->
           match rest !! (j - i)%nat with
           | Some (replayed, returned) =>
               replayed = item
               ∧ offlineQueue r.2 !! j
                 = Some (if returned : bool then item else bumpRetries item)
               ∧ (returned = false -> (ceiling <= S (retries item))%nat ->
                  ∃ msg, dropLine item msg ∈ consoleErrors r.2)
               ∧ (∃ wj pj fj,
                    r = drainFrom (S fj) j pj wj
                    ∧ replays wj = replays w ++ take (j - i) rest
                    ∧ match (processOfflineItem fj item wj).1 with
                      | Ok _ => returned = true
                      | Throw _ => returned = false
                      | Stuck => False
                      end)
           | None => r.1 = Stuck ∧ offlineQueue r.2 !! j = Some item
           end).
Proof.
  induction fuel as [|fuel IH]; intros i p w r ceiling; subst r ceiling.
  - change (drainFrom 0 i p w) with (@Stuck (list string), w).
    exists []. simpl. rewrite app_nil_r.
    do 4 (split; [ reflexivity | ]).
    split; [ exists []; symmetry; apply app_nil_r | ].
    split; [ left; reflexivity | ]. split; [ reflexivity | ].
    intros j item _ Hj. split; [ reflexivity | exact Hj ].
  - assert (Hstep : drainFrom (S fuel) i p w
                    = match offlineQueue w !! i with
                      | None => ret p w
                      | Some item =>
                          (let! processedItems := drainEntry fuel i item p in
                           drainFrom fuel (S i) processedItems) w
                      end).
    { rewrite drainFrom_eq.
      rewrite (bind_eq (gets offlineQueue) _ w (offlineQueue w) w eq_refl).
      destruct (offlineQueue w !! i); reflexivity. }
    rewrite Hstep.
    destruct (offlineQueue w !! i) as [it|] eqn:Hi.
    2: { change (ret p w) with (Ok p, w).
         exists []. unfold collected. simpl. rewrite !app_nil_r.
         do 4 (split; [ reflexivity | ]).
         split; [ exists []; symmetry; apply app_nil_r | ].
         split; [ right; reflexivity | ]. split; [ reflexivity | ].
         intros j item Hj Hitem. apply lookup_ge_None in Hi.
         assert (offlineQueue w !! j = None) by (apply lookup_ge_None; lia).
         congruence. }
    assert (Hlen : (i < length (offlineQueue w))%nat)
      by (apply lookup_lt_is_Some; eauto).
    destruct (drainEntry_run fuel i it p w)
      as [[Hs Hf] | (returned & pushed & logged & Hr & Hrep & Hcfg & Hcon
                     & Hnet & Hq & Hlog & Hdrop & Hout)];
      destruct (drainEntry fuel i it p w) as [res w2] eqn:E;
      simpl in *; subst res.
    + rewrite (bind_stuck_eq _ _ _ _ E). simpl.
      destruct Hf as ([pushed Hq] & Hcfg & Hcon & Hrep & Hnet & Hlog).
      exists []. rewrite app_nil_r.
      do 4 (split; [ assumption | ]). split; [ exact Hlog | ].
      split; [ left; reflexivity | ]. split.
      * intros j Hj. rewrite Hq. apply lookup_app_l. lia.
      * intros j item _ Hj. simpl. split; [ reflexivity | ].
        rewrite Hq. rewrite lookup_app_l; [ exact Hj | ].
        apply lookup_lt_is_Some. eauto.
    + rewrite (bind_eq _ _ _ _ _ E) in *.
      match goal with
      | |- context [ drainFrom fuel (S i) ?p2 w2 ] =>
          destruct (IH (S i) p2 w2)
            as (rest & Hrep' & Hcfg' & Hcon' & Hnet' & [logged' Hlog']
                & Hres' & Hlt & Hge);
          destruct (drainFrom fuel (S i) p2 w2) as [res' w'] eqn:E'
      end.
      simpl in *. rewrite Hcfg in Hres', Hge.
      assert (Hother : ∀ j, j ≠ i -> (j < length (offlineQueue w))%nat ->
                            offlineQueue w2 !! j = offlineQueue w !! j).
      { intros j Hne Hj. rewrite Hq. destruct returned.
        - apply lookup_app_l. exact Hj.
        - rewrite list_lookup_alter_ne by congruence.
          apply lookup_app_l. exact Hj. }
      assert (Hat : offlineQueue w2 !! i
                    = Some (if returned then it else bumpRetries it)).
      { rewrite Hq. destruct returned.
        - rewrite lookup_app_l by exact Hlen. exact Hi.
        - rewrite list_lookup_alter. rewrite lookup_app_l by exact Hlen.
          rewrite Hi. rewrite decide_True by reflexivity. reflexivity. }
      exists ((it, returned) :: rest).
      split; [ rewrite Hrep', Hrep, <- app_assoc; reflexivity | ].
      split; [ congruence | ]. split; [ congruence | ].
      split; [ congruence | ].
      split; [ exists (logged ++ logged'); rewrite Hlog', Hlog;
               symmetry; apply app_assoc | ].
      split.
      { destruct Hres' as [-> | ->]; [ left; reflexivity | right ].
        f_equal. unfold collected. rewrite filter_cons.
        destruct (decide (removed (attempts (retryConfig w)) (it, returned)
                          = true)) as [Hrm | Hrm].
        - rewrite Hrm. simpl. rewrite <- app_assoc. reflexivity.
        - apply not_true_is_false in Hrm. rewrite Hrm. reflexivity. }
      split.
      { intros j Hj. rewrite Hlt by lia. apply Hother; lia. }
      intros j item Hj Hitem.
      destruct (decide (j = i)) as [-> | Hne].
      * rewrite Hi in Hitem. injection Hitem as <-.
        rewrite Nat.sub_diag. simpl.
        split; [ reflexivity | ]. split; [ rewrite Hlt by lia; exact Hat | ].
        split.
        { intros Hret Hceil. destruct (Hdrop Hret Hceil) as (msg & Hmsg).
          exists msg. rewrite Hlog', Hlog.
          apply elem_of_app. left. apply elem_of_app. right. exact Hmsg. }
        exists w, p, fuel. rewrite app_nil_r.
        split; [ symmetry; exact Hstep | ]. split; [ reflexivity | exact Hout ].
      * assert (Hj2 : offlineQueue w2 !! j = Some item).
        { rewrite Hother; [ exact Hitem | exact Hne | ].
          apply lookup_lt_is_Some. eauto. }
        specialize (Hge j item ltac:(lia) Hj2).
        replace (j - i)%nat with (S (j - S i)) by lia. simpl.
        destruct (rest !! (j - S i)%nat) as [[replayed flag]|];
          [ | exact Hge ].
        destruct Hge as (G1 & G2 & G3 & wj & pj & fj & G0 & G4 & G5).
        split; [ exact G1 | ]. split; [ exact G2 | ]. split; [ exact G3 | ].
        exists wj, pj, fj. split; [ exact G0 | ]. split; [ | exact G5 ].
        rewrite G4, Hrep, <- app_assoc. reflexivity.
Qed.

(** A drain of a connected manager with a queue, ended or not: the history
    [rest] it wrote, the world [wl] its loop left, and what follows the loop
    when the loop ends. *)
Lemma processOfflineQueue_run fuel w :
  isConnected w = true ->
  offlineQueue w ≠ [] ->
  let r := processOfflineQueue fuel w in
  let ceiling := attempts (retryConfig w) in
  ∃ (rest : list (QueueItem * bool)) (wl : World),
    replays r.2 = replays w ++ rest
    ∧ consoleErrors r.2 = consoleErrors wl
    ∧ (∀ (j : nat) (item : QueueItem),
         offlineQueue w !! j = Some item ->
         match rest !! j with
         | Some (replayed, returned) =>
             replayed = item
             ∧ offlineQueue wl !! j
               = Some (if returned : bool then item else bumpRetries item)
             ∧ (returned = false -> (ceiling <= S (retries item))%nat ->
                ∃ msg, dropLine item msg ∈ consoleErrors wl)
             ∧ (∃ wj pj fj,
                  drainFrom fuel 0 [] w = drainFrom (S fj) j pj wj
                  ∧ replays wj = replays w ++ take j rest
                  ∧ match (processOfflineItem fj item wj).1 with
                    | Ok _ => returned = true
                    | Throw _ => returned = false
                    | Stuck => False
                    end)
         | None => r.1 = Stuck ∧ offlineQueue wl !! j = Some item
         end)
    ∧ ((r.1 = Stuck ∧ r.2 = wl)
       ∨ (r.1 = Ok tt
          ∧ offlineQueue r.2
            = filter (fun item => qid item ∉ collected ceiling rest)
                     (offlineQueue wl)
          ∧ storedQueue r.2 = Some (offlineQueue r.2)
          ∧ emitted r.2
            = emitted wl
              ++ [ queueProcessed (length (collected ceiling rest))
                                  (length (offlineQueue r.2)) ])).
Proof.
  intros Hcon Hne r ceiling. subst r ceiling. unfold processOfflineQueue.
  rewrite (bind_eq (gets isConnected) _ w (isConnected w) w eq_refl).
  rewrite (bind_eq (gets offlineQueue) _ w (offlineQueue w) w eq_refl).
  rewrite Hcon.
  replace (length (offlineQueue w) =? 0)%nat with false
    by (destruct (offlineQueue w); [ contradiction | reflexivity ]).
  change (negb true || false) with false. cbv iota.
  destruct (drainFrom_run fuel 0 [] w)
    as (rest & Hrep & Hcfg & Hcon' & Hnet & _ & Hres & _ & Hge).
  destruct (drainFrom fuel 0 [] w) as [res wl] eqn:E. simpl in *.
  assert (Hpos : ∀ (j : nat) (item : QueueItem),
            offlineQueue w !! j = Some item ->
            match rest !! j with
            | Some (replayed, returned) =>
                replayed = item
                ∧ offlineQueue wl !! j
                  = Some (if returned : bool then item else bumpRetries item)
                ∧ (returned = false ->
                   (attempts (retryConfig w) <= S (retries item))%nat ->
                   ∃ msg, dropLine item msg ∈ consoleErrors wl)
                ∧ (∃ wj pj fj,
                     (res, wl) = drainFrom (S fj) j pj wj
                     ∧ replays wj = replays w ++ take j rest
                     ∧ match (processOfflineItem fj item wj).1 with
                       | Ok _ => returned = true
                       | Throw _ => returned = false
                       | Stuck => False
                       end)
            | None => res = Stuck ∧ offlineQueue wl !! j = Some item
            end).
  { intros j item Hj. specialize (Hge j item ltac:(lia) Hj).
    rewrite Nat.sub_0_r in Hge. exact Hge. }
  destruct Hres as [-> | ->].
  - rewrite (bind_stuck_eq _ _ _ _ E). simpl.
    exists rest, wl. split; [ exact Hrep | ]. split; [ reflexivity | ].
    split; [ | left; split; reflexivity ].
    intros j item Hj. specialize (Hpos j item Hj).
    destruct (rest !! j) as [[replayed returned]|]; [ exact Hpos | ].
    split; [ reflexivity | apply Hpos ].
  - rewrite (bind_eq _ _ _ _ _ E).
    unfold bind, modify, setOfflineQueue, gets, emit. simpl.
    exists rest, wl. split; [ exact Hrep | ]. split; [ reflexivity | ].
    split; [ | right; repeat split ].
    intros j item Hj. specialize (Hpos j item Hj).
    destruct (rest !! j) as [[replayed returned]|]; [ exact Hpos | ].
    destruct Hpos as [Hpos _]. discriminate Hpos.
Qed.

Lemma collected_elem ceiling rest (e : QueueItem * bool) :
  e ∈ rest -> removed ceiling e = true -> qid e.1 ∈ collected ceiling rest.
Proof.
  intros Hin Hr. unfold collected.
  apply (list_elem_of_fmap_2 (fun e : QueueItem * bool => qid e.1)).
  apply list_elem_of_filter. split; assumption.
Qed.

Lemma collected_inv ceiling rest id :
  id ∈ collected ceiling rest ->
  ∃ e, e ∈ rest ∧ qid e.1 = id ∧ removed ceiling e = true.
Proof.
  unfold collected. intros H.
  apply list_elem_of_fmap_1 in H as (e & -> & He).
  apply list_elem_of_filter in He as [Hr Hin]. eauto.
Qed.

(** *** A drain that does not end *)

(** What replaying a queued creation of a deal is. *)
Lemma replay_of_create fuel item d :
  createEntry d item ->
  processOfflineItem fuel item
  = (let! deal := createDeal (Some d) notOptimistic in ret (RetObj deal)).
Proof.
  intros (Hop & Hty & Hd). unfold processOfflineItem, callMember.
  rewrite Hop, Hty, Hd. reflexivity.
Qed.

(** While the network refuses every request, the replay of a creation
    returns: [createDeal] has queued the creation again, as a new entry at
    the end of the queue, behind the entries of its failed attempts.  The
    drain takes the replay for a success. *)
Lemma drainEntry_requeues fuel i item processedItems w d :
  createEntry d item ->
  (validateDealData (Some d) w).1 = Ok tt ->
  (∀ n, network w n = Rejects failedToFetch) ->
  ∃ w2 queued item',
    drainEntry fuel i item processedItems w
    = (Ok (processedItems ++ [ qid item ]), w2)
    ∧ offlineQueue w2 = offlineQueue w ++ queued ++ [ item' ]
    ∧ Forall (fun q => operation q = None) queued
    ∧ createEntry d item'
    ∧ retries item' = 0%nat
    ∧ network w2 = network w.
Proof.
  intros Hc Hvalid Hnet.
  destruct (createDeal_unreachable_run d notOptimistic w Hvalid Hnet)
    as (w1 & apiData & t & queued & item' & E & _ & _ & Hq & _ & Hreq
        & Hitem' & _).
  pose proof (framed_createDeal (Some d) notOptimistic w) as Hf.
  rewrite E in Hf. simpl in Hf. destruct Hf as (_ & _ & _ & _ & Hn & _).
  unfold drainEntry. rewrite (replay_of_create fuel item d Hc).
  eexists _, queued, item'. split.
  { apply tryCatch_ok_eq.
    rewrite (bind_eq _ _ _ _ _ (bind_eq _ _ _ _ _ E)).
    unfold recordReplay, bind, modify, ret. reflexivity. }
  simpl. split; [ exact Hq | ]. split.
  { eapply Forall_impl; [ exact Hreq | ].
    intros q Hrq. apply Hrq. }
  destruct Hitem' as (H1 & H2 & _ & _ & H3 & H4).
  split; [ repeat split; assumption | ]. split; assumption.
Qed.

(** An entry without an operation, as failed attempts queue them, cannot be
    replayed: its retries are incremented and the drain goes on. *)
Lemma drainEntry_unknown fuel i item processedItems w :
  operation item = None ->
  ∃ w2 processedItems',
    drainEntry fuel i item processedItems w = (Ok processedItems', w2)
    ∧ offlineQueue w2 = alter bumpRetries i (offlineQueue w)
    ∧ network w2 = network w.
Proof.
  intros Hop.
  assert (E : processOfflineItem fuel item w
              = (Throw (Error "Unknown operation: undefined"), w)).
  { unfold processOfflineItem. rewrite Hop. reflexivity. }
  unfold drainEntry.
  rewrite (tryCatch_throw_eq _ _ _ _ _ (bind_throw_eq _ _ _ _ _ E)).
  unfold recordReplay, bind, modify, gets, logError, ret. simpl.
  destruct (attempts (retryConfig w) <=? S (retries item))%nat;
    eexists _, _; (split; [ reflexivity | ]); split; reflexivity.
Qed.

(** While the network refuses every request, the loop of a drain that has a
    creation of a valid deal before it does not end, whatever the fuel: the
    entry that each replay of the creation pushes is visited in its turn.
    When the fuel is used up the queue is longer than the number of entries
    visited. *)
Lemma drainFrom_runs_on (d : Obj) :
  (∀ w, (validateDealData (Some d) w).1 = Ok tt) ->
  ∀ fuel i processedItems w,
    (∀ n, network w n = Rejects failedToFetch) ->
    Forall (pendingEntry d) (offlineQueue w) ->
    (∃ j item, (i <= j)%nat ∧ offlineQueue w !! j = Some item
               ∧ createEntry d item) ->
    ∃ w',
      drainFrom fuel i processedItems w = (Stuck, w')
      ∧ (i + fuel < length (offlineQueue w'))%nat.
Proof.
  intros Hvalid.
  induction fuel as [|fuel IH];
    intros i p w Hnet Hall (j & item & Hij & Hj & Hc).
  - exists w. split; [ reflexivity | ]. apply lookup_lt_Some in Hj. lia.
  - rewrite drainFrom_eq.
    rewrite (bind_eq (gets offlineQueue) _ w (offlineQueue w) w eq_refl).
    assert (Hlen : (j < length (offlineQueue w))%nat)
      by (eapply lookup_lt_Some; exact Hj).
    destruct (lookup_lt_is_Some_2 (offlineQueue w) i ltac:(lia)) as [it Hi].
    rewrite Hi.
    destruct (proj1 (Forall_lookup _ _) Hall i it Hi) as [Hcreate | Hnone].
    + destruct (drainEntry_requeues fuel i it p w d Hcreate (Hvalid w) Hnet)
        as (w2 & queued & item' & E & Hq & Hreq & Hc' & _ & Hn).
      rewrite (bind_eq _ _ _ _ _ E).
      destruct (IH (S i) (p ++ [ qid it ]) w2) as (w' & E' & Hlen').
      * intros n. rewrite Hn. apply Hnet.
      * rewrite Hq. apply Forall_app. split; [ exact Hall | ].
        apply Forall_app. split.
        -- eapply Forall_impl; [ exact Hreq | ]. intros q Hq'. right. exact Hq'.
        -- constructor; [ left; exact Hc' | constructor ].
      * exists (length (offlineQueue w) + length queued)%nat, item'.
        split; [ lia | ]. split; [ | exact Hc' ].
        rewrite Hq, app_assoc, lookup_app_r by (rewrite length_app; lia).
        rewrite length_app.
        replace (_ - _)%nat with 0%nat by lia. reflexivity.
      * exists w'. split; [ exact E' | lia ].
    + destruct (drainEntry_unknown fuel i it p w Hnone)
        as (w2 & p2 & E & Hq & Hn).
      rewrite (bind_eq _ _ _ _ _ E).
      assert (Hne : j ≠ i).
      { intros ->. rewrite Hi in Hj. injection Hj as ->.
        destruct Hc as (Hop & _). congruence. }
      destruct (IH (S i) p2 w2) as (w' & E' & Hlen').
      * intros n. rewrite Hn. apply Hnet.
      * rewrite Hq. apply Forall_alter; [ exact Hall | ].
        intros x _ [(H1 & H2 & H3) | H]; [ left | right ];
          [ repeat split; assumption | exact H ].
      * exists j, item. split; [ lia | ]. split; [ | exact Hc ].
        rewrite Hq, list_lookup_alter_ne by congruence. exact Hj.
      * exists w'. split; [ exact E' | lia ].
Qed.

(** The drain of such a queue by a connected manager does not end. *)
Lemma drain_runs_on (d : Obj) fuel w :
  (∀ w, (validateDealData (Some d) w).1 = Ok tt) ->
  isConnected w = true ->
  (∀ n, network w n = Rejects failedToFetch) ->
  Forall (pendingEntry d) (offlineQueue w) ->
  (∃ item, item ∈ offlineQueue w ∧ createEntry d item) ->
  ∃ w',
    processOfflineQueue fuel w = (Stuck, w')
    ∧ (fuel < length (offlineQueue w'))%nat.
Proof.
  intros Hvalid Hcon Hnet Hall (item & Hin & Hc).
  apply list_elem_of_lookup in Hin as [j Hj].
  destruct (drainFrom_runs_on d Hvalid fuel 0 [] w Hnet Hall)
    as (w' & E & Hlen).
  { exists j, item. split; [ lia | ]. split; assumption. }
  exists w'. split; [ | exact Hlen ].
  unfold processOfflineQueue.
  rewrite (bind_eq (gets isConnected) _ w (isConnected w) w eq_refl).
  rewrite (bind_eq (gets offlineQueue) _ w (offlineQueue w) w eq_refl).
  rewrite Hcon.
  replace (length (offlineQueue w) =? 0)%nat with false
    by (destruct (offlineQueue w); [ discriminate Hj | reflexivity ]).
  change (negb true || false) with false. cbv iota.
  apply bind_stuck_eq. exact E.
Qed.

Lemma bigDeal_valid w : (validateDealData (Some bigDeal) w).1 = Ok tt.
Proof. vm_compute. reflexivity. Qed.

(** The manager cut off from the store never finishes draining the creation
    in its queue, and its queue grows beyond every length. *)
Lemma cutOff_never_drained fuel :
  (processOfflineQueue fuel cutOff).1 = Stuck
  ∧ (fuel < length (offlineQueue (processOfflineQueue fuel cutOff).2))%nat.
Proof.
  destruct (drain_runs_on bigDeal fuel cutOff bigDeal_valid)
    as (w' & E & Hlen).
  - reflexivity.
  - intros n. reflexivity.
  - constructor; [ | constructor ]. left. repeat split.
  - exists (queuedCreate 0). split; [ | repeat split ].
    apply list_elem_of_singleton. reflexivity.
  - rewrite E. split; [ reflexivity | exact Hlen ].
Qed.

(** *** The fate of a queued operation *)

(** A queued creation that has failed twice fails a third time: it is
    dropped although its retry count, 3, does not exceed the ceiling 3, and the
    drain emits nothing but [offlineQueueProcessed]. *)
Lemma drain_drops_at_ceiling_silently :
  let w := connectedWorld (answers [ badRequest ]) [ queuedCreate 2 ] in
  let r := processOfflineQueue 5 w in
  r.1 = Ok tt
  ∧ replays r.2 = [ (queuedCreate 2, false) ]
  ∧ offlineQueue r.2 = []
  ∧ ¬ (attempts (retryConfig w) < S (retries (queuedCreate 2)))%nat
  ∧ emitted r.2
    = [ ("offlineQueueProcessed",
         [ ("processed", EJs (VNum 1)); ("remaining", EJs (VNum 0)) ]) ]
  ∧ consoleErrors r.2
    = [ "API request failed (POST /api/v1/db/data/noco/crm/deals): HTTP 400: Bad Request";
        "createDeal failed: Failed to create deal: HTTP 400: Bad Request";
        "Failed to process offline operation after 3 retries: Failed to create deal: HTTP 400: Bad Request" ].
Proof.
  intros w r.
  split; [ vm_compute; reflexivity | ].
  split; [ vm_compute; reflexivity | ].
  split; [ vm_compute; reflexivity | ].
  split; [ simpl; lia | ].
  split; vm_compute; reflexivity.
Qed.




(** *** The order of replays *)


(** What replaying a queued update of a deal is: the call of [updateDeal] on
    the identifier stored in the entry. *)
Lemma replay_of_update fuel item d :
  operation item = Some "update" -> entityType item = Some "deals" ->
  data item = Some d ->
  processOfflineItem fuel item
  = (let! deal := updateDeal fuel (get d "id") (Some d) notOptimistic in
     ret (RetObj deal)).
Proof.
  intros Hop Hty Hd. unfold processOfflineItem, callMember.
  rewrite Hop, Hty, Hd. reflexivity.
Qed.

(** The store accepts the creation and assigns the identifier 17; the
    update queued under the placeholder identifier is replayed as it was
    queued: the deal is asked for under the placeholder, which the store does
    not know, and the update is queued again by its own replay, time after
    time. *)
Example update_keeps_its_placeholder :
  let w := connectedWorld assigning [ queuedCreate 0; queuedUpdate ] in
  let r := processOfflineQueue 4 w in
  r.1 = Stuck
  ∧ replays r.2
    = [ (queuedCreate 0, true); (queuedUpdate, true) ]
      ++ ((fun item => (item, true)) <$> take 2 (drop 2 (offlineQueue r.2)))
  ∧ data <$> offlineQueue r.2
    = [ data (queuedCreate 0) ] ++ replicate 4 (data queuedUpdate)
  ∧ sent r.2
    = ("POST", "/api/v1/db/data/noco/crm/deals")
      :: replicate 3
           ("GET", "/api/v1/db/data/noco/crm/deals/offline_1700000000002?include=company%2Ccontact").
Proof.
  cbv zeta. split; [ vm_compute; reflexivity | ].
  split; [ vm_compute; reflexivity | ].
  split; vm_compute; reflexivity.
Qed.



End DrainFacts.
